(** * plot_dr_over_ifpr: detection ratio over inverse false positive rate

    A shallow embedding of [plot_dr_over_ifpr.py] and the properties of
    its load / index / plot / save pipeline.

    The script is one straight-line [__main__] block.  It is embedded as
    - pure functions for the table operations (rounding, distinct sorted
      values, boolean-mask selection),
    - an error monad for the plotting loop, whose only failure is the
      [IndexError] of [.values[0]] on an empty selection, and
    - a state-and-error monad over a [world] (file system, clock, trace
      of observable events) for the whole script.

    Numbers are the numbers of the program: [float64] columns are
    [spec_float] at binary64 precision (with NaN, infinities and signed
    zeros), the [int] column and Python integers are [Z]. *)

From Stdlib Require Import ZArith List String Ascii Bool Lia Sorted Permutation.
From Stdlib Require Import DecimalString DecimalNat DecimalZ.
From Stdlib Require Import Floats.PrimFloat Floats.FloatOps Floats.SpecFloat.
From stdpp Require Import gmap strings.
Import ListNotations.
Open Scope Z_scope.
Set Warnings "-inexact-float".

(* ===================================================================== *)
(** * binary64 numbers, as numpy and Python compare them                   *)
(* ===================================================================== *)

Module F64.

(** A [float64] value.  [prec = 53] and [emax = 1024] are binary64. *)
Definition float : Type := spec_float.

Definition mul : float -> float -> float := SFmul prec emax.
Definition div : float -> float -> float := SFdiv prec emax.
Definition sub : float -> float -> float := SFsub prec emax.

(** Python's and numpy's [==], [!=] and [<] on doubles (IEEE 754: every
    comparison with NaN is false, except [!=], and [-0.0 == 0.0]). *)
Definition eqb : float -> float -> bool := SFeqb.
Definition neb (x y : float) : bool := negb (SFeqb x y).
Definition ltb : float -> float -> bool := SFltb.

(** [np.isnan]. *)
Definition isnan (x : float) : bool :=
  match x with S754_nan => true | _ => false end.

(** The order of numpy's sort on floating-point arrays,
    [a < b || (b != b && a == a)]: the IEEE order with NaN last. *)
Definition np_less (a b : float) : bool :=
  ltb a b || (neb b b && eqb a a).

(** [np.rint]: round to the nearest integer, halfway cases to even,
    keeping the sign of a zero result. *)
Definition rint (x : float) : float :=
  match x with
  | S754_finite s m (Zneg _ as e) =>
      let '(mrs, _) := shr (shr_record_of_loc (Zpos m) loc_Exact) e (- e) in
      let q := round_nearest_even (shr_m mrs) (loc_of_shr_record mrs) in
      binary_normalize prec emax (cond_Zopp s q) 0 s
  | _ => x
  end.

(** Two doubles that no comparison of the program tells apart: equal
    under [==], or both NaN. *)
Definition equiv (a b : float) : Prop :=
  np_less a b = false /\ np_less b a = false.

(** [a] and [b] are apart in the sort order: [a != b], except that
    NaN is not apart from NaN. *)
Definition apart (a b : float) : bool := np_less a b || np_less b a.

(** [a] comes before [b] in ascending order: [a < b], or [b] is the NaN
    that ends the array and [a] is a number. *)
Definition before (a b : float) : Prop :=
  ltb a b = true \/ (isnan a = false /\ isnan b = true).

(** The same number: identical, or two zeros (which may differ in
    sign). *)
Definition same_number (a b : float) : Prop :=
  a = b \/ (exists s s', a = S754_zero s /\ b = S754_zero s').

(** ** The sort order through a key

    [key] sends a double to a triple of integers whose lexicographic
    order is numpy's sort order: class first (-inf, negative, zero,
    positive, +inf, NaN), then exponent and mantissa. *)
Definition key (x : float) : Z * Z * Z :=
  match x with
  | S754_infinity true => (-2, 0, 0)
  | S754_finite true m e => (-1, - e, Zneg m)
  | S754_zero _ => (0, 0, 0)
  | S754_finite false m e => (1, e, Zpos m)
  | S754_infinity false => (2, 0, 0)
  | S754_nan => (3, 0, 0)
  end.

Definition lex_lt (p q : Z * Z * Z) : Prop :=
  let '(c1, a1, b1) := p in
  let '(c2, a2, b2) := q in
  c1 < c2 \/ (c1 = c2 /\ (a1 < a2 \/ (a1 = a2 /\ b1 < b2))).

End F64.

Abbreviation float := F64.float.

(** Numeric literals of the script, as the doubles Python parses them to. *)
Definition lit_10 : float := Eval cbv in Prim2SF 10%float.
Definition lit_0_3 : float := Eval cbv in Prim2SF 3e-1%float.
Definition lit_6000 : float := Eval cbv in Prim2SF 6e3%float.
Definition lit_0_82 : float := Eval cbv in Prim2SF 0.82%float.
Definition lit_0_98 : float := Eval cbv in Prim2SF 0.98%float.
Definition lit_0 : float := Eval cbv in Prim2SF 0%float.
Definition lit_0_5 : float := Eval cbv in Prim2SF 0.5%float.
Definition lit_3 : float := Eval cbv in Prim2SF 3%float.
Definition lit_4_5 : float := Eval cbv in Prim2SF 4.5%float.
Definition lit_m5_5 : float := Eval cbv in Prim2SF (-5.5)%float.
Definition lit_6 : float := Eval cbv in Prim2SF 6%float.
Definition lit_8 : float := Eval cbv in Prim2SF 8%float.
Definition lit_1 : float := Eval cbv in Prim2SF 1%float.
Definition lit_2 : float := Eval cbv in Prim2SF 2%float.
Definition lit_8_6 : float := Eval cbv in Prim2SF 8.6%float.
Definition lit_2_54 : float := Eval cbv in Prim2SF 2.54%float.
Definition lit_1_025 : float := Eval cbv in Prim2SF 1.025%float.

(* ===================================================================== *)
(** * Exceptions and the error monad                                       *)
(* ===================================================================== *)

(** The Python exceptions the script can die of.  None is caught. *)
Inductive exn : Type :=
| IndexError          (* [.values[0]] or [markers_[k]] out of range *)
| ValueError          (* malformed input, failed [astype] *)
| KeyError            (* a required column is missing *)
| FileNotFoundError
| FileExistsError
| IsADirectoryError.

Inductive result (A : Type) : Type :=
| Ok (a : A)
| Raise (e : exn).
Arguments Ok {A} a.
Arguments Raise {A} e.

#[export] Instance result_ret : MRet result := fun A a => Ok a.
#[export] Instance result_bind : MBind result := fun A B f r =>
  match r with
  | Ok a => f a
  | Raise e => Raise e
  end.

(** [mapM] for [result]: a list comprehension whose body may raise. *)
Fixpoint traverse {A B : Type} (f : A -> result B) (l : list A) : result (list B) :=
  match l with
  | [] => Ok []
  | a :: l' => b ← f a; bs ← traverse f l'; Ok (b :: bs)
  end.

(* ===================================================================== *)
(** * The table                                                            *)
(* ===================================================================== *)

(** One record of [./results/dr_over_ifpr.json] after [astype]:
    [det_ratio], [fp_rate] and [threshold] are [float], [window_size] is
    [int].  [ifp_rate] is not re-typed; its values go to matplotlib,
    which plots doubles, so the column is held at [float64]. *)
Record row : Type := mkRow {
  det_ratio : float;
  fp_rate : float;
  ifp_rate : float;
  threshold : float;
  window_size : Z
}.

(** A data frame is its rows in file order; boolean-mask selection and
    [.values] keep that order. *)
Definition DataFrame : Type := list row.

(** ** Loader post-processing (line 49) *)

(** [np.around(x, decimals=1)] on one double: numpy multiplies by
    [10.0], rounds to the nearest integer, and divides by [10.0]. *)
Definition around1 (x : float) : float :=
  F64.div (F64.rint (F64.mul x lit_10)) lit_10.

(** [dataframe['threshold'] = np.around(dataframe['threshold'], decimals=1)] *)
Definition round_threshold (dataframe : DataFrame) : DataFrame :=
  map (fun r => {| det_ratio := det_ratio r;
                   fp_rate := fp_rate r;
                   ifp_rate := ifp_rate r;
                   threshold := around1 (threshold r);
                   window_size := window_size r |}) dataframe.

(** ** Integer readings of the rounding steps

    The quantities in which the arithmetic of [around1] is analysed:
    what the shift-and-round of the multiplication, the division and
    [rint] compute on the integer mantissa, and the two shapes of double
    that occur between the steps. *)

Module Rounding.
(** A location as the two bits below the unit. *)
Definition code (l : location) : Z :=
  match l with
  | loc_Exact => 0
  | loc_Inexact Lt => 1
  | loc_Inexact Eq => 2
  | loc_Inexact Gt => 3
  end.

(** The shift record of [a / 2^n]: quotient, round bit, sticky bit. *)
Definition rec_of (a n : Z) : shr_record :=
  {| shr_m := a / 2 ^ n;
     shr_r := Z.odd (a / 2 ^ (n - 1));
     shr_s := negb (a mod 2 ^ (n - 1) =? 0) |}.

(** [a / 2^n] rounded to the nearest integer, ties to even. *)
Definition rne (a n : Z) : Z :=
  let q := a / 2 ^ n in
  let rem := a mod 2 ^ n in
  if 2 * rem <? 2 ^ n then q
  else if 2 ^ n <? 2 * rem then q + 1
  else if Z.even q then q else q + 1.

(** A double as multiplication leaves it: at most 53 bits of mantissa,
    and 53 bits exactly, at an exponent in range, when the exponent is
    not negative. *)
Definition rounded (x : float) : Prop :=
  match x with
  | S754_finite _ m e =>
      Zpos m < 2 ^ 53 /\ (0 <= e -> 2 ^ 52 <= Zpos m /\ e <= 971)
  | _ => True
  end.

(** A normal double whose value is an integer. *)
Definition integral (x : float) : Prop :=
  match x with
  | S754_finite _ m e =>
      2 ^ 52 <= Zpos m < 2 ^ 53
      /\ -52 <= e <= 971
      /\ (e < 0 -> Zpos m mod 2 ^ (- e) = 0)
  | _ => True
  end.
End Rounding.

(* ===================================================================== *)
(** * The indexer (lines 53-54)                                            *)
(* ===================================================================== *)

Section Sorting.
Context {A : Type}.
(** [less] is the comparison of the sort, [ne] the element-wise [!=]. *)
Variable less : A -> A -> bool.
Variable ne : A -> A -> bool.

(** Two elements tie when the order puts neither first. *)
Definition tied (a b : A) : bool := negb (less a b) && negb (less b a).

(** One step of insertion sort: [x] goes left past every element it is
    less than, and stops behind the first one it is not less than. *)
Fixpoint insort (x : A) (sorted_prefix : list A) : list A :=
  match sorted_prefix with
  | [] => [x]
  | y :: rest => if less x y then x :: y :: rest else y :: insort x rest
  end.

(** Stable insertion sort, the elements taken left to right.  It is the
    model of numpy's [sort] and of Python's [sorted]: both are orders of
    the same elements, and on the data here (numbers, where the only
    elements that compare equal without being identical are [0.0] and
    [-0.0]) every sorting algorithm yields the same list up to that. *)
Definition insertion_sort (l : list A) : list A :=
  fold_left (fun acc x => insort x acc) l [].

(** [aux[1:][aux[1:] != aux[:-1]]]: keep what differs from its left
    neighbour. *)
Fixpoint keep_changes (prev : A) (aux : list A) : list A :=
  match aux with
  | [] => []
  | x :: rest =>
      if ne x prev then x :: keep_changes x rest else keep_changes x rest
  end.

(** The mask of [np.unique] on a sorted array: the first element, and
    every element that differs from its left neighbour. *)
Definition unique_mask (aux : list A) : list A :=
  match aux with
  | [] => []
  | x :: rest => x :: keep_changes x rest
  end.

(** [np.searchsorted(aux, v, side='left')] on a sorted array: the number
    of elements less than [v]. *)
Fixpoint searchsorted_left (aux : list A) (v : A) : nat :=
  match aux with
  | [] => 0%nat
  | x :: rest => if less x v then S (searchsorted_left rest v) else 0%nat
  end.
End Sorting.

(** [np.unique] on the [int64] column. *)
Definition np_unique_int (ar : list Z) : list Z :=
  unique_mask (fun a b => negb (a =? b)) (insertion_sort Z.ltb ar).

(** [np.unique] on a [float64] column.  After sorting, NaNs are last; with
    [equal_nan=True] (the default) they collapse to one: the mask is
    computed on the part before the first NaN, the first NaN is kept and
    the others are dropped. *)
Definition np_unique_float (ar : list float) : list float :=
  let aux := insertion_sort F64.np_less ar in
  match last aux with
  | Some aux_last =>
      if F64.isnan aux_last then
        let aux_firstnan := searchsorted_left F64.np_less aux aux_last in
        unique_mask F64.neb (firstn aux_firstnan aux)
          ++ firstn 1 (skipn aux_firstnan aux)
      else unique_mask F64.neb aux
  | None => unique_mask F64.neb aux
  end.

(** Python's [sorted] on a list of [np.float64] / [np.int64], which
    compares with [<]. *)
Definition sorted_float : list float -> list float := insertion_sort F64.ltb.
Definition sorted_int : list Z -> list Z := insertion_sort Z.ltb.

(** [thresholds = sorted(np.unique(dataframe['threshold'].values))] *)
Definition thresholds (dataframe : DataFrame) : list float :=
  sorted_float (np_unique_float (map threshold dataframe)).

(** [window_sizes = sorted(np.unique(dataframe['window_size'].values))] *)
Definition window_sizes (dataframe : DataFrame) : list Z :=
  sorted_int (np_unique_int (map window_size dataframe)).

(* ===================================================================== *)
(** * The figure                                                           *)
(* ===================================================================== *)

(** A [matplotlib.lines.Line2D] built by hand for the legend. *)
Record Line2D : Type := mkLine2D {
  l_xdata : list float;
  l_ydata : list float;
  l_label : string;
  l_color : string;
  l_marker : string;
  l_ls : string;
  l_mew : float;
  l_ms : float
}.

(** The figure is what has been done to it: the calls on [ax] and [plt],
    in program order, with their arguments.  Every call of the script
    adds to the one figure and none reads it back. *)
Inductive artist : Type :=
| Plot (x y : float) (color marker : string) (ms mew : float)
| Annotate (text : string) (xy xytext : float * float)
           (ha va textcoords : string) (fontsize : float) (color : string)
| Xlim (left right : float)
| Ylim (bottom top : float)
| Xscale (value : string)
| Xlabel (xlabel : string) (fontsize : float)
| Ylabel (ylabel : string) (fontsize : float)
| Grid (which ls color : string) (lw : float)
| TickParams (axis which : string) (labelsize : float)
| Legend (handles : list Line2D) (loc : string) (fontsize framealpha : float)
| TightLayout
| SetSizeInches (w h : float) (forward : bool).

Definition figure : Type := list artist.

(** ** Styles *)

(** Python's [l[k]]: a negative index counts from the end, and an index
    outside the list raises [IndexError]. *)
Definition getitem {A : Type} (l : list A) (k : Z) : result A :=
  let n := Z.of_nat (length l) in
  let k' := if k <? 0 then k + n else k in
  if (0 <=? k') && (k' <? n) then
    match nth_error l (Z.to_nat k') with
    | Some a => Ok a
    | None => Raise IndexError
    end
  else Raise IndexError.

Definition markers_ : list string := ["o"; "v"; "P"; "s"; "D"; "x"]%string.

(** [def markers(index): return markers_[index % len(markers_)]].
    Python's [%] by a positive number is [Z.modulo]. *)
Definition markers (index : Z) : result string :=
  getitem markers_ (index mod Z.of_nat (length markers_)).

(** [str(i)] for a Python int. *)
Definition str_int (i : Z) : string := NilZero.string_of_int (Z.to_int i).

(** [str(i)] for the index of [enumerate], a Python int that is not
    negative. *)
Definition str_nat (i : nat) : string := NilEmpty.string_of_uint (Nat.to_uint i).

(** [f'C{i}'] *)
Definition color_C (i : nat) : string := "C" +:+ str_nat i.

(** How matplotlib reads a colour [CN] ([matplotlib.colors.to_rgba]): if
    the name matches [C[0-9]+], it is
    [colors[int(c[1:]) % len(colors)]], where [colors] is the colour list
    of the property cycle, or [['k']] if the cycle has none. *)
Definition all_digits (s : string) : bool :=
  forallb (fun c => (("0" <=? c) && (c <=? "9"))%char) (list_ascii_of_string s).

Definition nth_color (prop_cycle : list string) (c : string) : option string :=
  match c with
  | String "C" digits =>
      if all_digits digits && negb (String.eqb digits "") then
        match NilEmpty.uint_of_string digits with
        | Some d =>
            let colors := match prop_cycle with [] => ["k"%string] | _ => prop_cycle end in
            nth_error colors (Nat.of_uint d mod length colors)%nat
        | None => None
        end
      else None
  | _ => None
  end.

(** ** The plotting loop (lines 70-89) *)

(** [a.values[0]] *)
Definition values0 {A : Type} (values : list A) : result A :=
  match values with
  | x :: _ => Ok x
  | [] => Raise IndexError
  end.

(** [dataframe[dataframe['threshold'] == threshold]] *)
Definition select_line (dataframe : DataFrame) (t : float) : DataFrame :=
  List.filter (fun r => F64.eqb (threshold r) t) dataframe.

(** [line.loc[line['window_size'] == window_size]] *)
Definition select_datapoint (line : DataFrame) (w : Z) : DataFrame :=
  List.filter (fun r => window_size r =? w) line.

(** Lines 79-82: the first loop over [window_sizes], which fills [X]
    and [Y]. *)
Fixpoint select_datapoints (line : DataFrame) (ws : list Z)
    (X Y : list float) : result (list float * list float) :=
  match ws with
  | [] => Ok (X, Y)
  | w :: ws' =>
      let datapoint := select_datapoint line w in
      x ← values0 (map ifp_rate datapoint);
      y ← values0 (map det_ratio datapoint);
      select_datapoints line ws' (X ++ [x]) (Y ++ [y])
  end.

(** [zip(X, Y, window_sizes)] *)
Fixpoint zip3 {A B C : Type} (X : list A) (Y : list B) (Z : list C)
    : list (A * B * C) :=
  match X, Y, Z with
  | x :: X', y :: Y', z :: Z' => (x, y, z) :: zip3 X' Y' Z'
  | _, _, _ => []
  end.

(** Lines 85-89: the second loop, which draws one marker and one label
    per point. *)
Fixpoint annotate_points (i : nat) (points : list (float * float * Z))
    (ax : figure) : result figure :=
  match points with
  | [] => Ok ax
  | (x, y, w) :: points' =>
      marker ← markers (Z.of_nat i);
      let ax := ax ++ [Plot x y (color_C i) marker lit_3 lit_0_5] in
      let ax := ax ++ [Annotate (str_int w) (x, y) (lit_0, lit_m5_5)
                         "center" "center" "offset points" lit_4_5 (color_C i)] in
      annotate_points i points' ax
  end.

(** [enumerate(l)] *)
Definition enumerate {A : Type} (l : list A) : list (nat * A) :=
  combine (seq 0 (length l)) l.

(** The body of the loop over [enumerate(thresholds)]. *)
Definition plot_line (dataframe : DataFrame) (ws : list Z)
    (i : nat) (t : float) (ax : figure) : result figure :=
  let line := select_line dataframe t in
  '(X, Y) ← select_datapoints line ws [] [];
  annotate_points i (zip3 X Y ws) ax.

(** [for i, threshold in enumerate(thresholds): ...] *)
Fixpoint plot_lines (dataframe : DataFrame) (ws : list Z)
    (its : list (nat * float)) (ax : figure) : result figure :=
  match its with
  | [] => Ok ax
  | (i, t) :: its' =>
      ax ← plot_line dataframe ws i t ax;
      plot_lines dataframe ws its' ax
  end.

(** ** The loop in closed form

    What the loop draws, written without the loop; the lemmas below show
    that the loop computes this. *)

(** A row matches a threshold and a window size as the two selections
    test it. *)
Definition matches (t : float) (w : Z) (r : row) : bool :=
  F64.eqb (threshold r) t && (window_size r =? w).

(** The row a point is read from: the first one left by both selections. *)
Definition row_for (dataframe : DataFrame) (t : float) (w : Z) : result row :=
  values0 (select_datapoint (select_line dataframe t) w).

(** The marker shape of series [i]. *)
Definition marker_of (i : nat) : string := nth (i mod 6)%nat markers_ ""%string.

(** The point marker read from row [r] in series [i]. *)
Definition point_of (i : nat) (r : row) : float * float * string * string :=
  (ifp_rate r, det_ratio r, color_C i, marker_of i).

Definition draw_point (i : nat) (w : Z) (r : row) : figure :=
  [ Plot (ifp_rate r) (det_ratio r) (color_C i) (marker_of i) lit_3 lit_0_5;
    Annotate (str_int w) (ifp_rate r, det_ratio r) (lit_0, lit_m5_5)
      "center" "center" "offset points" lit_4_5 (color_C i) ].

Definition draw_line (i : nat) (ws : list Z) (rs : list row) : figure :=
  flat_map (fun '(w, r) => draw_point i w r) (combine ws rs).

Definition draw_lines (dataframe : DataFrame) (ws : list Z)
    (its : list (nat * float)) : result (list figure) :=
  traverse (fun '(i, t) => rs ← traverse (row_for dataframe t) ws;
                           Ok (draw_line i ws rs)) its.

(** The whole loop, from the table alone. *)
Definition plot (dataframe : DataFrame) : result figure :=
  plot_lines dataframe (window_sizes dataframe)
    (enumerate (thresholds dataframe)) [].

(** ** Axes options (lines 97-112) *)
Definition plot_options : figure :=
  [ Xlim lit_0_3 lit_6000;
    Ylim lit_0_82 lit_0_98;
    Xscale "log";
    Xlabel "Inverse False Positive Rate (s)" lit_8;
    Ylabel "Detection Ratio" lit_8;
    Grid "both" "-" "#D9D9D9" lit_0_5;
    TickParams "both" "major" lit_6;
    TickParams "both" "minor" lit_6 ].

(** [width = 8.6 / 2.54 / 1.025] *)
Definition width : float := F64.div (F64.div lit_8_6 lit_2_54) lit_1_025.

(** [fig.set_size_inches(width, 2 / 3 * width, forward=True)] *)
Definition set_size : artist :=
  SetSizeInches width (F64.mul (F64.div lit_2 lit_3) width) true.

(** ** What is drawn *)

(** The artists of the data: markers and their labels. *)
Definition data_artist (a : artist) : bool :=
  match a with
  | Plot _ _ _ _ _ _ | Annotate _ _ _ _ _ _ _ _ => true
  | _ => false
  end.

(** The point markers of a figure: position, colour, marker shape. *)
Definition point_markers (fig : figure) : list (float * float * string * string) :=
  flat_map (fun a => match a with
                     | Plot x y c m _ _ => [(x, y, c, m)]
                     | _ => []
                     end) fig.

(** The axis limits in force: the last [xlim] and the last [ylim]. *)
Definition axis_limits (fig : figure)
    : option (float * float) * option (float * float) :=
  fold_left (fun lim a => match a with
                          | Xlim l r => (Some (l, r), snd lim)
                          | Ylim b t => (fst lim, Some (b, t))
                          | _ => lim
                          end) fig (None, None).

(** The legend handles of a figure (of the last [legend] call). *)
Definition legend_handles (fig : figure) : list Line2D :=
  fold_left (fun h a => match a with
                        | Legend handles _ _ _ => handles
                        | _ => h
                        end) fig [].

(* ===================================================================== *)
(** * The world of the script                                              *)
(* ===================================================================== *)

(** What the libraries do that the script only passes through: parsing,
    number formatting, and PDF serialization. *)
Class Libraries : Type := {
  (** Lines 42-48, [pd.read_json(..., lines=True)] then [astype]: from the
      bytes of the file ([None] if there is no such file) to the typed
      table, or the exception pandas raises. *)
  read_json_astype : option string -> result DataFrame;
  (** [f'{threshold}'] for an [np.float64]. *)
  str_float : float -> string;
  (** [f'{t:.1f}'] *)
  format_1f : float -> string;
  (** The bytes [savefig] writes for a figure, which may depend on the
      time of writing (the PDF's creation date). *)
  pdf_bytes : figure -> list (string * string) -> float -> string
}.

Inductive node : Type :=
| Dir
| File (content : string).

(** What the script does to the outside, in order. *)
Inductive event : Type :=
| Stdout (text : string)
| ReadFile (path : string)
| MkDir (path : string)                    (* the call, whatever comes of it *)
| SaveFig (path : string) (fig : figure).  (* the call, whatever comes of it *)

Record world : Type := mkWorld {
  fs : gmap string node;        (* the files and directories, by path *)
  clock : nat -> float;         (* the n-th reading of the system clock *)
  ticks : nat;                  (* readings taken so far *)
  trace : list event            (* events so far, oldest first *)
}.

(** A step of the script: it ends in a value or in an uncaught exception,
    and leaves a world either way. *)
Definition Script (A : Type) : Type := world -> result A * world.

#[export] Instance script_ret : MRet Script := fun A a w => (Ok a, w).
#[export] Instance script_bind : MBind Script := fun A B f m w =>
  match m w with
  | (Ok a, w') => f a w'
  | (Raise e, w') => (Raise e, w')
  end.

(** A pure computation that may raise, run as a step. *)
Definition lift {A : Type} (r : result A) : Script A := fun w => (r, w).

(** The world after an event, after a reading of the clock, and with
    other files. *)
Definition log (e : event) (w : world) : world :=
  {| fs := fs w; clock := clock w; ticks := ticks w; trace := trace w ++ [e] |}.

Definition tick (w : world) : world :=
  {| fs := fs w; clock := clock w; ticks := S (ticks w); trace := trace w |}.

Definition set_fs (files : gmap string node) (w : world) : world :=
  {| fs := files; clock := clock w; ticks := ticks w; trace := trace w |}.

Definition emit (e : event) : Script unit := fun w => (Ok tt, log e w).

Definition nl : string := String (ascii_of_nat 10) EmptyString.

(** [print(s, end=e, flush=True)] and [print(s)] *)
Definition print_end (s e : string) : Script unit := emit (Stdout (s +:+ e)).
Definition print (s : string) : Script unit := print_end s nl.

(** [time.time()] *)
Definition time : Script float := fun w => (Ok (clock w (ticks w)), tick w).

(** The bytes of a file, if the path is one. *)
Definition file_bytes (files : gmap string node) (path : string) : option string :=
  match files !! path with
  | Some (File content) => Some content
  | _ => None
  end.

(** Reading the results file and typing its columns. *)
Definition read_results `{Libraries} (path : string) : Script DataFrame :=
  fun w =>
    (read_json_astype (file_bytes (fs w) path), log (ReadFile path) w).

(** [Path(p).mkdir(exist_ok=True)]: [os.mkdir], and if that fails because
    the path exists, the error is dropped when the path is a directory
    and raised again when it is not.  The parent is the working
    directory, which exists; permissions are not modelled. *)
Definition mkdir_exist_ok (path : string) : Script unit := fun w =>
  let w := log (MkDir path) w in
  match fs w !! path with
  | None => (Ok tt, set_fs (<[path := Dir]> (fs w)) w)
  | Some Dir => (Ok tt, w)
  | Some (File _) => (Raise FileExistsError, w)
  end.

(** [os.path.join(a, b)] on POSIX. *)
Definition startswith_sep (b : string) : bool :=
  match b with
  | String "/" _ => true
  | _ => false
  end.

Fixpoint endswith_sep (a : string) : bool :=
  match a with
  | EmptyString => false
  | String c EmptyString => Ascii.eqb c "/"
  | String _ rest => endswith_sep rest
  end.

Definition os_path_join (a b : string) : string :=
  if startswith_sep b then b
  else if String.eqb a "" || endswith_sep a then a +:+ b
  else a +:+ "/" +:+ b.

(** The directory part of a path: what is left of its last [/]. *)
Fixpoint split_last (p : string) : option (string * string) :=
  match p with
  | EmptyString => None
  | String c rest =>
      match split_last rest with
      | Some (d, b) => Some (String c d, b)
      | None => if Ascii.eqb c "/" then Some (EmptyString, rest) else None
      end
  end.

(** [plt.savefig(path, bbox_inches='tight', pad_inches=0)]: opens [path]
    for writing, which needs its directory, and writes the page. *)
Definition savefig `{Libraries} (path : string) (fig : figure)
    (kwargs : list (string * string)) : Script unit := fun w =>
  let w := log (SaveFig path fig) w in
  let parent_ok :=
    match split_last path with
    | Some (d, _) => match fs w !! d with
                     | Some Dir => Ok tt
                     | _ => Raise FileNotFoundError
                     end
    | None => Ok tt
    end in
  match parent_ok, fs w !! path with
  | Raise e, _ => (Raise e, w)
  | Ok _, Some Dir => (Raise IsADirectoryError, w)
  | Ok _, _ =>
      (Ok tt,
       tick (set_fs (<[path := File (pdf_bytes fig kwargs (clock w (ticks w)))]> (fs w)) w))
  end.

(* ===================================================================== *)
(** * The script                                                           *)
(* ===================================================================== *)

Section Main.
Context `{Libraries}.

(** Lines 115-118: one legend handle per threshold. *)
Definition legend_elements (ts : list float) : result (list Line2D) :=
  traverse (fun '(i, t) =>
              marker ← markers (Z.of_nat i);
              Ok {| l_xdata := []; l_ydata := [];
                    l_label := "Threshold " +:+ str_float t;
                    l_color := color_C i; l_marker := marker;
                    l_ls := "None"; l_mew := lit_0_5; l_ms := lit_3 |})
           (enumerate ts).

Definition results_path : string := "./results/dr_over_ifpr.json".

Definition main : Script unit :=
  _ ← print "";
  _ ← print "PLOT DETECTION RATIO OVER THE INVERSE FALSE POSITIVE RATE";
  _ ← print "";
  script_start ← time;
  (* Create pandas data frame from results *)
  _ ← print_end "Reading in data..." " ";
  dataframe ← read_results results_path;
  let dataframe := round_threshold dataframe in
  _ ← print "Done!";
  let thresholds := thresholds dataframe in
  let window_sizes := window_sizes dataframe in
  (* Create the parametrized plot *)
  let ax : figure := [] in
  _ ← print_end "Creating plot..." " ";
  ax ← lift (plot_lines dataframe window_sizes (enumerate thresholds) ax);
  _ ← print "Done!";
  (* Set up options for the plot *)
  let ax := ax ++ plot_options in
  legend_elements ← lift (legend_elements thresholds);
  let ax := ax ++ [Legend legend_elements "upper right" lit_6 lit_1] in
  let ax := ax ++ [TightLayout] in
  let ax := ax ++ [set_size] in
  (* Construct path for this plot file *)
  let plots_dir := "./plots"%string in
  _ ← mkdir_exist_ok plots_dir;
  let file_path := os_path_join plots_dir "dr_over_ifpr.pdf" in
  (* Save the plot *)
  _ ← print_end "Saving plot as PDF..." " ";
  _ ← savefig file_path ax [("bbox_inches", "tight"); ("pad_inches", "0")]%string;
  _ ← print "Done!";
  _ ← print "";
  now ← time;
  _ ← print ("This took " +:+ format_1f (F64.sub now script_start) +:+ " seconds!");
  print "".

(** A run from a file system and a clock. *)
Definition boot (files : gmap string node) (clk : nat -> float) : world :=
  {| fs := files; clock := clk; ticks := 0; trace := [] |}.

Definition run (files : gmap string node) (clk : nat -> float)
    : result unit * world :=
  main (boot files clk).
End Main.

(** ** The run in closed form *)

Section Closed.
Context `{Libraries}.

(** The figure the script has built when it reaches the save step. *)
Definition finished_figure (table : DataFrame) : result figure :=
  let dataframe := round_threshold table in
  ax ← plot dataframe;
  handles ← legend_elements (thresholds dataframe);
  Ok ((((ax ++ plot_options)
          ++ [Legend handles "upper right" lit_6 lit_1])
         ++ [TightLayout])
        ++ [set_size]).

Definition plots_dir : string := "./plots".
Definition file_path : string := "./plots/dr_over_ifpr.pdf".
Definition savefig_kwargs : list (string * string) :=
  [("bbox_inches", "tight"); ("pad_inches", "0")]%string.

(** The worlds the script passes through. *)
Definition w_start (w : world) : world :=
  tick (log (Stdout ("" +:+ nl))
         (log (Stdout ("PLOT DETECTION RATIO OVER THE INVERSE FALSE POSITIVE RATE" +:+ nl))
            (log (Stdout ("" +:+ nl)) w))).
Definition w_read (w : world) : world :=
  log (ReadFile results_path) (log (Stdout ("Reading in data..." +:+ " ")) (w_start w)).
Definition w_plot (w : world) : world :=
  log (Stdout ("Creating plot..." +:+ " ")) (log (Stdout ("Done!" +:+ nl)) (w_read w)).
Definition w_options (w : world) : world :=
  log (Stdout ("Done!" +:+ nl)) (w_plot w).
Definition w_end (start : float) (w : world) : world :=
  log (Stdout ("" +:+ nl))
    (log (Stdout (("This took " +:+ format_1f (F64.sub (clock w (ticks w)) start)
                     +:+ " seconds!") +:+ nl))
       (tick (log (Stdout ("" +:+ nl)) (log (Stdout ("Done!" +:+ nl)) w)))).

(** What has been printed and read when the table is loaded, when the
    plot is made, and at the end. *)
Definition trace_read : list event :=
  [ Stdout nl;
    Stdout ("PLOT DETECTION RATIO OVER THE INVERSE FALSE POSITIVE RATE" +:+ nl);
    Stdout nl;
    Stdout "Reading in data... ";
    ReadFile results_path ].

Definition trace_plot : list event :=
  trace_read ++ [ Stdout ("Done!" +:+ nl); Stdout "Creating plot... " ].

(** The files once [mkdir] has passed. *)
Definition dir_made (files : gmap string node) : gmap string node :=
  match files !! plots_dir with
  | None => <[plots_dir := Dir]> files
  | Some _ => files
  end.

Definition trace_mkdir : list event :=
  trace_plot ++ [ Stdout ("Done!" +:+ nl); MkDir plots_dir ].

Definition trace_save (fig : figure) : list event :=
  trace_mkdir ++ [ Stdout "Saving plot as PDF... "; SaveFig file_path fig ].

Definition trace_end (now script_start : float) : list event :=
  [ Stdout ("Done!" +:+ nl);
    Stdout nl;
    Stdout (("This took " +:+ format_1f (F64.sub now script_start) +:+ " seconds!")
              +:+ nl);
    Stdout nl ].
End Closed.

(* ===================================================================== *)
(** * Sample inputs                                                        *)
(* ===================================================================== *)

Module Sample.

Definition f_0_5 : float := Eval cbv in Prim2SF 0.5%float.
Definition f_0_9 : float := Eval cbv in Prim2SF 0.9%float.
Definition f_0_85 : float := Eval cbv in Prim2SF 0.85%float.
Definition f_0_88 : float := Eval cbv in Prim2SF 0.88%float.
Definition f_0_91 : float := Eval cbv in Prim2SF 0.91%float.
Definition f_0_95 : float := Eval cbv in Prim2SF 0.95%float.
Definition f_0_01 : float := Eval cbv in Prim2SF 0.01%float.
Definition f_20 : float := Eval cbv in Prim2SF 20%float.
Definition f_100 : float := Eval cbv in Prim2SF 100%float.
Definition f_200 : float := Eval cbv in Prim2SF 200%float.
Definition f_1000 : float := Eval cbv in Prim2SF 1000%float.

Definition row_05_10 : row := mkRow f_0_95 f_0_01 lit_10 f_0_5 10.
Definition row_05_100 : row := mkRow f_0_91 f_0_01 f_100 f_0_5 100.
Definition row_09_10 : row := mkRow f_0_88 f_0_01 f_20 f_0_9 10.
Definition row_09_100 : row := mkRow f_0_85 f_0_01 f_200 f_0_9 100.
(** A second row for threshold 0.5 and window size 10. *)
Definition row_05_10_again : row := mkRow f_0_85 f_0_01 f_1000 f_0_5 10.

(** Thresholds 0.5 and 0.9, window sizes 10 and 100, one row per pair. *)
Definition table : DataFrame :=
  [row_05_10; row_05_100; row_09_10; row_09_100].

(** The same without the row for threshold 0.9 and window size 100. *)
Definition table_missing : DataFrame :=
  [row_05_10; row_05_100; row_09_10].

(** The same as [table] with a second row for one pair. *)
Definition table_duplicate : DataFrame :=
  [row_05_10; row_05_100] ++ row_09_10 :: [row_09_100] ++ row_05_10_again :: [].

(** What the loop draws for [table]. *)
Definition table_drawn : figure :=
  concat [draw_line 0 [10; 100] [row_05_10; row_05_100];
          draw_line 1 [10; 100] [row_09_10; row_09_100]].

(** Libraries that read a table off the first byte of the file and write
    the time of writing into the page. *)
#[export] Instance libraries : Libraries := {|
  read_json_astype := fun bytes =>
    match bytes with
    | Some (String "f" _) => Ok table
    | Some (String "m" _) => Ok table_missing
    | Some _ => Raise ValueError
    | None => Raise FileNotFoundError
    end;
  str_float := fun x => if F64.eqb x f_0_5 then "0.5"%string else "0.9"%string;
  format_1f := fun _ => "0.0"%string;
  pdf_bytes := fun _ _ now =>
    if F64.eqb now lit_0 then "%PDF at 0"%string else "%PDF later"%string
|}.

(** The figure the script builds from [table]. *)
Definition table_figure : figure :=
  match finished_figure table with
  | Ok fig => fig
  | Raise _ => []
  end.

Definition files_full : gmap string node :=
  {[ "./results/dr_over_ifpr.json"%string := File "full" ]}.

Definition files_missing : gmap string node :=
  {[ "./results/dr_over_ifpr.json"%string := File "missing" ]}.

Definition files_rerun : gmap string node :=
  <[ "./plots"%string := Dir ]> files_full.

Definition clock_0 : nat -> float := fun _ => lit_0.
Definition clock_1 : nat -> float := fun _ => lit_1.

End Sample.

(* ===================================================================== *)
(** * Further readings of the figure, the table and the numbers            *)
(* ===================================================================== *)

(** The labels of a figure: text, position and colour of each
    annotation, in drawing order. *)
Definition annotations (fig : figure) : list (string * (float * float) * string) :=
  flat_map (fun a => match a with
                     | Annotate text xy _ _ _ _ _ color => [(text, xy, color)]
                     | _ => []
                     end) fig.

(** The style a reader sees for series [i]: the colour that [f'C{i}']
    resolves to, and the marker shape. *)
Definition series_style (prop_cycle : list string) (i : nat)
    : option string * result string :=
  (nth_color prop_cycle (color_C i), markers (Z.of_nat i)).

(** [r'] has the threshold and the window size of [r], as the two
    selections of the loop compare them. *)
Definition same_pair (r r' : row) : bool :=
  matches (threshold r) (window_size r) r'.

(** What the selections see of a row: the sort key of its threshold
    (one key for [0.0] and [-0.0]) and its window size. *)
Definition pair_key (r : row) : (Z * Z * Z) * Z :=
  (F64.key (threshold r), window_size r).

(** No two rows of the table have the same threshold and window size. *)
Fixpoint distinct_pairs (dataframe : DataFrame) : bool :=
  match dataframe with
  | [] => true
  | r :: rest => forallb (fun r' => negb (same_pair r r')) rest && distinct_pairs rest
  end.

(** [float(k)] for a Python int: the nearest double. *)
Definition float_of_int (k : Z) : float := binary_normalize prec emax k 0 false.

(** [-x] on a double. *)
Definition float_neg : float -> float := SFopp.

(** Whether a double is a number, and if so [np.signbit] of it. *)
Definition sign_class (x : float) : option bool :=
  match x with
  | S754_nan => None
  | S754_zero s | S754_infinity s | S754_finite s _ _ => Some s
  end.

(** What a trace shows on the terminal: the printed texts, in order. *)
Definition stdout (events : list event) : string :=
  fold_right (fun e rest => match e with
                            | Stdout text => text +:+ rest
                            | _ => rest
                            end) ""%string events.

(** The outcome of a run, read off the table and the two paths the
    script writes to: the exceptions in the order in which the script
    can meet them. *)
Definition outcome `{Libraries} (files : gmap string node) : result unit :=
  match read_json_astype (file_bytes files results_path) with
  | Raise e => Raise e
  | Ok table =>
      match plot (round_threshold table) with
      | Raise _ => Raise IndexError
      | Ok _ =>
          match files !! plots_dir with
          | Some (File _) => Raise FileExistsError
          | _ =>
              match files !! file_path with
              | Some Dir => Raise IsADirectoryError
              | _ => Ok tt
              end
          end
      end
  end.

(** ** More sample inputs *)

Module Cases.

Definition f_nan : float := S754_nan.
Definition f_0_3 : float := Eval cbv in Prim2SF 0.3%float.

(** A row whose threshold is missing ([null] in the file). *)
Definition row_nan_10 : row := mkRow Sample.f_0_85 Sample.f_0_01 Sample.f_1000 f_nan 10.

Definition table_nan : DataFrame := Sample.table ++ [row_nan_10].




(** The rows of the sample table, last first. *)
Definition table_reversed : DataFrame := rev Sample.table.

(** Libraries that read [table] from whatever file there is. *)
Definition reading (table : DataFrame) : Libraries := {|
  read_json_astype := fun bytes =>
    match bytes with
    | Some _ => Ok table
    | None => Raise FileNotFoundError
    end;
  str_float := @str_float Sample.libraries;
  format_1f := @format_1f Sample.libraries;
  pdf_bytes := @pdf_bytes Sample.libraries
|}.

(** A disk with another file beside the results. *)
Definition files_with_notes : gmap string node :=
  <[ "./notes.txt"%string := File "keep" ]> Sample.files_full.

End Cases.

(* ===================================================================== *)
(** * Facts: the order of doubles                                          *)
(* ===================================================================== *)

Module F64Facts.
Import F64.

Lemma compare_cont_Eq (m1 m2 : positive) :
  Pos.compare_cont Eq m1 m2 = (m1 ?= m2)%positive.
Proof. reflexivity. Qed.

Lemma eqb_refl (x : float) : eqb x x = negb (isnan x).
Proof.
  unfold eqb, SFeqb.
  destruct x as [[]|[]| |[] m e]; cbn -[Z.compare Pos.compare]; try reflexivity;
    rewrite Z.compare_refl, compare_cont_Eq, Pos.compare_refl; reflexivity.
Qed.

Lemma np_less_unfold (a b : float) :
  np_less a b = ltb a b || (isnan b && negb (isnan a)).
Proof. unfold np_less, neb. rewrite !eqb_refl, negb_involutive. reflexivity. Qed.

Ltac order_cases :=
  repeat match goal with
  | |- context [Z.compare ?a ?b] => destruct (Z.compare_spec a b)
  | |- context [Pos.compare ?a ?b] => destruct (Pos.compare_spec a b)
  end.

Lemma np_less_key (a b : float) :
  np_less a b = true <-> lex_lt (key a) (key b).
Proof.
  rewrite np_less_unfold. unfold ltb, SFltb.
  destruct a as [[]|[]| |[] m1 e1], b as [[]|[]| |[] m2 e2];
    cbn -[Z.compare Pos.compare]; rewrite ?compare_cont_Eq;
    order_cases; cbn; split; intros; try discriminate; try reflexivity; try lia.
Qed.

Lemma np_less_false_key (a b : float) :
  np_less a b = false <-> ~ lex_lt (key a) (key b).
Proof. rewrite <- np_less_key. destruct (np_less a b); intuition congruence. Qed.

Lemma np_less_irrefl (a : float) : np_less a a = false.
Proof. apply np_less_false_key. destruct (key a) as [[c x] y]. cbn. lia. Qed.

Lemma np_less_trans (a b c : float) :
  np_less a b = true -> np_less b c = true -> np_less a c = true.
Proof.
  rewrite !np_less_key.
  destruct (key a) as [[? ?] ?], (key b) as [[? ?] ?], (key c) as [[? ?] ?].
  cbn. lia.
Qed.

Lemma np_less_negtrans (a b c : float) :
  np_less a b = false -> np_less b c = false -> np_less a c = false.
Proof.
  rewrite !np_less_false_key.
  destruct (key a) as [[? ?] ?], (key b) as [[? ?] ?], (key c) as [[? ?] ?].
  cbn. lia.
Qed.

Lemma equiv_key (a b : float) : equiv a b <-> key a = key b.
Proof.
  unfold equiv. rewrite !np_less_false_key.
  destruct (key a) as [[? ?] ?], (key b) as [[? ?] ?]. cbn.
  split; [intros; f_equal; [f_equal|]; lia | intros [= -> -> ->]; lia].
Qed.

Lemma eqb_key (a b : float) :
  isnan a = false -> isnan b = false ->
  (eqb a b = true <-> key a = key b).
Proof.
  unfold eqb, SFeqb.
  destruct a as [[]|[]| |[] m1 e1], b as [[]|[]| |[] m2 e2]; try discriminate;
    intros _ _; cbn -[Z.compare Pos.compare]; rewrite ?compare_cont_Eq;
    order_cases; cbn; split; intros; try discriminate; try reflexivity;
    try congruence; try (exfalso; injection H1 || injection H0; lia).
Qed.

(** [!=] is "less one way or the other", away from NaN. *)
Lemma neb_np_less (a b : float) :
  isnan a = false -> isnan b = false ->
  neb a b = np_less a b || np_less b a.
Proof.
  intros Ha Hb. apply eq_true_iff_eq.
  unfold neb. change (SFeqb a b) with (eqb a b). rewrite negb_true_iff, orb_true_iff, !np_less_key.
  pose proof (eqb_key a b Ha Hb) as E.
  destruct (eqb a b).
  - assert (K : key a = key b) by (apply E; reflexivity).
    rewrite K. destruct (key b) as [[? ?] ?]. cbn. split; [discriminate | lia].
  - assert (K : key a <> key b) by (intros K; apply E in K; discriminate).
    destruct (key a) as [[c1 a1] b1], (key b) as [[c2 a2] b2]. cbn.
    split; [intros _ | reflexivity].
    destruct (Z.eq_dec c1 c2), (Z.eq_dec a1 a2), (Z.eq_dec b1 b2); subst;
      try congruence; lia.
Qed.

Lemma key_inj (a b : float) :
  key a = key b <-> a = b \/ (exists s s', a = S754_zero s /\ b = S754_zero s').
Proof.
  split.
  - destruct a as [[]|[]| |[] m1 e1], b as [[]|[]| |[] m2 e2]; cbn; intros [=]; subst;
      try (left; reflexivity); try (right; eauto; fail).
    left. f_equal. lia.
  - intros [-> | (s & s' & -> & ->)]; reflexivity.
Qed.
End F64Facts.

Section SortFacts.
Context {A : Type} (less : A -> A -> bool).
Hypothesis less_irrefl : forall a, less a a = false.
Hypothesis less_trans :
  forall a b c, less a b = true -> less b c = true -> less a c = true.
Hypothesis less_negtrans :
  forall a b c, less a b = false -> less b c = false -> less a c = false.

Local Abbreviation lt_ := (fun a b => less a b = true).
Local Abbreviation le_ := (fun a b => less b a = false).
Local Abbreviation isort := (insertion_sort less).
Local Abbreviation tie := (tied less).

Lemma less_asym a b : less a b = true -> less b a = false.
Proof.
  intros Hab. destruct (less b a) eqn:Hba; [|reflexivity].
  rewrite <- (less_irrefl a). symmetry. eauto.
Qed.

Lemma lt_le_trans a b c : less a b = true -> less c b = false -> less a c = true.
Proof.
  intros Hab Hcb. destruct (less a c) eqn:Hac; [reflexivity|].
  rewrite <- Hab. symmetry. eauto.
Qed.

Lemma le_lt_trans a b c : less b a = false -> less b c = true -> less a c = true.
Proof.
  intros Hba Hbc. destruct (less a c) eqn:Hac; [reflexivity|].
  rewrite <- Hbc. symmetry. eauto.
Qed.

Lemma tied_refl a : tie a a = true.
Proof. unfold tied. rewrite less_irrefl. reflexivity. Qed.

Lemma tied_sym a b : tie a b = tie b a.
Proof. unfold tied. apply andb_comm. Qed.

Lemma tied_true a b : tie a b = true <-> less a b = false /\ less b a = false.
Proof. unfold tied. rewrite andb_true_iff, !negb_true_iff. reflexivity. Qed.

Lemma less_not_tied a b : less a b = true -> tie a b = false.
Proof. intros Hab. unfold tied. rewrite Hab. reflexivity. Qed.

(** Tied elements compare alike with everything. *)
Lemma tied_less_l a b c : tie a b = true -> less a c = less b c.
Proof.
  rewrite tied_true. intros [Hab Hba].
  destruct (less a c) eqn:Hac, (less b c) eqn:Hbc; try reflexivity.
  - rewrite <- Hac. eauto.
  - rewrite <- Hbc. symmetry. eauto.
Qed.

Lemma tied_less_r a b c : tie a b = true -> less c a = less c b.
Proof.
  rewrite tied_true. intros [Hab Hba].
  destruct (less c a) eqn:Hca, (less c b) eqn:Hcb; try reflexivity.
  - rewrite <- Hca. eauto.
  - rewrite <- Hcb. symmetry. eauto.
Qed.

Lemma tied_ext a b c : tie a b = true -> tie a c = tie b c.
Proof.
  intros E. unfold tied.
  rewrite (tied_less_l a b c E), (tied_less_r a b c E). reflexivity.
Qed.

Lemma tied_trans a b c : tie a b = true -> tie b c = true -> tie a c = true.
Proof. intros E1 E2. rewrite (tied_ext a b c E1). exact E2. Qed.

Lemma filter_none (f : A -> bool) l :
  Forall (fun z => f z = false) l -> List.filter f l = [].
Proof.
  induction 1 as [|z l Hz _ IH]; [reflexivity|]. cbn. rewrite Hz. exact IH.
Qed.

(** ** Insertion *)

Lemma insort_Permutation x l : Permutation (insort less x l) (x :: l).
Proof.
  induction l as [|y l IH]; cbn; [reflexivity|].
  destruct (less x y); [reflexivity|].
  rewrite IH. apply perm_swap.
Qed.

Lemma insort_sorted x l :
  StronglySorted le_ l -> StronglySorted le_ (insort less x l).
Proof.
  induction 1 as [|y l Hl IH Hy]; cbn.
  - repeat constructor.
  - destruct (less x y) eqn:Hxy.
    + constructor; [constructor; assumption|].
      constructor; [apply less_asym; assumption|].
      rewrite List.Forall_forall in *. intros z Hz.
      destruct (less z x) eqn:Hzx; [|reflexivity].
      rewrite <- (Hy z Hz). symmetry. eauto.
    + constructor; [assumption|].
      rewrite (insort_Permutation x l). constructor; assumption.
Qed.

Lemma fold_insort_Permutation l acc :
  Permutation (fold_left (fun acc x => insort less x acc) l acc) (acc ++ l).
Proof.
  revert acc. induction l as [|x l IH]; intros acc; cbn.
  - rewrite app_nil_r. reflexivity.
  - rewrite IH, insort_Permutation. apply Permutation_middle.
Qed.

Lemma fold_insort_sorted l acc :
  StronglySorted le_ acc ->
  StronglySorted le_ (fold_left (fun acc x => insort less x acc) l acc).
Proof.
  revert acc. induction l as [|x l IH]; intros acc Hacc; cbn; [assumption|].
  apply IH, insort_sorted, Hacc.
Qed.

Lemma isort_Permutation l : Permutation (isort l) l.
Proof. apply (fold_insort_Permutation l []). Qed.

Lemma isort_sorted l : StronglySorted le_ (isort l).
Proof. apply fold_insort_sorted. constructor. Qed.

(** Insertion sort is stable: within a class of tied elements, the
    order of the input is kept. *)
Lemma insort_stable c x l :
  StronglySorted le_ l ->
  List.filter (tie c) (insort less x l)
  = List.filter (tie c) l ++ List.filter (tie c) [x].
Proof.
  induction 1 as [|y l Hl IH Hy]; [reflexivity|].
  cbn [insort]. destruct (less x y) eqn:Hxy.
  - destruct (tie c x) eqn:Hcx.
    + assert (Hnone : List.filter (tie c) (y :: l) = []).
      { apply filter_none. rewrite List.Forall_forall. intros z Hz. cbn beta.
        rewrite (tied_ext c x z Hcx). apply less_not_tied.
        destruct Hz as [<- | Hz]; [assumption|].
        rewrite List.Forall_forall in Hy. apply (lt_le_trans x y z); auto. }
      cbn [List.filter]. rewrite Hcx. cbn [List.filter] in Hnone.
      rewrite Hnone. reflexivity.
    + cbn [List.filter]. rewrite Hcx, app_nil_r. reflexivity.
  - cbn [List.filter]. rewrite IH. cbn [List.filter].
    destruct (tie c y); reflexivity.
Qed.

Lemma fold_insort_stable c l acc :
  StronglySorted le_ acc ->
  List.filter (tie c) (fold_left (fun acc x => insort less x acc) l acc)
  = List.filter (tie c) (acc ++ l).
Proof.
  revert acc. induction l as [|x l IH]; intros acc Hacc; cbn [fold_left].
  - rewrite app_nil_r. reflexivity.
  - rewrite IH by (apply insort_sorted, Hacc).
    rewrite !List.filter_app, insort_stable by assumption.
    cbn [List.filter]. destruct (tie c x); rewrite <- ?app_assoc; reflexivity.
Qed.

Lemma isort_stable c l : List.filter (tie c) (isort l) = List.filter (tie c) l.
Proof. apply (fold_insort_stable c l []). constructor. Qed.

(** ** Distinct values of a sorted list *)

Variable ne : A -> A -> bool.
Hypothesis ne_spec : forall a b, ne a b = less a b || less b a.

Lemma ne_after prev x : less x prev = false -> ne x prev = less prev x.
Proof. intros Hx. rewrite ne_spec, Hx. reflexivity. Qed.

Lemma keep_changes_sorted prev aux :
  StronglySorted le_ (prev :: aux) ->
  StronglySorted lt_ (keep_changes ne prev aux)
  /\ Forall (lt_ prev) (keep_changes ne prev aux).
Proof.
  revert prev. induction aux as [|x rest IH]; intros prev Hs; cbn.
  - split; constructor.
  - inversion Hs as [|? ? Hs' Hprev]; subst.
    inversion Hprev as [|? ? Hx _]; subst.
    destruct (IH x Hs') as [IHs IHb].
    rewrite (ne_after prev x Hx). destruct (less prev x) eqn:Hpx.
    + split; constructor; auto.
      eapply List.Forall_impl; [|exact IHb]. cbn. intros r Hr. eauto.
    + split; [assumption|].
      eapply List.Forall_impl; [|exact IHb]. cbn. intros r Hr.
      apply (le_lt_trans prev x r); assumption.
Qed.

Lemma keep_changes_first prev aux z :
  StronglySorted le_ (prev :: aux) ->
  In z (keep_changes ne prev aux) ->
  head (List.filter (tie z) aux) = Some z.
Proof.
  revert prev. induction aux as [|x rest IH]; intros prev Hs Hz; cbn in Hz.
  - destruct Hz.
  - inversion Hs as [|? ? Hs' Hprev]; subst.
    inversion Hprev as [|? ? Hx _]; subst.
    assert (Hlater : In z (keep_changes ne x rest) ->
                     head (List.filter (tie z) (x :: rest)) = Some z).
    { intros Hin. cbn [List.filter].
      destruct (keep_changes_sorted x rest Hs') as [_ Hb].
      rewrite List.Forall_forall in Hb.
      rewrite tied_sym, (less_not_tied x z (Hb z Hin)). eauto. }
    destruct (ne x prev); [|auto].
    destruct Hz as [<- | Hz]; [|auto].
    cbn [List.filter]. rewrite tied_refl. reflexivity.
Qed.

Lemma keep_changes_cover prev aux y :
  StronglySorted le_ (prev :: aux) ->
  In y aux ->
  tie prev y = true
  \/ exists z, In z (keep_changes ne prev aux) /\ tie z y = true.
Proof.
  revert prev. induction aux as [|x rest IH]; intros prev Hs Hy; [destruct Hy|].
  inversion Hs as [|? ? Hs' Hprev]; subst.
  inversion Hprev as [|? ? Hx _]; subst.
  cbn [keep_changes]. rewrite (ne_after prev x Hx).
  assert (Hxy : tie x y = true
                \/ exists z, In z (keep_changes ne x rest) /\ tie z y = true).
  { destruct Hy as [<- | Hy]; [left; apply tied_refl | auto]. }
  destruct (less prev x) eqn:Hpx.
  - right. destruct Hxy as [Hxy | (z & Hz & Hzy)].
    + exists x. split; [left; reflexivity | assumption].
    + exists z. split; [right; assumption | assumption].
  - destruct Hxy as [Hxy | (z & Hz & Hzy)].
    + left. apply (tied_trans prev x y); [|assumption].
      apply tied_true. auto.
    + right. eauto.
Qed.

Lemma unique_mask_sorted aux :
  StronglySorted le_ aux -> StronglySorted lt_ (unique_mask ne aux).
Proof.
  destruct aux as [|x rest]; intros Hs; cbn; [constructor|].
  destruct (keep_changes_sorted x rest Hs). constructor; assumption.
Qed.

Lemma unique_mask_first aux z :
  StronglySorted le_ aux ->
  In z (unique_mask ne aux) ->
  head (List.filter (tie z) aux) = Some z.
Proof.
  destruct aux as [|x rest]; intros Hs Hz; cbn in Hz; [destruct Hz|].
  cbn [List.filter]. destruct Hz as [<- | Hz].
  - rewrite tied_refl. reflexivity.
  - destruct (keep_changes_sorted x rest Hs) as [_ Hb].
    rewrite List.Forall_forall in Hb.
    rewrite tied_sym, (less_not_tied x z (Hb z Hz)).
    apply (keep_changes_first x); assumption.
Qed.

Lemma unique_mask_cover aux y :
  StronglySorted le_ aux ->
  In y aux ->
  exists z, In z (unique_mask ne aux) /\ tie z y = true.
Proof.
  destruct aux as [|x rest]; intros Hs Hy; [destruct Hy|].
  cbn [unique_mask].
  assert (Hxy : tie x y = true
                \/ exists z, In z (keep_changes ne x rest) /\ tie z y = true).
  { destruct Hy as [<- | Hy]; [left; apply tied_refl|].
    apply keep_changes_cover; assumption. }
  destruct Hxy as [Hxy | (z & Hz & Hzy)].
  - exists x. split; [left; reflexivity | assumption].
  - exists z. split; [right; assumption | assumption].
Qed.

(** ** [np.unique]: sort, then keep the changes *)

Local Abbreviation distinct := (fun l => unique_mask ne (isort l)).

Lemma head_filter_In (f : A -> bool) l z :
  head (List.filter f l) = Some z -> In z l /\ f z = true.
Proof.
  intros Hh. apply filter_In.
  destruct (List.filter f l) as [|z' ?]; [discriminate|].
  injection Hh as ->. left. reflexivity.
Qed.

Lemma distinct_sorted l : StronglySorted lt_ (distinct l).
Proof. apply unique_mask_sorted, isort_sorted. Qed.

(** Every distinct value is the first of its class in the input. *)
Lemma distinct_first l z :
  In z (distinct l) -> head (List.filter (tie z) l) = Some z.
Proof.
  intros Hz. rewrite <- (isort_stable z l).
  apply unique_mask_first; [apply isort_sorted | assumption].
Qed.

Lemma distinct_In l z : In z (distinct l) -> In z l.
Proof. intros Hz. apply distinct_first, head_filter_In in Hz. tauto. Qed.

Lemma distinct_cover l y :
  In y l -> exists z, In z (distinct l) /\ tie z y = true.
Proof.
  intros Hy. apply unique_mask_cover; [apply isort_sorted|].
  eapply Permutation_in; [symmetry; apply isort_Permutation | assumption].
Qed.

(** A strictly ascending list is determined, up to ties, by the classes
    it meets. *)
Lemma sorted_unique L1 L2 :
  StronglySorted lt_ L1 -> StronglySorted lt_ L2 ->
  (forall a, In a L1 -> exists b, In b L2 /\ tie a b = true) ->
  (forall b, In b L2 -> exists a, In a L1 /\ tie b a = true) ->
  Forall2 (fun a b => tie a b = true) L1 L2.
Proof.
  intros H1. revert L2.
  induction H1 as [|a L1 Hs1 IH Ha]; intros L2 H2 H12 H21.
  - destruct L2 as [|b L2]; [constructor|].
    destruct (H21 b) as (a & [] & _). left. reflexivity.
  - destruct H2 as [|b L2 Hs2 Hb].
    { destruct (H12 a) as (b & [] & _). left. reflexivity. }
    rewrite List.Forall_forall in Ha, Hb.
    assert (Hab : tie a b = true).
    { destruct (H12 a (or_introl eq_refl)) as (b' & [<- | Hb'] & Hab'); [assumption|].
      destruct (H21 b (or_introl eq_refl)) as (a' & [<- | Ha'] & Hba').
      - rewrite tied_sym. assumption.
      - (* a < a' ~ b < b' ~ a *)
        exfalso. pose proof (Ha a' Ha') as Haa'. pose proof (Hb b' Hb') as Hbb'.
        rewrite (tied_less_l a b' a' Hab') in Haa'.
        rewrite <- (tied_less_r b a' b' Hba') in Haa'.
        rewrite (less_asym b b' Hbb') in Haa'. discriminate. }
    constructor; [assumption|]. apply IH; [assumption|..].
    + intros a' Ha'. destruct (H12 a' (or_intror Ha')) as (b' & [<- | Hb'] & Hab').
      * exfalso. pose proof (Ha a' Ha') as Haa'.
        rewrite (tied_less_l a b a' Hab) in Haa'.
        apply tied_true in Hab'. destruct Hab' as [_ Hba']. congruence.
      * eauto.
    + intros b' Hb'. destruct (H21 b' (or_intror Hb')) as (a' & [<- | Ha'] & Hba').
      * exfalso. pose proof (Hb b' Hb') as Hbb'.
        rewrite <- (tied_less_l a b b' Hab) in Hbb'.
        apply tied_true in Hba'. destruct Hba' as [_ Hab']. congruence.
      * eauto.
Qed.

Lemma distinct_Permutation l l' :
  Permutation l l' ->
  Forall2 (fun a b => tie a b = true) (distinct l) (distinct l').
Proof.
  intros Hp. apply sorted_unique; try apply distinct_sorted.
  - intros a Ha. apply distinct_In in Ha.
    destruct (distinct_cover l' a) as (b & Hb & Hba).
    { eapply Permutation_in; eassumption. }
    exists b. split; [assumption|]. rewrite tied_sym. assumption.
  - intros b Hb. apply distinct_In in Hb.
    destruct (distinct_cover l b) as (a & Ha & Hab).
    { eapply Permutation_in; [symmetry|]; eassumption. }
    exists a. split; [assumption|]. rewrite tied_sym. assumption.
Qed.

Lemma filter_tied_ext a b l :
  tie a b = true -> List.filter (tie a) l = List.filter (tie b) l.
Proof.
  intros E. apply filter_ext. intros c. apply tied_ext. assumption.
Qed.

Lemma Forall2_eq_In (R : A -> A -> Prop) L1 L2 :
  Forall2 R L1 L2 ->
  (forall a b, In a L1 -> In b L2 -> R a b -> a = b) ->
  L1 = L2.
Proof.
  induction 1 as [|a b L1 L2 Hab _ IH]; intros Heq; [reflexivity|].
  f_equal.
  - apply Heq; [left; reflexivity | left; reflexivity | assumption].
  - apply IH. intros a' b' Ha' Hb'. apply Heq; right; assumption.
Qed.

(** Two inputs in which every class has the same first element have
    the same distinct values. *)
Lemma distinct_same_first l l' :
  (forall c, head (List.filter (tie c) l) = head (List.filter (tie c) l')) ->
  distinct l = distinct l'.
Proof.
  intros Hfirst.
  assert (Hcov : forall l1 l2,
             (forall c, head (List.filter (tie c) l1) = head (List.filter (tie c) l2)) ->
             forall a, In a (distinct l1) ->
                       exists b, In b (distinct l2) /\ tie a b = true).
  { intros l1 l2 H12 a Ha. apply distinct_first in Ha.
    rewrite H12 in Ha. apply head_filter_In in Ha as [Ha _].
    destruct (distinct_cover l2 a Ha) as (b & Hb & Hba).
    exists b. split; [assumption|]. rewrite tied_sym. assumption. }
  apply (Forall2_eq_In (fun a b => tie a b = true)).
  - apply sorted_unique; try apply distinct_sorted.
    + apply Hcov. assumption.
    + apply Hcov. intros c. symmetry. apply Hfirst.
  - intros a b Ha Hb Hab.
    apply distinct_first in Ha, Hb.
    rewrite (filter_tied_ext a b l Hab), Hfirst, Hb in Ha.
    injection Ha as ->. reflexivity.
Qed.

(** Sorting again, by an order that [less] contains, changes nothing. *)
Lemma fold_insort_id (less' : A -> A -> bool) l acc :
  (forall a b, less' a b = true -> less a b = true) ->
  StronglySorted lt_ (acc ++ l) ->
  fold_left (fun acc x => insort less' x acc) l acc = acc ++ l.
Proof.
  intros Hsub. revert acc. induction l as [|x l IH]; intros acc Hs; cbn.
  - rewrite app_nil_r. reflexivity.
  - assert (Hins : insort less' x acc = acc ++ [x]).
    { assert (Hacc : Forall (fun y => less y x = true) acc).
      { clear IH. induction acc as [|y acc IHacc]; [constructor|].
        cbn in Hs. inversion Hs as [|? ? Hs' Hy]; subst.
        constructor; [|auto].
        rewrite List.Forall_forall in Hy. apply Hy.
        apply in_or_app. right. left. reflexivity. }
      clear Hs. induction Hacc as [|y acc Hy _ IHacc]; [reflexivity|].
      cbn. destruct (less' x y) eqn:Hxy.
      - apply Hsub in Hxy. rewrite (less_asym y x Hy) in Hxy. discriminate.
      - rewrite IHacc. reflexivity. }
    rewrite Hins, IH; rewrite <- app_assoc; [reflexivity | assumption].
Qed.

Lemma resort_id (less' : A -> A -> bool) l :
  (forall a b, less' a b = true -> less a b = true) ->
  StronglySorted lt_ l ->
  insertion_sort less' l = l.
Proof. intros Hsub Hs. apply (fold_insort_id less' l [] Hsub Hs). Qed.
End SortFacts.

(** ** The two column types *)

Module IntOrder.
Lemma irrefl (a : Z) : (a <? a) = false.
Proof. apply Z.ltb_irrefl. Qed.

Lemma trans (a b c : Z) : (a <? b) = true -> (b <? c) = true -> (a <? c) = true.
Proof. rewrite !Z.ltb_lt. lia. Qed.

Lemma negtrans (a b c : Z) :
  (a <? b) = false -> (b <? c) = false -> (a <? c) = false.
Proof. rewrite !Z.ltb_ge. lia. Qed.

Lemma ne_spec (a b : Z) : negb (a =? b) = (a <? b) || (b <? a).
Proof.
  destruct (Z.eqb_spec a b), (Z.ltb_spec a b), (Z.ltb_spec b a);
    try reflexivity; lia.
Qed.

Lemma tied_eq (a b : Z) : tied Z.ltb a b = true <-> a = b.
Proof.
  unfold tied. rewrite andb_true_iff, !negb_true_iff, !Z.ltb_ge. lia.
Qed.
End IntOrder.

Module FloatOrder.
Import F64 F64Facts.

Local Abbreviation ne2 := apart.

Lemma np_less_nan_r (a : float) : np_less a S754_nan = negb (isnan a).
Proof. rewrite np_less_unfold. destruct a as [[]|[]| |[] m e]; reflexivity. Qed.

Lemma np_less_nan_l (b : float) : np_less S754_nan b = false.
Proof. rewrite np_less_unfold. destruct b as [[]|[]| |[] m e]; reflexivity. Qed.

Lemma isnan_eq (a : float) : isnan a = true <-> a = S754_nan.
Proof. destruct a; cbn; split; congruence. Qed.

Lemma tied_same (a b : float) :
  tied np_less a b = true <->
  a = b \/ (exists s s', a = S754_zero s /\ b = S754_zero s').
Proof.
  rewrite <- key_inj, <- equiv_key. unfold tied, equiv.
  rewrite andb_true_iff, !negb_true_iff. reflexivity.
Qed.

Section Generic.
Context {A : Type} (less : A -> A -> bool).

Lemma sorted_last_max (aux : list A) (x : A) :
  less x x = false ->
  StronglySorted (fun a b => less b a = false) aux ->
  last aux = Some x ->
  Forall (fun y => less x y = false) aux.
Proof.
  intros Hxx. induction 1 as [|y aux Hs IH Hy]; intros Hl; [constructor|].
  destruct aux as [|z aux'].
  - cbn in Hl. injection Hl as ->. repeat constructor. assumption.
  - specialize (IH Hl). constructor; [|assumption].
    rewrite List.Forall_forall in Hy. apply Hy.
    clear -Hl. revert z Hl. induction aux' as [|w aux' IHa]; intros z Hl.
    + cbn in Hl. injection Hl as ->. left. reflexivity.
    + right. apply (IHa w). exact Hl.
Qed.

Lemma searchsorted_split (aux : list A) (v : A) :
  let k := searchsorted_left less aux v in
  Forall (fun y => less y v = true) (firstn k aux)
  /\ match skipn k aux with
     | [] => True
     | h :: _ => less h v = false
     end.
Proof.
  induction aux as [|x aux IH]; cbn; [split; [constructor | exact I]|].
  destruct (less x v) eqn:Hx; cbn.
  - destruct IH as [IH1 IH2]. split; [constructor; assumption | assumption].
  - split; [constructor | assumption].
Qed.

Lemma keep_changes_ext (ne ne' : A -> A -> bool) (good : A -> Prop) prev aux :
  (forall a b, good a -> good b -> ne a b = ne' a b) ->
  good prev -> Forall good aux ->
  keep_changes ne prev aux = keep_changes ne' prev aux.
Proof.
  intros Hext Hp Ha. revert prev Hp.
  induction Ha as [|x aux Hx _ IH]; intros prev Hp; [reflexivity|].
  cbn. rewrite (Hext x prev Hx Hp), (IH x Hx). reflexivity.
Qed.

Lemma unique_mask_ext (ne ne' : A -> A -> bool) (good : A -> Prop) aux :
  (forall a b, good a -> good b -> ne a b = ne' a b) ->
  Forall good aux ->
  unique_mask ne aux = unique_mask ne' aux.
Proof.
  intros Hext Ha. destruct Ha as [|x aux Hx Ha]; [reflexivity|].
  cbn. f_equal. apply (keep_changes_ext ne ne' good); assumption.
Qed.

Lemma last_cons_default (l : list A) (x d : A) :
  List.last (x :: l) d = List.last l x.
Proof.
  revert x d. induction l as [|y l IH]; intros x d; [reflexivity|].
  change (List.last (x :: y :: l) d) with (List.last (y :: l) d).
  rewrite (IH y d), (IH y x). reflexivity.
Qed.

Lemma keep_changes_app (ne : A -> A -> bool) prev l1 l2 :
  keep_changes ne prev (l1 ++ l2)
  = keep_changes ne prev l1 ++ keep_changes ne (List.last l1 prev) l2.
Proof.
  revert prev. induction l1 as [|x l1 IH]; intros prev; [reflexivity|].
  cbn [app keep_changes]. rewrite IH.
  rewrite last_cons_default. destruct (ne x prev); reflexivity.
Qed.
End Generic.

Lemma keep_changes_nans (post : list float) :
  Forall (fun y => y = S754_nan) post ->
  keep_changes ne2 S754_nan post = [].
Proof.
  induction 1 as [|y post -> _ IH]; [reflexivity|]. cbn. exact IH.
Qed.

Lemma ne2_nan_l (p : float) : ne2 S754_nan p = negb (isnan p).
Proof. unfold apart. rewrite np_less_nan_l, np_less_nan_r. reflexivity. Qed.

Lemma ne2_neb (a b : float) :
  isnan a = false -> isnan b = false -> neb a b = ne2 a b.
Proof. apply neb_np_less. Qed.

Lemma sorted_skipn {A} (R : A -> A -> Prop) k (l : list A) :
  StronglySorted R l -> StronglySorted R (skipn k l).
Proof.
  intros Hs. revert k. induction Hs as [|x l Hs IH Hx]; intros [|k]; cbn;
    try constructor; auto.
Qed.

(** On a sorted array, collapsing the NaNs by hand is the same as
    keeping the changes under "less one way or the other". *)
Lemma np_unique_float_mask (ar : list float) :
  np_unique_float ar = unique_mask ne2 (insertion_sort np_less ar).
Proof.
  unfold np_unique_float.
  pose proof (isort_sorted np_less np_less_irrefl np_less_trans ar) as Hs.
  set (aux := insertion_sort np_less ar) in *. clearbody aux.
  destruct (last aux) as [x|] eqn:Hlast.
  2:{ apply last_None in Hlast. subst aux. reflexivity. }
  pose proof (sorted_last_max np_less aux x (np_less_irrefl x) Hs Hlast) as Hmax.
  destruct (isnan x) eqn:Hx.
  - apply isnan_eq in Hx. subst x.
    destruct (searchsorted_split np_less aux S754_nan) as [Hpre Hpost].
    set (k := searchsorted_left np_less aux S754_nan) in *. clearbody k.
    pose proof (sorted_skipn _ k aux Hs) as Hs2.
    rewrite <- (firstn_skipn k aux) at 3.
    assert (Hgood : Forall (fun y => isnan y = false) (firstn k aux)).
    { eapply List.Forall_impl; [|exact Hpre]. cbn. intros y Hy.
      rewrite np_less_nan_r in Hy. destruct (isnan y); [discriminate | reflexivity]. }
    destruct (skipn k aux) as [|h post] eqn:Hsk.
    + (* the last element would be before the first NaN *)
      exfalso. rewrite <- (firstn_skipn k aux), Hsk, app_nil_r in Hlast.
      apply last_Some in Hlast as (l' & Hl').
      rewrite Hl' in Hgood. apply Forall_app in Hgood as [_ Hgood].
      inversion Hgood as [|? ? Hn _]. discriminate.
    + rewrite np_less_nan_r in Hpost.
      assert (Hh : h = S754_nan).
      { apply isnan_eq. destruct (isnan h); [reflexivity | discriminate]. }
      subst h.
      assert (Hnans : Forall (fun y => y = S754_nan) post).
      { inversion Hs2 as [|? ? _ Hall]; subst.
        eapply List.Forall_impl; [|exact Hall]. cbn. intros y Hy.
        rewrite np_less_nan_r in Hy. apply isnan_eq.
        destruct (isnan y); [reflexivity | discriminate]. }
      cbn [firstn].
      rewrite (unique_mask_ext neb ne2 (fun y => isnan y = false) _ ne2_neb Hgood).
      destruct (firstn k aux) as [|p0 pre] eqn:Hfk.
      * cbn. rewrite keep_changes_nans by assumption. reflexivity.
      * cbn [unique_mask app]. rewrite keep_changes_app. cbn [keep_changes].
        assert (Hlastgood : isnan (List.last pre p0) = false).
        { clear -Hgood. revert p0 Hgood.
          induction pre as [|y pre IH]; intros p0 Hg.
          - inversion Hg; assumption.
          - inversion Hg as [|? ? _ Hg']; subst.
            rewrite last_cons_default. apply IH. assumption. }
        rewrite ne2_nan_l, Hlastgood. cbn [negb].
        rewrite keep_changes_nans by assumption. reflexivity.
  - apply (unique_mask_ext neb ne2 (fun y => isnan y = false) _ ne2_neb).
    eapply List.Forall_impl; [|exact Hmax]. cbn. intros y Hy.
    destruct (isnan y) eqn:Hn; [|reflexivity].
    apply isnan_eq in Hn. subst y. rewrite np_less_nan_r, Hx in Hy. discriminate.
Qed.
End FloatOrder.

(* ===================================================================== *)
(** * Facts: the indexer                                                   *)
(* ===================================================================== *)

Module IndexerFacts.
Import F64 F64Facts FloatOrder.

Lemma ltb_np_less (a b : float) : ltb a b = true -> np_less a b = true.
Proof. intros Hab. rewrite np_less_unfold, Hab. reflexivity. Qed.

Lemma np_less_before (a b : float) : np_less a b = true <-> before a b.
Proof.
  rewrite np_less_unfold. unfold before.
  rewrite orb_true_iff, andb_true_iff, negb_true_iff. tauto.
Qed.

Lemma apart_spec (a b : float) : apart a b = np_less a b || np_less b a.
Proof. reflexivity. Qed.

(** The thresholds are the distinct values of the column: the second
    sort finds them in order already. *)
Lemma thresholds_distinct (dataframe : DataFrame) :
  thresholds dataframe
  = unique_mask apart (insertion_sort np_less (map threshold dataframe)).
Proof.
  unfold thresholds, sorted_float. rewrite np_unique_float_mask.
  apply (resort_id np_less np_less_irrefl np_less_trans).
  - exact ltb_np_less.
  - apply (distinct_sorted np_less np_less_irrefl np_less_trans np_less_negtrans
             apart apart_spec).
Qed.

Lemma window_sizes_distinct (dataframe : DataFrame) :
  window_sizes dataframe
  = unique_mask (fun a b => negb (a =? b))
      (insertion_sort Z.ltb (map window_size dataframe)).
Proof.
  unfold window_sizes, sorted_int, np_unique_int.
  apply (resort_id Z.ltb IntOrder.irrefl IntOrder.trans).
  - auto.
  - apply (distinct_sorted Z.ltb IntOrder.irrefl IntOrder.trans IntOrder.negtrans
             _ IntOrder.ne_spec).
Qed.

Lemma StronglySorted_imp {A} (R R' : A -> A -> Prop) l :
  (forall a b, R a b -> R' a b) -> StronglySorted R l -> StronglySorted R' l.
Proof.
  intros Himp. induction 1 as [|x l _ IH Hx]; constructor; [assumption|].
  eapply List.Forall_impl; [|exact Hx]. intros b. apply Himp.
Qed.

Lemma Forall2_imp {A B} (R R' : A -> B -> Prop) l l' :
  (forall a b, R a b -> R' a b) -> Forall2 R l l' -> Forall2 R' l l'.
Proof. intros Himp. induction 1; constructor; auto. Qed.

Lemma thresholds_sorted (dataframe : DataFrame) :
  StronglySorted before (thresholds dataframe).
Proof.
  rewrite thresholds_distinct.
  apply (StronglySorted_imp (fun a b => np_less a b = true)).
  - intros a b. apply np_less_before.
  - apply (distinct_sorted np_less np_less_irrefl np_less_trans np_less_negtrans
             apart apart_spec).
Qed.

Lemma window_sizes_sorted (dataframe : DataFrame) :
  StronglySorted Z.lt (window_sizes dataframe).
Proof.
  rewrite window_sizes_distinct.
  apply (StronglySorted_imp (fun a b => (a <? b) = true)).
  - intros a b. apply Z.ltb_lt.
  - apply (distinct_sorted Z.ltb IntOrder.irrefl IntOrder.trans IntOrder.negtrans
             _ IntOrder.ne_spec).
Qed.

(** Each threshold is the first value of the column, in file order,
    that is the same number. *)
Lemma thresholds_first (dataframe : DataFrame) (t : float) :
  In t (thresholds dataframe) ->
  head (List.filter (tied np_less t) (map threshold dataframe)) = Some t.
Proof.
  rewrite thresholds_distinct.
  apply (distinct_first np_less np_less_irrefl np_less_trans np_less_negtrans
           apart apart_spec).
Qed.

Lemma thresholds_In (dataframe : DataFrame) (t : float) :
  In t (thresholds dataframe) -> In t (map threshold dataframe).
Proof.
  rewrite thresholds_distinct.
  apply (distinct_In np_less np_less_irrefl np_less_trans np_less_negtrans
           apart apart_spec).
Qed.

Lemma thresholds_cover (dataframe : DataFrame) (r : row) :
  In r dataframe ->
  exists t, In t (thresholds dataframe) /\ same_number t (threshold r).
Proof.
  intros Hr. rewrite thresholds_distinct.
  destruct (distinct_cover np_less np_less_irrefl np_less_trans np_less_negtrans
              apart apart_spec (map threshold dataframe) (threshold r))
    as (t & Ht & Htie).
  { apply in_map. assumption. }
  exists t. split; [assumption | apply tied_same; assumption].
Qed.

Lemma window_sizes_In (dataframe : DataFrame) (w : Z) :
  In w (window_sizes dataframe) <-> In w (map window_size dataframe).
Proof.
  rewrite window_sizes_distinct. split.
  - apply (distinct_In Z.ltb IntOrder.irrefl IntOrder.trans IntOrder.negtrans
             _ IntOrder.ne_spec).
  - intros Hw.
    destruct (distinct_cover Z.ltb IntOrder.irrefl IntOrder.trans IntOrder.negtrans
                _ IntOrder.ne_spec _ w Hw) as (z & Hz & Htie).
    apply IntOrder.tied_eq in Htie. subst z. assumption.
Qed.

Lemma thresholds_Permutation (df df' : DataFrame) :
  Permutation df df' ->
  Forall2 same_number (thresholds df) (thresholds df').
Proof.
  intros Hp. rewrite !thresholds_distinct.
  apply (Forall2_imp (fun a b => tied np_less a b = true)).
  - intros a b. apply tied_same.
  - apply (distinct_Permutation np_less np_less_irrefl np_less_trans
             np_less_negtrans apart apart_spec).
    apply Permutation_map. assumption.
Qed.

Lemma window_sizes_Permutation (df df' : DataFrame) :
  Permutation df df' -> window_sizes df = window_sizes df'.
Proof.
  intros Hp. rewrite !window_sizes_distinct.
  apply (Forall2_eq_In (fun a b => tied Z.ltb a b = true)).
  - apply (distinct_Permutation Z.ltb IntOrder.irrefl IntOrder.trans
             IntOrder.negtrans _ IntOrder.ne_spec).
    apply Permutation_map. assumption.
  - intros a b _ _. apply IntOrder.tied_eq.
Qed.

(** In a strictly ascending list, no number is at two positions. *)
Lemma before_irrefl (a b : float) : before a b -> ~ same_number a b.
Proof.
  intros Hab Htie. apply np_less_before in Hab.
  apply (proj2 (tied_same a b)) in Htie.
  rewrite (less_not_tied np_less a b Hab) in Htie. discriminate.
Qed.

Lemma sorted_nth_lt {A} (R : A -> A -> Prop) (l : list A) (i j : nat) (a b : A) :
  StronglySorted R l -> (i < j)%nat ->
  nth_error l i = Some a -> nth_error l j = Some b -> R a b.
Proof.
  intros Hs. revert i j. induction Hs as [|x l _ IH Hx]; intros i j Hij Ha Hb.
  - destruct i; discriminate.
  - destruct j as [|j]; [lia|]. cbn in Hb. destruct i as [|i].
    + injection Ha as <-. rewrite List.Forall_forall in Hx.
      apply Hx. eapply nth_error_In. eassumption.
    + cbn in Ha. apply (IH i j); [lia | assumption | assumption].
Qed.

Lemma thresholds_no_duplicate (dataframe : DataFrame) (i j : nat) (a b : float) :
  nth_error (thresholds dataframe) i = Some a ->
  nth_error (thresholds dataframe) j = Some b ->
  same_number a b -> i = j.
Proof.
  intros Ha Hb Hab. pose proof (thresholds_sorted dataframe) as Hs.
  destruct (Nat.lt_trichotomy i j) as [Hij | [Hij | Hij]]; [|assumption|].
  - exfalso. apply (before_irrefl a b); [|assumption].
    apply (sorted_nth_lt before (thresholds dataframe) i j); assumption.
  - exfalso. apply (before_irrefl b a).
    + apply (sorted_nth_lt before (thresholds dataframe) j i); assumption.
    + destruct Hab as [-> | (s & s' & -> & ->)]; [left; reflexivity|].
      right. eauto.
Qed.


End IndexerFacts.

(* ===================================================================== *)
(** * Facts: the loader's rounding step                                    *)
(* ===================================================================== *)

Module LoaderFacts.

(** C10. Rounding the threshold column keeps the rows, in order, and in
    each row changes nothing but the threshold. *)
Theorem round_threshold_frame (dataframe : DataFrame) :
  length (round_threshold dataframe) = length dataframe
  /\ Forall2 (fun before after =>
                det_ratio after = det_ratio before
                /\ fp_rate after = fp_rate before
                /\ ifp_rate after = ifp_rate before
                /\ window_size after = window_size before
                /\ threshold after = around1 (threshold before))
       dataframe (round_threshold dataframe).
Proof.
  split.
  - unfold round_threshold. apply length_map.
  - induction dataframe as [|r df IH]; cbn; constructor; auto.
Qed.

Lemma round_threshold_columns (dataframe : DataFrame) :
  map det_ratio (round_threshold dataframe) = map det_ratio dataframe
  /\ map fp_rate (round_threshold dataframe) = map fp_rate dataframe
  /\ map ifp_rate (round_threshold dataframe) = map ifp_rate dataframe
  /\ map window_size (round_threshold dataframe) = map window_size dataframe.
Proof.
  unfold round_threshold. rewrite !map_map. cbn. repeat split; reflexivity.
Qed.
End LoaderFacts.

(* ===================================================================== *)
(** * Facts: rounding to one decimal (line 49)                             *)
(* ===================================================================== *)

Module RoundFacts.
Import Rounding.

(** ** Digits *)

Lemma digits2_size (m : positive) : digits2_pos m = Pos.size m.
Proof. induction m; cbn; congruence. Qed.

Lemma digits_bounds (m : positive) :
  2 ^ (Zpos (digits2_pos m) - 1) <= Zpos m < 2 ^ Zpos (digits2_pos m).
Proof.
  rewrite digits2_size. split.
  - pose proof (Pos.size_le m) as Hle.
    assert (H2 : 2 ^ Zpos (Pos.size m) <= 2 * Zpos m).
    { change 2 with (Zpos 2) at 1. rewrite <- Pos2Z.inj_pow.
      change (2 * Zpos m) with (Zpos (m~0)). exact Hle. }
    replace (Zpos (Pos.size m)) with (Zpos (Pos.size m) - 1 + 1) in H2 by lia.
    rewrite Z.pow_add_r in H2 by lia. change (2 ^ 1) with 2 in H2. lia.
  - pose proof (Pos.size_gt m) as Hgt.
    change 2 with (Zpos 2). rewrite <- Pos2Z.inj_pow. exact Hgt.
Qed.

Lemma digits_unique (m : positive) (d : Z) :
  2 ^ (d - 1) <= Zpos m < 2 ^ d -> Zpos (digits2_pos m) = d.
Proof.
  intros [Hlo Hhi]. pose proof (digits_bounds m) as [Hlo' Hhi'].
  assert (0 < d).
  { destruct (Z.lt_ge_cases 0 d) as [|Hd]; [assumption|].
    exfalso. assert (2 ^ d <= 1).
    { destruct (Z.eq_dec d 0) as [->|]; [cbn; lia|].
      rewrite Z.pow_neg_r by lia. lia. }
    lia. }
  set (d' := Zpos (digits2_pos m)) in *.
  destruct (Z.lt_trichotomy d' d) as [Hlt | [Heq | Hgt]]; [|assumption|]; exfalso.
  - assert (2 ^ d' <= 2 ^ (d - 1)) by (apply Z.pow_le_mono_r; lia). lia.
  - assert (2 ^ d <= 2 ^ (d' - 1)) by (apply Z.pow_le_mono_r; lia). lia.
Qed.

(** ** Shifting right *)

Lemma shr_1_spec (m : Z) (r s : bool) :
  0 <= m ->
  shr_1 {| shr_m := m; shr_r := r; shr_s := s |}
  = {| shr_m := m / 2; shr_r := Z.odd m; shr_s := r || s |}.
Proof.
  intros Hm. rewrite <- Z.div2_div.
  destruct m as [|p|p]; [reflexivity | | lia].
  destruct p; reflexivity.
Qed.

Lemma pow2_pos (n : Z) : 0 <= n -> 0 < 2 ^ n.
Proof. intros. apply Z.pow_pos_nonneg; lia. Qed.

Lemma mod_pow2_succ (a n : Z) :
  1 <= n ->
  a mod 2 ^ n = a mod 2 ^ (n - 1) + 2 ^ (n - 1) * (if Z.odd (a / 2 ^ (n - 1)) then 1 else 0).
Proof.
  intros Hn. replace n with ((n - 1) + 1) at 1 by lia.
  rewrite Z.pow_add_r by lia. change (2 ^ 1) with 2.
  pose proof (pow2_pos (n - 1) ltac:(lia)).
  rewrite Z.rem_mul_r by lia. rewrite Zmod_odd. reflexivity.
Qed.

Lemma rec_of_loc (m : Z) (l : location) :
  0 <= m -> shr_record_of_loc m l = rec_of (4 * m + code l) 2.
Proof.
  intros Hm. unfold rec_of. change (2 ^ 2) with 4. change (2 ^ (2 - 1)) with 2.
  assert (Hq : forall c, 0 <= c < 4 -> (4 * m + c) / 4 = m).
  { intros c Hc. symmetry. apply (Z.div_unique _ 4 m c); lia. }
  assert (Hh : forall c, 0 <= c < 4 -> (4 * m + c) / 2 = 2 * m + c / 2).
  { intros c Hc. replace (4 * m + c) with (c + (2 * m) * 2) by lia.
    rewrite Z.div_add by lia. lia. }
  assert (Hr : forall c, 0 <= c < 4 -> (4 * m + c) mod 2 = c mod 2).
  { intros c Hc. replace (4 * m + c) with (c + (2 * m) * 2) by lia.
    apply Z.mod_add. lia. }
  assert (Ho : forall c, Z.odd (2 * m + c) = Z.odd c).
  { intros c. rewrite Z.add_comm. apply Z.odd_add_mul_2. }
  destruct l as [|[]]; cbn [code shr_record_of_loc];
    rewrite Hq, Hh, Hr, Ho by lia; reflexivity.
Qed.

Lemma shr_1_rec_of (a n : Z) :
  0 <= a -> 1 <= n -> shr_1 (rec_of a n) = rec_of a (n + 1).
Proof.
  intros Ha Hn. unfold rec_of.
  pose proof (pow2_pos n ltac:(lia)). pose proof (pow2_pos (n - 1) ltac:(lia)).
  rewrite shr_1_spec by (apply Z.div_pos; lia).
  replace (n + 1 - 1) with n by lia. f_equal.
  - rewrite Z.div_div by lia. f_equal.
    rewrite Z.pow_add_r by lia. reflexivity.
  - rewrite (mod_pow2_succ a n Hn).
    pose proof (Z.mod_pos_bound a (2 ^ (n - 1)) ltac:(lia)).
    destruct (Z.odd (a / 2 ^ (n - 1))); cbn [orb].
    + symmetry. apply negb_true_iff, Z.eqb_neq. lia.
    + f_equal. f_equal. lia.
Qed.

Lemma iter_shr_rec_of (a : Z) (p : positive) :
  0 <= a ->
  forall n, 1 <= n -> SpecFloat.iter_pos shr_1 p (rec_of a n) = rec_of a (n + Zpos p).
Proof.
  intros Ha. induction p as [p IH | p IH |]; intros n Hn; cbn [SpecFloat.iter_pos].
  - rewrite shr_1_rec_of, IH, IH by lia. f_equal. lia.
  - rewrite IH, IH by lia. f_equal. lia.
  - apply shr_1_rec_of; assumption.
Qed.

Lemma shr_rec_of (a n e k : Z) :
  0 <= a -> 1 <= n ->
  shr (rec_of a n) e k = (rec_of a (n + Z.max 0 k), e + Z.max 0 k).
Proof.
  intros Ha Hn. destruct k as [|p|p]; cbn [shr].
  - rewrite !Z.add_0_r. reflexivity.
  - rewrite iter_shr_rec_of by assumption. rewrite Z.max_r by lia. reflexivity.
  - rewrite Z.max_l by lia. rewrite !Z.add_0_r. reflexivity.
Qed.

(** ** Rounding to nearest, ties to even *)

Lemma round_rec_of (a n : Z) :
  0 <= a -> 1 <= n ->
  round_nearest_even (shr_m (rec_of a n)) (loc_of_shr_record (rec_of a n))
  = rne a n.
Proof.
  intros Ha Hn. unfold rec_of, rne. cbn [shr_m loc_of_shr_record].
  pose proof (pow2_pos (n - 1) ltac:(lia)) as Hp.
  assert (Hpow : 2 ^ n = 2 * 2 ^ (n - 1)).
  { replace n with (1 + (n - 1)) at 1 by lia. rewrite Z.pow_add_r by lia. reflexivity. }
  rewrite (mod_pow2_succ a n Hn).
  pose proof (Z.mod_pos_bound a (2 ^ (n - 1)) ltac:(lia)) as Hrem.
  set (rem := a mod 2 ^ (n - 1)) in *. clearbody rem.
  destruct (Z.odd (a / 2 ^ (n - 1))); destruct (Z.eqb_spec rem 0) as [Hz|Hz];
    cbn [negb round_nearest_even].
  - destruct (Z.ltb_spec (2 * (rem + 2 ^ (n - 1) * 1)) (2 ^ n)); [lia|].
    destruct (Z.ltb_spec (2 ^ n) (2 * (rem + 2 ^ (n - 1) * 1))); [lia|]. reflexivity.
  - destruct (Z.ltb_spec (2 * (rem + 2 ^ (n - 1) * 1)) (2 ^ n)); [lia|].
    destruct (Z.ltb_spec (2 ^ n) (2 * (rem + 2 ^ (n - 1) * 1))); [|lia]. reflexivity.
  - destruct (Z.ltb_spec (2 * (rem + 2 ^ (n - 1) * 0)) (2 ^ n)); [|lia]. reflexivity.
  - destruct (Z.ltb_spec (2 * (rem + 2 ^ (n - 1) * 0)) (2 ^ n)); [|lia]. reflexivity.
Qed.

(** ** [binary_round_aux], unfolded *)

Lemma binary_round_aux_eq (sx : bool) (mx ex : Z) (lx : location) :
  0 <= mx ->
  binary_round_aux prec emax sx mx ex lx
  = let k := Z.max 0 (fexp prec emax (Zdigits2 mx + ex) - ex) in
    let m1 := rne (4 * mx + code lx) (k + 2) in
    let e1 := ex + k in
    let k2 := Z.max 0 (fexp prec emax (Zdigits2 m1 + e1) - e1) in
    match m1 / 2 ^ k2 with
    | Z0 => S754_zero sx
    | Zpos m => if e1 + k2 <=? emax - prec then S754_finite sx m (e1 + k2)
                else S754_infinity sx
    | Zneg _ => S754_nan
    end.
Proof.
  intros Hm. unfold binary_round_aux, shr_fexp.
  assert (Hc : 0 <= code lx) by (destruct lx as [|[]]; cbn; lia).
  rewrite rec_of_loc by assumption.
  rewrite shr_rec_of by lia.
  rewrite round_rec_of by lia.
  set (k := Z.max 0 (fexp prec emax (Zdigits2 mx + ex) - ex)).
  replace (2 + k) with (k + 2) by lia.
  set (m1 := rne (4 * mx + code lx) (k + 2)).
  assert (Hm1 : 0 <= m1).
  { unfold m1, rne.
    assert (0 <= (4 * mx + code lx) / 2 ^ (k + 2))
      by (apply Z.div_pos; [lia | apply pow2_pos; lia]).
    repeat match goal with |- context [if ?b then _ else _] => destruct b end; lia. }
  cbv zeta. rewrite rec_of_loc by assumption. cbn [code].
  rewrite shr_rec_of by lia. cbn [shr_m rec_of].
  set (k2 := Z.max 0 (fexp prec emax (Zdigits2 m1 + (ex + k)) - (ex + k))).
  replace (4 * m1 + 0) with (2 ^ 2 * m1) by (change (2 ^ 2) with 4; lia).
  rewrite Z.pow_add_r by lia.
  rewrite Z.div_mul_cancel_l; [reflexivity | | ]; apply Z.pow_nonzero; lia.
Qed.

(** ** The value of [rne] *)

(** The nearest integer is the one within half a unit; at exactly half
    a unit, it is the even one. *)
Lemma rne_unique (a n z : Z) :
  0 <= n ->
  2 * Z.abs (2 ^ n * z - a) < 2 ^ n
  \/ (2 * Z.abs (2 ^ n * z - a) = 2 ^ n /\ Z.even z = true) ->
  rne a n = z.
Proof.
  intros Hn Hz. unfold rne.
  pose proof (pow2_pos n Hn) as HP.
  pose proof (Z.div_mod a (2 ^ n) ltac:(lia)) as Hdm.
  pose proof (Z.mod_pos_bound a (2 ^ n) HP) as Hrem.
  set (P := 2 ^ n) in *. set (q := a / P) in *. set (rem := a mod P) in *.
  clearbody P q rem.
  assert (Hcase : z = q \/ z = q + 1) by nia.
  destruct (Z.ltb_spec (2 * rem) P) as [Hlt | Hge].
  - destruct Hcase as [-> | ->]; [reflexivity | nia].
  - destruct (Z.ltb_spec P (2 * rem)) as [Hgt | Hle].
    + destruct Hcase as [-> | ->]; [nia | reflexivity].
    + assert (Htie : 2 * rem = P) by lia.
      destruct Hz as [Hz | [_ Hev]]; [nia|].
      destruct Hcase as [-> | ->].
      * rewrite Hev. reflexivity.
      * rewrite Z.even_add in Hev. cbn in Hev.
        destruct (Z.even q); [discriminate | reflexivity].
Qed.

Lemma rne_bounds (a n : Z) :
  0 <= n -> a / 2 ^ n <= rne a n <= a / 2 ^ n + 1.
Proof.
  intros Hn. unfold rne.
  repeat match goal with |- context [if ?b then _ else _] => destruct b end; lia.
Qed.

(** Rounding a number that has bits to spare below. *)
Lemma rne_scale (a n j : Z) :
  0 <= n -> 0 <= j -> rne (2 ^ j * a) (n + j) = rne a n.
Proof.
  intros Hn Hj. unfold rne.
  pose proof (pow2_pos n Hn) as HP. pose proof (pow2_pos j Hj) as HJ.
  rewrite Z.pow_add_r by lia.
  rewrite (Z.mul_comm (2 ^ n) (2 ^ j)).
  rewrite Z.div_mul_cancel_l by lia.
  rewrite Z.mul_mod_distr_l by lia.
  set (q := a / 2 ^ n). set (rem := a mod 2 ^ n).
  destruct (Z.ltb_spec (2 * rem) (2 ^ n)), (Z.ltb_spec (2 * (2 ^ j * rem)) (2 ^ j * 2 ^ n));
    try nia; try reflexivity.
  destruct (Z.ltb_spec (2 ^ n) (2 * rem)), (Z.ltb_spec (2 ^ j * 2 ^ n) (2 * (2 ^ j * rem)));
    try nia; reflexivity.
Qed.

(** ** binary64 *)

Lemma fexp_eq (z : Z) : fexp prec emax z = Z.max (z - 53) (-1074).
Proof. reflexivity. Qed.

Lemma Zdigits2_unique (z d : Z) :
  2 ^ (d - 1) <= z < 2 ^ d -> 0 < d -> Zdigits2 z = d.
Proof.
  intros Hz Hd. pose proof (pow2_pos (d - 1) ltac:(lia)).
  destruct z as [|p|p]; try lia.
  cbn [Zdigits2]. apply digits_unique. assumption.
Qed.

Lemma Zdigits2_bounds (z : Z) :
  0 < z -> 2 ^ (Zdigits2 z - 1) <= z < 2 ^ Zdigits2 z /\ 0 < Zdigits2 z.
Proof.
  intros Hz. destruct z as [|p|p]; try lia.
  cbn [Zdigits2]. split; [apply digits_bounds | lia].
Qed.

(** A mantissa of 53 bits at an exponent in range is left as it is. *)
Lemma round_aux_canonical (s : bool) (M : positive) (E : Z) :
  2 ^ 52 <= Zpos M < 2 ^ 53 -> -1074 <= E <= 971 ->
  binary_round_aux prec emax s (Zpos M) E loc_Exact = S754_finite s M E.
Proof.
  intros HM HE. rewrite binary_round_aux_eq by lia.
  rewrite (Zdigits2_unique (Zpos M) 53) by (change (53 - 1) with 52; lia).
  rewrite fexp_eq. replace (Z.max 0 (Z.max (53 + E - 53) (-1074) - E)) with 0 by lia.
  cbn [code]. cbv zeta.
  assert (Hr : rne (4 * Zpos M + 0) (0 + 2) = Zpos M).
  { apply rne_unique; [lia|]. left. change (2 ^ (0 + 2)) with 4. lia. }
  rewrite Hr.
  rewrite (Zdigits2_unique (Zpos M) 53) by (change (53 - 1) with 52; lia).
  rewrite fexp_eq.
  replace (Z.max 0 (Z.max (53 + (E + 0) - 53) (-1074) - (E + 0))) with 0 by lia.
  change (2 ^ 0) with 1. rewrite Z.div_1_r, !Z.add_0_r.
  change (emax - prec) with 971.
  destruct (Z.leb_spec E 971); [reflexivity | lia].
Qed.

Lemma iter_xO (m : positive) (d : positive) :
  Zpos (Pos.iter xO m d) = Zpos m * 2 ^ Zpos d.
Proof.
  induction d as [|d IH] using Pos.peano_ind.
  - cbn. lia.
  - rewrite Pos.iter_succ, Pos2Z.inj_xO, IH, Pos2Z.inj_succ, Z.pow_succ_r by lia. lia.
Qed.

(** An integer of at most 53 bits, as a double. *)
Lemma normalize_int (s : bool) (q : Z) :
  0 < q < 2 ^ 53 ->
  exists M : positive,
    binary_normalize prec emax (cond_Zopp s q) 0 s
    = S754_finite s M (Zdigits2 q - 53)
    /\ Zpos M = q * 2 ^ (53 - Zdigits2 q)
    /\ 2 ^ 52 <= Zpos M < 2 ^ 53
    /\ 0 < Zdigits2 q <= 53.
Proof.
  intros Hq. destruct (Zdigits2_bounds q ltac:(lia)) as [Hd Hd0].
  assert (Hd53 : Zdigits2 q <= 53).
  { destruct (Z.le_gt_cases (Zdigits2 q) 53) as [|Hgt]; [assumption|].
    assert (2 ^ 53 <= 2 ^ (Zdigits2 q - 1)) by (apply Z.pow_le_mono_r; lia). lia. }
  destruct q as [|qp|qp]; try lia.
  set (d := Zdigits2 (Zpos qp)) in *.
  assert (Hm : 2 ^ 52 <= Zpos qp * 2 ^ (53 - d) < 2 ^ 53).
  { assert (H52 : 2 ^ 52 = 2 ^ (d - 1) * 2 ^ (53 - d))
      by (rewrite <- Z.pow_add_r by lia; f_equal; lia).
    assert (H53 : 2 ^ 53 = 2 ^ d * 2 ^ (53 - d))
      by (rewrite <- Z.pow_add_r by lia; f_equal; lia).
    rewrite H52, H53.
    pose proof (pow2_pos (53 - d) ltac:(lia)). nia. }
  exists (Z.to_pos (Zpos qp * 2 ^ (53 - d))).
  assert (HM : Zpos (Z.to_pos (Zpos qp * 2 ^ (53 - d))) = Zpos qp * 2 ^ (53 - d)).
  { apply Z2Pos.id. pose proof (pow2_pos 52 ltac:(lia)). lia. }
  split; [|rewrite HM; repeat split; lia].
  assert (Hround : binary_round prec emax s qp 0
                   = S754_finite s (Z.to_pos (Zpos qp * 2 ^ (53 - d))) (d - 53)).
  { unfold binary_round. change (Zpos (digits2_pos qp)) with d.
    rewrite Z.add_0_r, fexp_eq. replace (Z.max (d - 53) (-1074)) with (d - 53) by lia.
    unfold shl_align. rewrite Z.sub_0_r.
    destruct (d - 53) as [|p|p] eqn:Hs; try lia.
    - replace (53 - d) with 0 in * by lia. change (2 ^ 0) with 1 in *.
      rewrite Z.mul_1_r in *. cbn [Z.to_pos].
      apply round_aux_canonical; lia.
    - replace (53 - d) with (Zpos p) in * by lia.
      rewrite <- iter_xO in *. cbn [Z.to_pos].
      apply round_aux_canonical; lia. }
  destruct s; cbn [cond_Zopp Z.opp binary_normalize]; exact Hround.
Qed.

(** ** [rint] *)

Lemma rint_neg (s : bool) (m p : positive) :
  F64.rint (S754_finite s m (Zneg p))
  = binary_normalize prec emax (cond_Zopp s (rne (Zpos m) (Zpos p))) 0 s.
Proof.
  unfold F64.rint. rewrite rec_of_loc by lia. cbn [code].
  rewrite shr_rec_of by lia. change (- Zneg p) with (Zpos p).
  rewrite Z.max_r by lia. rewrite round_rec_of by lia.
  replace (4 * Zpos m + 0) with (2 ^ 2 * Zpos m) by (change (2 ^ 2) with 4; lia).
  replace (2 + Zpos p) with (Zpos p + 2) by lia.
  rewrite rne_scale by lia. reflexivity.
Qed.

(** [rint] of a product is an integer. *)
Lemma rint_integral (x : float) : rounded x -> integral (F64.rint x).
Proof.
  destruct x as [s0|s0| |s m e]; try exact (fun _ => I).
  cbn [rounded]. intros [Hm He].
  destruct e as [|p|p].
  - cbn [F64.rint integral]. specialize (He ltac:(lia)).
    repeat split; try lia.
  - cbn [F64.rint integral]. specialize (He ltac:(lia)).
    repeat split; try lia.
  - rewrite rint_neg. clear He.
    pose proof (rne_bounds (Zpos m) (Zpos p) ltac:(lia)) as Hq.
    pose proof (pow2_pos (Zpos p) ltac:(lia)) as Hp.
    assert (Hdiv : 0 <= Zpos m / 2 ^ Zpos p < 2 ^ 52).
    { split; [apply Z.div_pos; lia|].
      apply Z.div_lt_upper_bound; [lia|].
      assert (2 ^ 1 <= 2 ^ Zpos p) by (apply Z.pow_le_mono_r; lia).
      change (2 ^ 1) with 2 in *. change (2 ^ 53) with (2 * 2 ^ 52) in Hm. nia. }
    set (q := rne (Zpos m) (Zpos p)) in *. clearbody q.
    destruct (Z.eq_dec q 0) as [-> | Hq0].
    + destruct s; exact I.
    + destruct (normalize_int s q) as (M & -> & HM & HMb & Hd).
      { change (2 ^ 53) with (2 * 2 ^ 52). lia. }
      cbn [integral]. split; [assumption|]. split; [lia|].
      intros Hneg. rewrite HM.
      replace (- (Zdigits2 q - 53)) with (53 - Zdigits2 q) by lia.
      apply Z.mod_mul. apply Z.pow_nonzero; lia.
Qed.

(** [rint] leaves an integer as it is. *)
Lemma rint_int (s : bool) (M : positive) (E : Z) :
  integral (S754_finite s M E) -> F64.rint (S754_finite s M E) = S754_finite s M E.
Proof.
  cbn [integral]. intros (HM & HE & Hint).
  destruct E as [|p|p]; try reflexivity.
  rewrite rint_neg. specialize (Hint ltac:(lia)). change (- Zneg p) with (Zpos p) in Hint.
  pose proof (pow2_pos (Zpos p) ltac:(lia)) as Hp.
  pose proof (Z.div_mod (Zpos M) (2 ^ Zpos p) ltac:(lia)) as Hdm.
  rewrite Hint, Z.add_0_r in Hdm.
  set (q := Zpos M / 2 ^ Zpos p) in *.
  assert (Hr : rne (Zpos M) (Zpos p) = q).
  { apply rne_unique; [lia|]. left. rewrite <- Hdm. rewrite Z.sub_diag. cbn. lia. }
  rewrite Hr.
  assert (Hq : 2 ^ (52 - Zpos p) <= q < 2 ^ (53 - Zpos p)).
  { assert (H52 : 2 ^ 52 = 2 ^ Zpos p * 2 ^ (52 - Zpos p))
      by (rewrite <- Z.pow_add_r by lia; f_equal; lia).
    assert (H53 : 2 ^ 53 = 2 ^ Zpos p * 2 ^ (53 - Zpos p))
      by (rewrite <- Z.pow_add_r by lia; f_equal; lia).
    rewrite H52, H53, Hdm in HM. clearbody q. nia. }
  assert (Hd : Zdigits2 q = 53 - Zpos p).
  { apply Zdigits2_unique; [|lia].
    replace (53 - Zpos p - 1) with (52 - Zpos p) by lia. assumption. }
  pose proof (pow2_pos (52 - Zpos p) ltac:(lia)).
  assert (H53 : 2 ^ (53 - Zpos p) <= 2 ^ 53) by (apply Z.pow_le_mono_r; lia).
  destruct (normalize_int s q ltac:(lia)) as (M' & -> & HM' & _).
  rewrite Hd in *. replace (53 - (53 - Zpos p)) with (Zpos p) in HM' by lia.
  f_equal; [|lia].
  apply Pos2Z.inj. rewrite HM', Hdm. lia.
Qed.

(** ** Multiplication by ten *)

(** The mantissa of [10.0]. *)
Local Abbreviation T := 5629499534213120%positive.

Lemma lit_10_eq : lit_10 = S754_finite false T (-49).
Proof. reflexivity. Qed.

(** Rounding a mantissa of 53 bits or more gives a rounded double. *)
Lemma round_aux_rounded (s : bool) (mx ex : Z) :
  2 ^ 52 <= mx -> rounded (binary_round_aux prec emax s mx ex loc_Exact).
Proof.
  intros Hmx. pose proof (pow2_pos 52 ltac:(lia)) as H52.
  rewrite binary_round_aux_eq by lia.
  destruct (Zdigits2_bounds mx ltac:(lia)) as [Hd Hd0].
  set (d := Zdigits2 mx) in *.
  assert (Hd53 : 53 <= d).
  { destruct (Z.le_gt_cases 53 d) as [|Hlt]; [assumption|].
    assert (2 ^ d <= 2 ^ 52) by (apply Z.pow_le_mono_r; lia). lia. }
  rewrite fexp_eq. cbn [code].
  set (k := Z.max 0 (Z.max (d + ex - 53) (-1074) - ex)).
  assert (Hk : d - 53 <= k /\ 0 <= k) by lia.
  cbv zeta.
  replace (4 * mx + 0) with (2 ^ 2 * mx) by (change (2 ^ 2) with 4; lia).
  rewrite rne_scale by lia.
  pose proof (rne_bounds mx k ltac:(lia)) as Hm1.
  pose proof (pow2_pos k ltac:(lia)) as Hpk.
  assert (Hdiv : 0 <= mx / 2 ^ k < 2 ^ 53).
  { split; [apply Z.div_pos; lia|].
    apply Z.div_lt_upper_bound; [lia|].
    assert (2 ^ d <= 2 ^ (k + 53)) by (apply Z.pow_le_mono_r; lia).
    rewrite Z.pow_add_r in * by lia. lia. }
  assert (Hnormal : 0 <= ex + k -> 2 ^ 52 <= mx / 2 ^ k).
  { intros He. assert (Hkd : k = d - 53) by lia.
    apply Z.div_le_lower_bound; [lia|].
    assert (2 ^ (d - 1) = 2 ^ k * 2 ^ 52)
      by (rewrite <- Z.pow_add_r by lia; f_equal; lia).
    lia. }
  set (m1 := rne mx k) in *. clearbody m1.
  rewrite fexp_eq.
  destruct (Z.eq_dec m1 0) as [-> | Hm0]; [cbn; exact I|].
  destruct (Z.eq_dec m1 (2 ^ 53)) as [-> | Hm53].
  - rewrite (Zdigits2_unique (2 ^ 53) 54) by (cbn; lia).
    replace (Z.max 0 (Z.max (54 + (ex + k) - 53) (-1074) - (ex + k))) with 1 by lia.
    change (2 ^ 53 / 2 ^ 1) with (Zpos (2 ^ 52)).
    cbv iota. change (emax - prec) with 971.
    destruct (Z.leb_spec (ex + k + 1) 971); [|exact I].
    cbn [rounded]. split; [cbn; lia|]. intros _. split; [cbn; lia | lia].
  - destruct (Zdigits2_bounds m1 ltac:(lia)) as [Hd1 Hd10].
    set (d1 := Zdigits2 m1) in *.
    assert (Hd1le : d1 <= 53).
    { destruct (Z.le_gt_cases d1 53) as [|Hgt]; [assumption|].
      assert (2 ^ 53 <= 2 ^ (d1 - 1)) by (apply Z.pow_le_mono_r; lia). lia. }
    replace (Z.max 0 (Z.max (d1 + (ex + k) - 53) (-1074) - (ex + k))) with 0 by lia.
    change (2 ^ 0) with 1. rewrite Z.div_1_r, Z.add_0_r.
    destruct m1 as [|p|p]; try lia.
    change (emax - prec) with 971.
    destruct (Z.leb_spec (ex + k) 971); [|exact I].
    cbn [rounded]. split; [lia|]. intros He. split; [|lia].
    specialize (Hnormal He). lia.
Qed.

Lemma mul_ten_finite (s : bool) (m : positive) (e : Z) :
  F64.mul (S754_finite s m e) lit_10
  = binary_round_aux prec emax s (Zpos (m * T)) (e + -49) loc_Exact.
Proof. unfold F64.mul, SFmul. rewrite lit_10_eq. destruct s; reflexivity. Qed.

Lemma mul_ten_rounded (x : float) : rounded (F64.mul x lit_10).
Proof.
  destruct x as [s|s| |s m e]; try exact I.
  rewrite mul_ten_finite. apply round_aux_rounded.
  rewrite Pos2Z.inj_mul. pose proof (Pos2Z.is_pos m).
  change (2 ^ 52) with 4503599627370496. lia.
Qed.

(** ** Division by ten *)

Lemma div_ten_finite (s : bool) (m : positive) (e : Z) :
  F64.div (S754_finite s m e) lit_10
  = let '(mz, ez, lz) := SFdiv_core_binary prec emax (Zpos m) e (Zpos T) (-49) in
    binary_round_aux prec emax s mz ez lz.
Proof. unfold F64.div, SFdiv. rewrite lit_10_eq. destruct s; reflexivity. Qed.

Lemma div_eucl_pair (a b : Z) : Z.div_eucl a b = (a / b, a mod b).
Proof. unfold Z.div, Z.modulo. destruct (Z.div_eucl a b). reflexivity. Qed.

(** The quotient of a 53-bit mantissa by ten, before rounding: eight
    times the mantissa over five, and where the remainder lies. *)
Lemma div_core_ten (M : positive) (E : Z) :
  2 ^ 52 <= Zpos M < 2 ^ 53 -> -52 <= E <= 971 ->
  SFdiv_core_binary prec emax (Zpos M) E (Zpos T) (-49)
  = ((8 * Zpos M) / 5, E - 4,
     if (8 * Zpos M) mod 5 =? 0 then loc_Exact
     else loc_Inexact (2 * ((8 * Zpos M) mod 5) ?= 5)).
Proof.
  intros HM HE. unfold SFdiv_core_binary.
  rewrite (Zdigits2_unique (Zpos M) 53) by (change (53 - 1) with 52; lia).
  change (Zdigits2 (Zpos T)) with 53. rewrite fexp_eq. cbv zeta.
  replace (Z.min (Z.max (53 + E - (53 + -49) - 53) (-1074)) (E - -49))
    with (E - 4) by lia.
  replace (E - -49 - (E - 4)) with 53 by lia.
  rewrite Z.shiftl_mul_pow2 by lia. rewrite div_eucl_pair.
  assert (Hnum : Zpos M * 2 ^ 53 = 2 ^ 50 * (8 * Zpos M))
    by (change (2 ^ 53) with (2 ^ 50 * 8); lia).
  assert (Hden : Zpos T = 2 ^ 50 * 5) by reflexivity.
  rewrite Hnum, Hden.
  rewrite Z.div_mul_cancel_l by (try apply Z.pow_nonzero; lia).
  rewrite Z.mul_mod_distr_l by (try apply Z.pow_nonzero; lia).
  f_equal. unfold new_location.
  change (Z.even (2 ^ 50 * 5)) with true. cbv iota. unfold new_location_even.
  pose proof (pow2_pos 50 ltac:(lia)) as H50.
  set (rho := (8 * Zpos M) mod 5).
  destruct (Z.eqb_spec rho 0) as [-> | Hrho].
  - rewrite Z.mul_0_r. reflexivity.
  - destruct (Z.eqb_spec (2 ^ 50 * rho) 0) as [Hz | _]; [nia|].
    f_equal. replace (2 * (2 ^ 50 * rho)) with (2 ^ 50 * (2 * rho)) by lia.
    destruct (Z.compare_spec (2 ^ 50 * (2 * rho)) (2 ^ 50 * 5)),
      (Z.compare_spec (2 * rho) 5); try reflexivity; nia.
Qed.

(** Dividing an integral double by ten gives the nearest double to the
    tenth: its mantissa is within 2/5 of the exact quotient, scaled by 16
    or by 8. *)
Lemma div_ten_integral (s : bool) (M : positive) (E : Z) :
  2 ^ 52 <= Zpos M < 2 ^ 53 -> -52 <= E <= 971 ->
  exists (My : positive) (Ey delta : Z),
    F64.div (S754_finite s M E) lit_10 = S754_finite s My Ey
    /\ 2 ^ 52 <= Zpos My < 2 ^ 53
    /\ -2 <= delta <= 2
    /\ ((Ey = E - 4 /\ 5 * Zpos My = 8 * Zpos M + delta)
        \/ (Ey = E - 3 /\ 5 * Zpos My = 4 * Zpos M + delta)).
Proof.
  intros HM HE. rewrite div_ten_finite, div_core_ten by assumption.
  pose proof (Z.div_mod (8 * Zpos M) 5 ltac:(lia)) as Hdm.
  pose proof (Z.mod_pos_bound (8 * Zpos M) 5 ltac:(lia)) as Hrho.
  set (q := (8 * Zpos M) / 5) in *. set (rho := (8 * Zpos M) mod 5) in *.
  clearbody q rho.
  change (2 ^ 52) with 4503599627370496 in *.
  change (2 ^ 53) with 9007199254740992 in *.
  set (lz := if rho =? 0 then loc_Exact else loc_Inexact (2 * rho ?= 5)).
  assert (Hcode : (rho = 0 /\ code lz = 0) \/ (1 <= rho <= 2 /\ code lz = 1)
                  \/ (3 <= rho <= 4 /\ code lz = 3)).
  { unfold lz. destruct (Z.eqb_spec rho 0); [left; auto|].
    destruct (Z.compare_spec (2 * rho) 5); cbn [code]; lia. }
  clearbody lz.
  rewrite binary_round_aux_eq by lia. rewrite !fexp_eq.
  destruct (Z.lt_ge_cases q 9007199254740992) as [Hq | Hq].
  - (* the quotient has 53 bits *)
    rewrite (Zdigits2_unique q 53) by (cbn; lia).
    replace (Z.max 0 (Z.max (53 + (E - 4) - 53) (-1074) - (E - 4))) with 0 by lia.
    cbv zeta. change (0 + 2) with 2.
    set (z := if code lz <=? 1 then q else q + 1).
    assert (Hz : rne (4 * q + code lz) 2 = z).
    { apply rne_unique; [lia|]. left. change (2 ^ 2) with 4. unfold z.
      destruct (Z.leb_spec (code lz) 1); lia. }
    rewrite Hz.
    assert (Hzb : 4503599627370496 <= z < 9007199254740992)
      by (unfold z; destruct (Z.leb_spec (code lz) 1); lia).
    rewrite (Zdigits2_unique z 53) by (cbn; lia). rewrite fexp_eq.
    replace (Z.max 0 (Z.max (53 + (E - 4 + 0) - 53) (-1074) - (E - 4 + 0)))
      with 0 by lia.
    change (2 ^ 0) with 1. rewrite Z.div_1_r, !Z.add_0_r.
    destruct z as [|My|My] eqn:HMy; try lia.
    change (emax - prec) with 971.
    destruct (Z.leb_spec (E - 4) 971); [|lia].
    exists My, (E - 4), (5 * Zpos My - 8 * Zpos M).
    split; [reflexivity|]. split; [lia|].
    unfold z in HMy. destruct (Z.leb_spec (code lz) 1); split; lia.
  - (* the quotient has 54 bits *)
    rewrite (Zdigits2_unique q 54) by (cbn; lia).
    replace (Z.max 0 (Z.max (54 + (E - 4) - 53) (-1074) - (E - 4))) with 1 by lia.
    cbv zeta. change (1 + 2) with 3.
    pose proof (Z.div_mod (q + 1) 2 ltac:(lia)) as Hz2.
    pose proof (Z.mod_pos_bound (q + 1) 2 ltac:(lia)) as Hz2b.
    set (z := (q + 1) / 2) in *. set (b := (q + 1) mod 2) in *. clearbody z b.
    assert (Hz : rne (4 * q + code lz) 3 = z).
    { apply rne_unique; [lia|]. left. change (2 ^ 3) with 8. lia. }
    rewrite Hz.
    assert (Hzb : 4503599627370496 <= z < 9007199254740992) by lia.
    rewrite (Zdigits2_unique z 53) by (cbn; lia). rewrite fexp_eq.
    replace (Z.max 0 (Z.max (53 + (E - 4 + 1) - 53) (-1074) - (E - 4 + 1)))
      with 0 by lia.
    change (2 ^ 0) with 1. rewrite Z.div_1_r, !Z.add_0_r.
    destruct z as [|My|My] eqn:HMy; try lia.
    change (emax - prec) with 971.
    destruct (Z.leb_spec (E - 4 + 1) 971); [|lia].
    exists My, (E - 3), (5 * Zpos My - 4 * Zpos M).
    split; [f_equal; lia|]. split; [lia|]. split; [lia|]. right. lia.
Qed.

(** ** Ten times the tenth *)

(** Multiplying the tenth of an integral double by ten gives the double
    back, or, when the product falls halfway between two doubles and the
    mantissa is odd, a neighbour of which the same double is still the
    tenth. *)
Lemma mul_ten_back (s : bool) (M My : positive) (E Ey delta : Z) :
  2 ^ 52 <= Zpos M < 2 ^ 53 -> -52 <= E <= 971 ->
  2 ^ 52 <= Zpos My < 2 ^ 53 ->
  -2 <= delta <= 2 ->
  ((Ey = E - 4 /\ 5 * Zpos My = 8 * Zpos M + delta)
   \/ (Ey = E - 3 /\ 5 * Zpos My = 4 * Zpos M + delta)) ->
  exists (M' : positive) (delta' : Z),
    F64.mul (S754_finite s My Ey) lit_10 = S754_finite s M' E
    /\ 2 ^ 52 <= Zpos M' < 2 ^ 53
    /\ -2 <= delta' <= 2
    /\ (M' = M \/ Z.odd (Zpos M) = true)
    /\ ((Ey = E - 4 /\ 5 * Zpos My = 8 * Zpos M' + delta')
        \/ (Ey = E - 3 /\ 5 * Zpos My = 4 * Zpos M' + delta')).
Proof.
  intros HM HE HMy Hdelta Hbranch.
  rewrite mul_ten_finite. rewrite binary_round_aux_eq by lia.
  rewrite Pos2Z.inj_mul. cbn [code]. rewrite !fexp_eq.
  change (2 ^ 52) with 4503599627370496 in *.
  change (2 ^ 53) with 9007199254740992 in *.
  pose proof (Z.div_mod (Zpos M) 2 ltac:(lia)) as Hpar.
  rewrite Zmod_odd in Hpar.
  set (N := Zpos My * Zpos T) in *.
  assert (HN : N = Zpos My * 5629499534213120) by reflexivity.
  destruct Hbranch as [[HEy H5] | [HEy H5]].
  - (* the tenth was scaled by sixteen: the product is exact enough *)
    rewrite (Zdigits2_unique N 106) by (cbn; lia).
    replace (Z.max 0 (Z.max (106 + (Ey + -49) - 53) (-1074) - (Ey + -49)))
      with 53 by lia.
    cbv zeta. change (53 + 2) with 55.
    assert (Hz : rne (4 * N + 0) 55 = Zpos M).
    { apply rne_unique; [lia|]. left. change (2 ^ 55) with 36028797018963968. lia. }
    rewrite Hz.
    rewrite (Zdigits2_unique (Zpos M) 53) by (cbn; lia). rewrite ?fexp_eq.
    replace (Z.max 0 (Z.max (53 + (Ey + -49 + 53) - 53) (-1074) - (Ey + -49 + 53)))
      with 0 by lia.
    change (2 ^ 0) with 1. rewrite Z.div_1_r, !Z.add_0_r.
    change (emax - prec) with 971.
    destruct (Z.leb_spec (Ey + -49 + 53) 971); [|lia].
    exists M, delta. split; [f_equal; lia|]. split; [lia|]. split; [lia|].
    split; [left; reflexivity|]. left. split; lia.
  - (* the tenth was scaled by eight: the product may be a tie *)
    rewrite (Zdigits2_unique N 105) by (cbn; lia).
    replace (Z.max 0 (Z.max (105 + (Ey + -49) - 53) (-1074) - (Ey + -49)))
      with 52 by lia.
    cbv zeta. change (52 + 2) with 54.
    set (tie := (Z.odd (Zpos M) && (Z.abs delta =? 2))%bool).
    set (z := if tie then Zpos M + delta / 2 else Zpos M).
    assert (Hhalf : Z.abs delta = 2 -> delta / 2 * 2 = delta /\ Z.abs (delta / 2) = 1).
    { intros Habs. destruct (Z.abs_spec delta) as [[_ Hd] | [_ Hd]].
      - assert (Hd2 : delta = 2) by lia. rewrite Hd2. split; reflexivity.
      - assert (Hd2 : delta = -2) by lia. rewrite Hd2. split; reflexivity. }
    assert (Hz : rne (4 * N + 0) 54 = z).
    { apply rne_unique; [lia|]. change (2 ^ 54) with 18014398509481984.
      unfold z, tie.
      destruct (Z.odd (Zpos M)) eqn:Hodd; cbn [andb].
      - destruct (Z.eqb_spec (Z.abs delta) 2) as [Habs | Habs].
        + right. destruct (Hhalf Habs) as [Hh1 Hh2]. split; [lia|].
          rewrite Z.even_add, <- Z.negb_odd, Hodd. cbn [negb].
          destruct (Z.abs_spec delta) as [[_ Hd] | [_ Hd]].
          * replace delta with 2 by lia. reflexivity.
          * replace delta with (-2) by lia. reflexivity.
        + left. lia.
      - destruct (Z.eq_dec (Z.abs delta) 2) as [Habs | Habs].
        + right. split; [lia|]. rewrite <- Z.negb_odd, Hodd. reflexivity.
        + left. lia. }
    rewrite Hz.
    assert (Hzb : 4503599627370496 <= z < 9007199254740992
                  /\ exists delta', -2 <= delta' <= 2
                                    /\ 5 * Zpos My = 4 * z + delta'
                                    /\ (z = Zpos M \/ Z.odd (Zpos M) = true)).
    { unfold z, tie. destruct (Z.odd (Zpos M)) eqn:Hodd; cbn [andb].
      - destruct (Z.eqb_spec (Z.abs delta) 2) as [Habs | Habs].
        + destruct (Hhalf Habs) as [Hh1 Hh2]. split; [lia|].
          exists (- delta). split; [lia|]. split; [lia|]. right. reflexivity.
        + split; [lia|]. exists delta. split; [lia|]. split; [lia|]. left. reflexivity.
      - split; [lia|]. exists delta. split; [lia|]. split; [lia|]. left. reflexivity. }
    destruct Hzb as [Hzb (delta' & Hd' & H5' & Hsame)]. clearbody z.
    rewrite (Zdigits2_unique z 53) by (cbn; lia). rewrite ?fexp_eq.
    replace (Z.max 0 (Z.max (53 + (Ey + -49 + 52) - 53) (-1074) - (Ey + -49 + 52)))
      with 0 by lia.
    change (2 ^ 0) with 1. rewrite Z.div_1_r, !Z.add_0_r.
    destruct z as [|M'|M'] eqn:HM'; try lia.
    change (emax - prec) with 971.
    destruct (Z.leb_spec (Ey + -49 + 52) 971); [|lia].
    exists M', delta'. split; [f_equal; lia|]. split; [lia|]. split; [lia|].
    split; [destruct Hsame as [Hs | Hs]; [left; congruence | right; assumption]|].
    right. split; lia.
Qed.

Lemma mod_pow2_even (m k : Z) : 0 < k -> m mod 2 ^ k = 0 -> Z.odd m = false.
Proof.
  intros Hk Hm.
  pose proof (Z.div_mod m (2 ^ k) ltac:(pose proof (pow2_pos k); lia)) as Hdm.
  rewrite Hm, Z.add_0_r in Hdm.
  replace (2 ^ k) with (2 * 2 ^ (k - 1)) in Hdm
    by (rewrite <- Z.pow_succ_r by lia; f_equal; lia).
  rewrite Hdm, <- Z.mul_assoc, Z.odd_mul. reflexivity.
Qed.

(** The tenth of an integral double is a fixed point of [around1]. *)
Lemma around1_tenth (n : float) :
  integral n -> around1 (F64.div n lit_10) = F64.div n lit_10.
Proof.
  destruct n as [s|s| |s M E]; intros Hn.
  - destruct s; reflexivity.
  - destruct s; reflexivity.
  - reflexivity.
  - cbn [integral] in Hn. destruct Hn as (HM & HE & Hint).
    destruct (div_ten_integral s M E HM HE) as (My & Ey & delta & Hy & HMy & Hd & Hb).
    rewrite Hy. unfold around1.
    destruct (mul_ten_back s M My E Ey delta HM HE HMy Hd Hb)
      as (M' & delta' & Hx & HM' & Hd' & Hsame & Hb').
    rewrite Hx.
    assert (Hint' : integral (S754_finite s M' E)).
    { cbn [integral]. split; [assumption|]. split; [assumption|].
      intros He. destruct Hsame as [-> | Hodd]; [auto|].
      rewrite (mod_pow2_even (Zpos M) (- E)) in Hodd by (auto; lia). discriminate. }
    rewrite (rint_int s M' E Hint').
    destruct (div_ten_integral s M' E HM' HE) as (My2 & Ey2 & delta2 & Hy2 & HMy2 & Hd2 & Hb2).
    rewrite Hy2.
    change (2 ^ 52) with 4503599627370496 in *.
    change (2 ^ 53) with 9007199254740992 in *.
    f_equal; lia.
Qed.

(** C7. Rounding a threshold to one decimal is idempotent:
    [around1 (around1 x) = around1 x] for every double [x], the
    infinities, the zeros and NaN included. *)
Theorem around1_idempotent (x : float) : around1 (around1 x) = around1 x.
Proof.
  unfold around1 at 2 3.
  apply around1_tenth, rint_integral, mul_ten_rounded.
Qed.
End RoundFacts.

(* ===================================================================== *)
(** * Facts: styles                                                        *)
(* ===================================================================== *)

Module StyleFacts.

Lemma markers_value (index : Z) :
  markers index = Ok (nth (Z.to_nat (index mod 6)) markers_ ""%string).
Proof.
  unfold markers, getitem. change (Z.of_nat (length markers_)) with 6.
  pose proof (Z.mod_pos_bound index 6 ltac:(lia)) as Hk.
  set (k := index mod 6) in *. clearbody k.
  assert (Hcase : k = 0 \/ k = 1 \/ k = 2 \/ k = 3 \/ k = 4 \/ k = 5) by lia.
  decompose [or] Hcase; subst k; reflexivity.
Qed.

Lemma markers_of_nat (i : nat) : markers (Z.of_nat i) = Ok (marker_of i).
Proof.
  rewrite markers_value. unfold marker_of.
  change 6 with (Z.of_nat 6). rewrite <- Nat2Z.inj_mod, Nat2Z.id. reflexivity.
Qed.

Lemma marker_of_lookup (i : nat) : nth_error markers_ (i mod 6)%nat = Some (marker_of i).
Proof.
  unfold marker_of. apply nth_error_nth'.
  change (length markers_) with 6%nat. apply Nat.mod_upper_bound. discriminate.
Qed.

(** C9. [markers] is total and cyclic: at every integer index (so at
    every non-negative one) it returns a marker of the list, never an
    [IndexError], and the index counts modulo 6. *)
Theorem markers_total_cyclic (i : Z) :
  (exists m, markers i = Ok m /\ In m markers_)
  /\ markers i = markers (i mod 6)
  /\ markers i = markers (i + 6).
Proof.
  split; [|split].
  - exists (nth (Z.to_nat (i mod 6)) markers_ ""%string).
    split; [apply markers_value|].
    apply nth_In. change (length markers_) with 6%nat.
    pose proof (Z.mod_pos_bound i 6 ltac:(lia)). lia.
  - rewrite !markers_value, Z.mod_mod by lia. reflexivity.
  - rewrite !markers_value.
    replace (i + 6) with (i + 1 * 6) by lia.
    rewrite Z.mod_add by lia. reflexivity.
Qed.

Lemma all_digits_uint (d : Decimal.uint) :
  all_digits (NilEmpty.string_of_uint d) = true.
Proof. induction d; cbn; auto. Qed.

Lemma str_nat_nonempty (i : nat) : String.eqb (str_nat i) "" = false.
Proof.
  unfold str_nat. destruct (Nat.to_uint i) eqn:Hd; try reflexivity.
  pose proof (DecimalNat.Unsigned.of_to i) as Hi. rewrite Hd in Hi. cbn in Hi.
  subst i. discriminate.
Qed.

(** matplotlib reads [f'C{i}'] back as entry [i mod n] of a colour cycle
    of [n] colours. *)
Lemma nth_color_C (prop_cycle : list string) (i : nat) :
  nth_color prop_cycle (color_C i)
  = let colors := match prop_cycle with [] => ["k"%string] | _ => prop_cycle end in
    nth_error colors (i mod length colors)%nat.
Proof.
  unfold color_C, nth_color.
  change ("C" +:+ str_nat i) with (String "C" (str_nat i)). cbv iota beta.
  rewrite str_nat_nonempty. unfold str_nat.
  rewrite all_digits_uint, NilEmpty.usu, DecimalNat.Unsigned.of_to. reflexivity.
Qed.
End StyleFacts.

(* ===================================================================== *)
(** * Facts: the plotting loop                                             *)
(* ===================================================================== *)

Module PlotFacts.
Import StyleFacts.

(** ** Comprehensions that may raise *)

Lemma bind_Ok {A B : Type} (a : A) (f : A -> result B) : (Ok a ≫= f) = f a.
Proof. reflexivity. Qed.

Lemma bind_Raise {A B : Type} (e : exn) (f : A -> result B) :
  (Raise e ≫= f) = Raise e.
Proof. reflexivity. Qed.

Lemma traverse_Ok {A B : Type} (f : A -> result B) (l : list A) (ys : list B) :
  traverse f l = Ok ys <-> Forall2 (fun x y => f x = Ok y) l ys.
Proof.
  revert ys. induction l as [|x l IH]; intros ys; cbn.
  - split.
    + intros [= <-]. constructor.
    + intros Hf. inversion Hf. reflexivity.
  - destruct (f x) as [y|e] eqn:Hx; cbn.
    + destruct (traverse f l) as [ys'|e] eqn:Hl; cbn.
      * split.
        -- intros [= <-]. constructor; [assumption | apply IH; reflexivity].
        -- intros Hf. inversion Hf as [|? y' ? ys'' Hy Hys]; subst.
           apply IH in Hys. congruence.
      * split; [discriminate|].
        intros Hf. inversion Hf as [|? y' ? ys'' Hy Hys]; subst.
        apply IH in Hys. discriminate.
    + split; [discriminate|].
      intros Hf. inversion Hf. congruence.
Qed.

Lemma traverse_length {A B : Type} (f : A -> result B) (l : list A) (ys : list B) :
  traverse f l = Ok ys -> length ys = length l.
Proof.
  rewrite traverse_Ok. induction 1; cbn; congruence.
Qed.

(** If every element passes, the comprehension does. *)
Lemma traverse_all {A B : Type} (f : A -> result B) (l : list A) :
  (forall x, In x l -> exists y, f x = Ok y) ->
  exists ys, traverse f l = Ok ys.
Proof.
  induction l as [|x l IH]; intros Hall; cbn; [eauto|].
  destruct (Hall x (or_introl eq_refl)) as (y & ->).
  destruct IH as (ys & ->); [intros; apply Hall; right; assumption|].
  cbn. eauto.
Qed.

(** If an element raises, and nothing raises anything else, the
    comprehension raises that. *)
Lemma traverse_Raise {A B : Type} (f : A -> result B) (l : list A) (e : exn) (x : A) :
  (forall x' e', f x' = Raise e' -> e' = e) ->
  In x l -> f x = Raise e ->
  traverse f l = Raise e.
Proof.
  intros Honly. induction l as [|x' l IH]; intros Hin Hx; [destruct Hin|]. cbn.
  destruct (f x') as [y|e'] eqn:Hx'; cbn.
  - destruct Hin as [-> | Hin]; [congruence|].
    rewrite (IH Hin Hx). reflexivity.
  - f_equal. eapply Honly. eassumption.
Qed.

Lemma traverse_only {A B : Type} (f : A -> result B) (l : list A) (e e' : exn) :
  (forall x' e', f x' = Raise e' -> e' = e) ->
  traverse f l = Raise e' -> e' = e.
Proof.
  intros Honly. induction l as [|x l IH]; cbn; [discriminate|].
  destruct (f x) as [y|e''] eqn:Hx; cbn.
  - destruct (traverse f l); cbn; [discriminate|].
    intros [= <-]. apply IH. reflexivity.
  - intros [= <-]. eapply Honly. eassumption.
Qed.

(** ** The selections *)

Lemma select_both (dataframe : DataFrame) (t : float) (w : Z) :
  select_datapoint (select_line dataframe t) w = List.filter (matches t w) dataframe.
Proof.
  unfold select_datapoint, select_line, matches.
  induction dataframe as [|r df IH]; [reflexivity|]. cbn.
  destruct (F64.eqb (threshold r) t); cbn; [|exact IH].
  destruct (window_size r =? w); cbn; congruence.
Qed.

(** The row of a point is the first matching row of the table, in file
    order. *)
Lemma row_for_first (dataframe : DataFrame) (t : float) (w : Z) (r : row) :
  row_for dataframe t w = Ok r <->
  exists before after,
    dataframe = before ++ r :: after
    /\ matches t w r = true
    /\ Forall (fun r' => matches t w r' = false) before.
Proof.
  unfold row_for. rewrite select_both.
  induction dataframe as [|r0 df IH]; cbn.
  - split; [discriminate|].
    intros (before & after & Heq & _). destruct before; discriminate.
  - destruct (matches t w r0) eqn:Hr0; cbn.
    + split.
      * intros [= <-]. exists [], df. repeat split; [assumption | constructor].
      * intros (before & after & Heq & Hm & Hb).
        destruct before as [|r1 before]; cbn in Heq.
        -- congruence.
        -- injection Heq as <- _. inversion Hb; congruence.
    + rewrite IH. split.
      * intros (before & after & -> & Hm & Hb).
        exists (r0 :: before), after. repeat split; [assumption|].
        constructor; assumption.
      * intros (before & after & Heq & Hm & Hb).
        destruct before as [|r1 before]; cbn in Heq.
        -- congruence.
        -- injection Heq as <- ->. inversion Hb; subst. eauto.
Qed.

(** It is missing exactly when no row matches. *)
Lemma row_for_none (dataframe : DataFrame) (t : float) (w : Z) :
  row_for dataframe t w = Raise IndexError <->
  Forall (fun r => matches t w r = false) dataframe.
Proof.
  unfold row_for. rewrite select_both.
  induction dataframe as [|r0 df IH]; cbn.
  - split; [constructor | reflexivity].
  - destruct (matches t w r0) eqn:Hr0; cbn.
    + split; [discriminate|]. intros Hf. inversion Hf; congruence.
    + rewrite IH. split; [constructor; assumption|].
      intros Hf. inversion Hf; assumption.
Qed.

Lemma row_for_only (dataframe : DataFrame) (t : float) (w : Z) (e : exn) :
  row_for dataframe t w = Raise e -> e = IndexError.
Proof.
  unfold row_for. destruct (select_datapoint _ w); cbn; congruence.
Qed.

(** ** The two inner loops *)

Lemma select_datapoints_closed (line : DataFrame) (ws : list Z) (X Y : list float) :
  select_datapoints line ws X Y
  = (rs ← traverse (fun w => values0 (select_datapoint line w)) ws;
     Ok (X ++ map ifp_rate rs, Y ++ map det_ratio rs)).
Proof.
  revert X Y. induction ws as [|w ws IH]; intros X Y; cbn.
  - rewrite !app_nil_r. reflexivity.
  - destruct (select_datapoint line w) as [|r datapoint]; cbn; [reflexivity|].
    rewrite IH.
    destruct (traverse _ ws) as [rs|e]; cbn; [|reflexivity].
    rewrite <- !app_assoc. reflexivity.
Qed.

Lemma zip3_rows (ws : list Z) (rs : list row) :
  length rs = length ws ->
  zip3 (map ifp_rate rs) (map det_ratio rs) ws
  = map (fun '(w, r) => (ifp_rate r, det_ratio r, w)) (combine ws rs).
Proof.
  revert rs. induction ws as [|w ws IH]; intros [|r rs] Hlen; try discriminate;
    [reflexivity|].
  cbn. f_equal. apply IH. cbn in Hlen. congruence.
Qed.

Lemma annotate_points_closed (i : nat) (wrs : list (Z * row)) (ax : figure) :
  annotate_points i (map (fun '(w, r) => (ifp_rate r, det_ratio r, w)) wrs) ax
  = Ok (ax ++ flat_map (fun '(w, r) => draw_point i w r) wrs).
Proof.
  revert ax. induction wrs as [|[w r] wrs IH]; intros ax; cbn [map annotate_points].
  - cbn. rewrite app_nil_r. reflexivity.
  - rewrite markers_of_nat, bind_Ok, IH. cbn [flat_map draw_point].
    rewrite <- !app_assoc. reflexivity.
Qed.

(** ** The loop over the thresholds *)

Lemma plot_line_closed (dataframe : DataFrame) (ws : list Z)
    (i : nat) (t : float) (ax : figure) :
  plot_line dataframe ws i t ax
  = (rs ← traverse (row_for dataframe t) ws; Ok (ax ++ draw_line i ws rs)).
Proof.
  unfold plot_line. rewrite select_datapoints_closed.
  change (fun w => values0 (select_datapoint (select_line dataframe t) w))
    with (row_for dataframe t).
  destruct (traverse (row_for dataframe t) ws) as [rs|e] eqn:Hrs; cbn; [|reflexivity].
  rewrite zip3_rows by (eapply traverse_length; eassumption).
  apply annotate_points_closed.
Qed.

Lemma plot_lines_closed (dataframe : DataFrame) (ws : list Z)
    (its : list (nat * float)) (ax : figure) :
  plot_lines dataframe ws its ax
  = (drawn ← draw_lines dataframe ws its; Ok (ax ++ concat drawn)).
Proof.
  unfold draw_lines. revert ax.
  induction its as [|[i t] its IH]; intros ax; cbn [plot_lines traverse].
  - cbn. rewrite app_nil_r. reflexivity.
  - rewrite plot_line_closed.
    destruct (traverse (row_for dataframe t) ws) as [rs|e]; cbn; [|reflexivity].
    rewrite IH.
    destruct (traverse _ its) as [drawn|e]; cbn; [|reflexivity].
    rewrite <- app_assoc. reflexivity.
Qed.

(** The only way the loop fails is [IndexError]. *)
Lemma draw_lines_only (dataframe : DataFrame) (ws : list Z)
    (its : list (nat * float)) (e : exn) :
  draw_lines dataframe ws its = Raise e -> e = IndexError.
Proof.
  apply traverse_only. intros [i t] e'.
  destruct (traverse (row_for dataframe t) ws) as [rs|e''] eqn:Hrs; cbn; [discriminate|].
  intros [= <-]. eapply traverse_only; [|exact Hrs].
  intros w. apply row_for_only.
Qed.

(** ** Where each point is *)

Lemma enumerate_from_nth {A : Type} (l : list A) (start i : nat) :
  nth_error (combine (seq start (length l)) l) i
  = option_map (fun x => ((start + i)%nat, x)) (nth_error l i).
Proof.
  revert start i. induction l as [|x l IH]; intros start [|i]; cbn; try reflexivity.
  - rewrite Nat.add_0_r. reflexivity.
  - rewrite IH. destruct (nth_error l i); cbn; [|reflexivity].
    repeat f_equal. lia.
Qed.

Lemma enumerate_nth {A : Type} (l : list A) (i : nat) :
  nth_error (enumerate l) i = option_map (fun x => (i, x)) (nth_error l i).
Proof. apply (enumerate_from_nth l 0 i). Qed.

Lemma enumerate_length {A : Type} (l : list A) : length (enumerate l) = length l.
Proof. unfold enumerate. rewrite length_combine, length_seq. lia. Qed.

Lemma Forall2_nth_l {A B : Type} (R : A -> B -> Prop) l l' (i : nat) (x : A) :
  Forall2 R l l' -> nth_error l i = Some x ->
  exists y, nth_error l' i = Some y /\ R x y.
Proof.
  intros Hf. revert i. induction Hf as [|a b l l' Hab _ IH]; intros [|i] Hx;
    try discriminate.
  - injection Hx as <-. exists b. split; [reflexivity | assumption].
  - apply IH. exact Hx.
Qed.

Lemma Forall2_length_eq {A B : Type} (R : A -> B -> Prop) l l' :
  Forall2 R l l' -> length l = length l'.
Proof. induction 1; cbn; congruence. Qed.

Lemma nth_error_concat_uniform {A : Type} (n : nat) (ss : list (list A))
    (i j : nat) (s : list A) :
  Forall (fun s => length s = n) ss ->
  nth_error ss i = Some s -> (j < n)%nat ->
  nth_error (concat ss) (i * n + j) = nth_error s j.
Proof.
  intros Hall. revert i. induction Hall as [|s0 ss Hs0 _ IH]; intros [|i] Hs Hj;
    try discriminate; cbn [concat].
  - injection Hs as ->. cbn. rewrite nth_error_app1 by lia. reflexivity.
  - rewrite nth_error_app2 by (cbn; lia).
    replace (S i * n + j - length s0)%nat with (i * n + j)%nat by (cbn; lia).
    apply IH; assumption.
Qed.


Lemma point_markers_app (f g : figure) :
  point_markers (f ++ g) = point_markers f ++ point_markers g.
Proof. apply flat_map_app. Qed.

Lemma point_markers_concat (figs : list figure) :
  point_markers (concat figs) = concat (map point_markers figs).
Proof.
  induction figs as [|f figs IH]; [reflexivity|].
  cbn [concat map]. rewrite point_markers_app, IH. reflexivity.
Qed.

Lemma point_markers_draw_line (i : nat) (ws : list Z) (rs : list row) :
  length rs = length ws ->
  point_markers (draw_line i ws rs) = map (point_of i) rs.
Proof.
  unfold draw_line. revert rs.
  induction ws as [|w ws IH]; intros [|r rs] Hlen; try discriminate; [reflexivity|].
  cbn [combine flat_map]. rewrite point_markers_app. cbn [map]. rewrite <- IH.
  - reflexivity.
  - cbn in Hlen. congruence.
Qed.

(** The rows the points were read from, series by series. *)
Lemma drawn_rows (dataframe : DataFrame) (ws : list Z) (ts : list float)
    (start : nat) (drawn : list figure) :
  draw_lines dataframe ws (combine (seq start (length ts)) ts) = Ok drawn ->
  exists rows : list (list row),
    Forall2 (fun t rs => Forall2 (fun w r => row_for dataframe t w = Ok r) ws rs) ts rows
    /\ map point_markers drawn
       = map (fun '(i, rs) => map (point_of i) rs)
           (combine (seq start (length rows)) rows).
Proof.
  unfold draw_lines. revert start drawn.
  induction ts as [|t ts' IH]; intros start drawn Hdrawn; cbn in Hdrawn.
  - injection Hdrawn as <-. exists []. split; [constructor | reflexivity].
  - destruct (traverse (row_for dataframe t) ws) as [rs|e] eqn:Hrs; [|discriminate].
    cbn in Hdrawn.
    destruct (traverse _ (combine (seq (S start) (length ts')) ts')) as [drawn'|e] eqn:Hd';
      [|discriminate].
    cbn in Hdrawn. injection Hdrawn as <-.
    destruct (IH (S start) drawn' Hd') as (rows & Hrows & Hpts).
    exists (rs :: rows). split.
    + constructor; [apply traverse_Ok; assumption | assumption].
    + cbn [map length seq combine]. rewrite Hpts.
      rewrite point_markers_draw_line by (eapply traverse_length; eassumption).
      reflexivity.
Qed.

Lemma plotted_rows (dataframe : DataFrame) (ws : list Z) (ts : list float)
    (ax : figure) :
  plot_lines dataframe ws (enumerate ts) [] = Ok ax ->
  exists rows : list (list row),
    Forall2 (fun t rs => Forall2 (fun w r => row_for dataframe t w = Ok r) ws rs) ts rows
    /\ point_markers ax
       = concat (map (fun '(i, rs) => map (point_of i) rs) (enumerate rows)).
Proof.
  rewrite plot_lines_closed. intros Hplot.
  destruct (draw_lines dataframe ws (enumerate ts)) as [drawn|e] eqn:Hdrawn;
    [|discriminate].
  cbn in Hplot. injection Hplot as <-.
  destruct (drawn_rows dataframe ws ts 0 drawn Hdrawn) as (rows & Hrows & Hpts).
  exists rows. split; [assumption|].
  rewrite point_markers_concat, Hpts. reflexivity.
Qed.

Lemma rows_uniform (dataframe : DataFrame) (ws : list Z) (ts : list float)
    (rows : list (list row)) :
  Forall2 (fun t rs => Forall2 (fun w r => row_for dataframe t w = Ok r) ws rs) ts rows ->
  Forall (fun s => length s = length ws)
    (map (fun '(i, rs) => map (point_of i) rs) (enumerate rows)).
Proof.
  intros Hrows. unfold enumerate. generalize 0%nat as start.
  induction Hrows as [|t rs ts' rows' Hrs _ IH]; intros start; cbn; constructor.
  - rewrite length_map. symmetry. eapply Forall2_length_eq. eassumption.
  - apply IH.
Qed.


(** The point of the [i]-th threshold and the [j]-th window size is at
    position [i * len(window_sizes) + j], and is read from the first
    matching row. *)
Lemma plotted_point (dataframe : DataFrame) (ws : list Z) (ts : list float)
    (ax : figure) (i j : nat) (t : float) (w : Z) :
  plot_lines dataframe ws (enumerate ts) [] = Ok ax ->
  nth_error ts i = Some t -> nth_error ws j = Some w ->
  exists r,
    row_for dataframe t w = Ok r
    /\ nth_error (point_markers ax) (i * length ws + j) = Some (point_of i r).
Proof.
  intros Hplot Ht Hw.
  destruct (plotted_rows _ _ _ _ Hplot) as (rows & Hrows & ->).
  destruct (Forall2_nth_l _ _ _ i t Hrows Ht) as (rs & Hrs & Hf).
  destruct (Forall2_nth_l _ _ _ j w Hf Hw) as (r & Hr & Hrow).
  exists r. split; [assumption|].
  rewrite (nth_error_concat_uniform (length ws) _ i j (map (point_of i) rs)).
  - rewrite nth_error_map, Hr. reflexivity.
  - eapply rows_uniform. eassumption.
  - rewrite nth_error_map, enumerate_nth, Hrs. reflexivity.
  - apply nth_error_Some. congruence.
Qed.

(** ** Rows that repeat a pair *)

Lemma eqb_notnan (a b : float) :
  F64.eqb a b = true -> F64.isnan a = false /\ F64.isnan b = false.
Proof.
  unfold F64.eqb, SFeqb.
  destruct a as [[]|[]| |[] m1 e1], b as [[]|[]| |[] m2 e2]; cbn;
    intros; try discriminate; split; reflexivity.
Qed.

Lemma eqb_same_key (a b : float) : F64.eqb a b = true -> F64.key a = F64.key b.
Proof.
  intros Hab. destruct (eqb_notnan a b Hab) as [Ha Hb].
  apply (F64Facts.eqb_key a b Ha Hb). assumption.
Qed.

(** [==] does not tell apart two doubles that are [==]. *)
Lemma eqb_congr (a b t : float) :
  F64.eqb a b = true -> F64.eqb a t = F64.eqb b t.
Proof.
  intros Hab. destruct (eqb_notnan a b Hab) as [Ha Hb].
  pose proof (eqb_same_key a b Hab) as Hk.
  destruct (F64.isnan t) eqn:Ht.
  - apply FloatOrder.isnan_eq in Ht. subst t.
    destruct a as [[]|[]| |[] m1 e1], b as [[]|[]| |[] m2 e2]; reflexivity.
  - apply eq_true_iff_eq.
    rewrite (F64Facts.eqb_key a t Ha Ht), (F64Facts.eqb_key b t Hb Ht), Hk.
    reflexivity.
Qed.

Lemma eqb_sym (a b : float) : F64.eqb a b = F64.eqb b a.
Proof.
  destruct (F64.isnan a) eqn:Ha.
  { apply FloatOrder.isnan_eq in Ha. subst a.
    destruct b as [[]|[]| |[] m2 e2]; reflexivity. }
  destruct (F64.isnan b) eqn:Hb.
  { apply FloatOrder.isnan_eq in Hb. subst b.
    destruct a as [[]|[]| |[] m1 e1]; reflexivity. }
  apply eq_true_iff_eq.
  rewrite (F64Facts.eqb_key a b Ha Hb), (F64Facts.eqb_key b a Hb Ha).
  split; congruence.
Qed.

Lemma eqb_tied (a b : float) :
  F64.eqb a b = true -> tied F64.np_less a b = true.
Proof.
  intros Hab. apply eqb_same_key in Hab. apply F64Facts.equiv_key in Hab.
  destruct Hab as [H1 H2]. unfold tied. rewrite H1, H2. reflexivity.
Qed.

(** Two rows that match one pair match the same pairs. *)
Lemma matches_same_pair (t w : _) (r r' : row) (t0 : float) (w0 : Z) :
  matches t w r = true -> matches t w r' = true ->
  matches t0 w0 r' = matches t0 w0 r.
Proof.
  unfold matches. rewrite !andb_true_iff, !Z.eqb_eq.
  intros [Hr Hw] [Hr' Hw'].
  assert (Hrr : F64.eqb (threshold r') (threshold r) = true).
  { rewrite (eqb_congr _ t) by assumption. rewrite eqb_sym. assumption. }
  rewrite (eqb_congr _ _ t0 Hrr). congruence.
Qed.

Lemma matches_self (t : float) (w : Z) (r : row) :
  matches t w r = true -> matches (threshold r) (window_size r) r = true.
Proof.
  unfold matches. rewrite !andb_true_iff. intros [Ht _].
  apply eqb_notnan in Ht as [Hn _].
  rewrite F64Facts.eqb_refl, Hn, Z.eqb_refl. auto.
Qed.

Lemma head_app_cons {A : Type} (l : list A) (x : A) (r r' : list A) :
  head (l ++ x :: r) = head (l ++ x :: r').
Proof. destruct l; reflexivity. Qed.

(** The first element that passes a test does not change when a later
    element is dropped that passes only if an earlier one does. *)
Lemma head_filter_drop {A : Type} (f : A -> bool) (l1 l2 l3 : list A) (x x' : A) :
  (f x' = true -> f x = true) ->
  head (List.filter f (l1 ++ x :: l2 ++ x' :: l3))
  = head (List.filter f (l1 ++ x :: l2 ++ l3)).
Proof.
  intros Himp. rewrite !List.filter_app. cbn [List.filter]. rewrite !List.filter_app.
  cbn [List.filter]. destruct (f x') eqn:Hx'; [|reflexivity].
  rewrite (Himp eq_refl). apply head_app_cons.
Qed.

Lemma values0_head {A : Type} (l : list A) :
  values0 l = match head l with Some x => Ok x | None => Raise IndexError end.
Proof. destruct l; reflexivity. Qed.

Lemma traverse_ext {A B : Type} (f g : A -> result B) (l : list A) :
  (forall x, f x = g x) -> traverse f l = traverse g l.
Proof.
  intros Hfg. induction l as [|x l IH]; [reflexivity|].
  cbn. rewrite Hfg, IH. reflexivity.
Qed.

Section DropDuplicate.
Variables df1 df2 df3 : DataFrame.
Variables r r' : row.
Hypothesis same_pair : matches (threshold r) (window_size r) r' = true.

Local Abbreviation dataframe := (df1 ++ r :: df2 ++ r' :: df3).
Local Abbreviation dataframe' := (df1 ++ r :: df2 ++ df3).

Lemma same_pair_threshold : F64.eqb (threshold r') (threshold r) = true.
Proof. unfold matches in same_pair. apply andb_true_iff in same_pair. tauto. Qed.

Lemma same_pair_window : window_size r' = window_size r.
Proof.
  unfold matches in same_pair. apply andb_true_iff in same_pair.
  apply Z.eqb_eq. tauto.
Qed.

Lemma drop_duplicate_thresholds : thresholds dataframe = thresholds dataframe'.
Proof.
  rewrite !IndexerFacts.thresholds_distinct.
  apply (distinct_same_first F64.np_less F64Facts.np_less_irrefl
           F64Facts.np_less_trans F64Facts.np_less_negtrans
           F64.apart IndexerFacts.apart_spec).
  intros c.
  rewrite !map_app. cbn [map]. rewrite !map_app. cbn [map].
  apply head_filter_drop. intros Hc.
  apply (tied_trans F64.np_less F64Facts.np_less_negtrans c (threshold r'));
    [assumption|].
  apply eqb_tied, same_pair_threshold.
Qed.

Lemma drop_duplicate_window_sizes : window_sizes dataframe = window_sizes dataframe'.
Proof.
  rewrite !IndexerFacts.window_sizes_distinct.
  apply (distinct_same_first Z.ltb IntOrder.irrefl IntOrder.trans IntOrder.negtrans
           _ IntOrder.ne_spec).
  intros c.
  rewrite !map_app. cbn [map]. rewrite !map_app. cbn [map].
  apply head_filter_drop. rewrite same_pair_window. auto.
Qed.

Lemma drop_duplicate_row_for (t : float) (w : Z) :
  row_for dataframe t w = row_for dataframe' t w.
Proof.
  unfold row_for. rewrite !select_both, !values0_head.
  rewrite head_filter_drop; [reflexivity|].
  intros Hr'. unfold matches in *.
  rewrite <- (eqb_congr _ _ t same_pair_threshold), <- same_pair_window.
  exact Hr'.
Qed.

(** A later row that repeats the pair of an earlier one changes nothing:
    not the thresholds, not the window sizes, not one artist. *)
Lemma drop_duplicate_plot : plot dataframe = plot dataframe'.
Proof.
  unfold plot. rewrite !plot_lines_closed.
  rewrite drop_duplicate_thresholds, drop_duplicate_window_sizes.
  unfold draw_lines.
  rewrite (traverse_ext _ (fun '(i, t) =>
             rs ← traverse (row_for dataframe' t) (window_sizes dataframe');
             Ok (draw_line i (window_sizes dataframe') rs))); [reflexivity|].
  intros [i t].
  rewrite (traverse_ext (row_for dataframe t) (row_for dataframe' t));
    [reflexivity|].
  intros w. apply drop_duplicate_row_for.
Qed.
End DropDuplicate.
End PlotFacts.

(* ===================================================================== *)
(** * The plotting loop: what is drawn, and when it fails                  *)
(* ===================================================================== *)

Module PlotClaims.
Import StyleFacts PlotFacts.

(** A pair with a matching row has a row to read. *)
Lemma row_for_covered (dataframe : DataFrame) (t : float) (w : Z) (r : row) :
  In r dataframe -> matches t w r = true ->
  exists r0, row_for dataframe t w = Ok r0.
Proof.
  intros Hr Hm. destruct (row_for dataframe t w) as [r0|e] eqn:Hrow; [eauto|].
  exfalso. pose proof (row_for_only _ _ _ _ Hrow). subst e.
  apply row_for_none in Hrow. rewrite List.Forall_forall in Hrow.
  rewrite (Hrow r Hr) in Hm. discriminate.
Qed.

Lemma In_enumerate {A : Type} (l : list A) (i : nat) (x : A) :
  In (i, x) (enumerate l) -> In x l.
Proof. unfold enumerate. apply in_combine_r. Qed.



(** A pair without a row stops the loop with [IndexError]. *)
Lemma missing_pair_plot (dataframe : DataFrame) (t : float) (w : Z) :
  In t (thresholds dataframe) -> In w (window_sizes dataframe) ->
  Forall (fun r => matches t w r = false) dataframe ->
  plot dataframe = Raise IndexError.
Proof.
  intros Ht Hw Hnone. unfold plot. rewrite plot_lines_closed.
  fold (draw_lines dataframe (window_sizes dataframe)
          (enumerate (thresholds dataframe))).
  destruct (draw_lines _ _ _) as [drawn|e] eqn:Hdrawn.
  - exfalso. unfold draw_lines in Hdrawn. apply traverse_Ok in Hdrawn.
    apply In_nth_error in Ht as (i & Hi).
    assert (Hit : nth_error (enumerate (thresholds dataframe)) i = Some (i, t))
      by (rewrite enumerate_nth, Hi; reflexivity).
    destruct (Forall2_nth_l _ _ _ _ _ Hdrawn Hit) as (fig & _ & Hfig).
    cbn in Hfig.
    destruct (traverse (row_for dataframe t) (window_sizes dataframe))
      as [rs|e] eqn:Hrs; [|discriminate].
    apply traverse_Ok in Hrs. apply In_nth_error in Hw as (j & Hj).
    destruct (Forall2_nth_l _ _ _ _ _ Hrs Hj) as (r & _ & Hr).
    apply row_for_none in Hnone. congruence.
  - cbn. f_equal. eapply draw_lines_only. eassumption.
Qed.

(** C4. When a pair has several rows, its point is read from the first
    of them in file order, and a later one changes nothing: the plot
    without it is the same. *)
Theorem first_match_wins (df1 df2 df3 : DataFrame) (r r' : row)
    (i j : nat) (t : float) (w : Z) (ax : figure) :
  let dataframe := df1 ++ r :: df2 ++ r' :: df3 in
  plot dataframe = Ok ax ->
  nth_error (thresholds dataframe) i = Some t ->
  nth_error (window_sizes dataframe) j = Some w ->
  Forall (fun r0 => matches t w r0 = false) df1 ->
  matches t w r = true ->
  matches t w r' = true ->
  nth_error (point_markers ax) (i * length (window_sizes dataframe) + j)
  = Some (ifp_rate r, det_ratio r, color_C i, marker_of i)
  /\ plot (df1 ++ r :: df2 ++ df3) = Ok ax.
Proof.
  intros dataframe Hplot Ht Hw Hbefore Hr Hr'. split.
  - destruct (plotted_point _ _ _ _ i j t w Hplot Ht Hw) as (r0 & Hrow & Hpt).
    assert (Hfirst : row_for dataframe t w = Ok r).
    { apply row_for_first. exists df1, (df2 ++ r' :: df3). auto. }
    rewrite Hfirst in Hrow. injection Hrow as <-. exact Hpt.
  - rewrite <- Hplot. symmetry. apply drop_duplicate_plot.
    rewrite (matches_same_pair t w r r' _ _ Hr Hr').
    eapply matches_self. eassumption.
Qed.

(** In the sample, the pair (0.5, 10) has its first row at the top and a
    second one at the end. *)
Lemma first_match_wins_witness :
  exists ax,
    plot Sample.table_duplicate = Ok ax
    /\ nth_error (point_markers ax) 0
       = Some (lit_10, Sample.f_0_95, color_C 0, marker_of 0)
    /\ plot Sample.table = Ok ax.
Proof.
  destruct (plot Sample.table_duplicate) as [ax|e] eqn:Hplot;
    [|vm_compute in Hplot; discriminate].
  exists ax. split; [reflexivity|].
  apply (first_match_wins [] [Sample.row_05_100; Sample.row_09_10; Sample.row_09_100] []
           Sample.row_05_10 Sample.row_05_10_again 0 0 Sample.f_0_5 10 ax).
  - exact Hplot.
  - reflexivity.
  - reflexivity.
  - constructor.
  - reflexivity.
  - reflexivity.
Defined.

(** ** The legend *)

Lemma traverse_total {A B : Type} (f : A -> result B) (g : A -> B) (l : list A) :
  (forall x, f x = Ok (g x)) -> traverse f l = Ok (map g l).
Proof.
  intros Hfg. induction l as [|x l IH]; [reflexivity|].
  cbn. rewrite Hfg, IH. reflexivity.
Qed.

Section Legend.
Context `{Libraries}.

(** The handle of series [i]. *)
Lemma legend_elements_closed (ts : list float) :
  legend_elements ts
  = Ok (map (fun '(i, t) =>
               {| l_xdata := []; l_ydata := [];
                  l_label := "Threshold " +:+ str_float t;
                  l_color := color_C i; l_marker := marker_of i;
                  l_ls := "None"; l_mew := lit_0_5; l_ms := lit_3 |})
            (enumerate ts)).
Proof.
  unfold legend_elements. apply traverse_total. intros [i t].
  rewrite markers_of_nat. reflexivity.
Qed.

(** C1. Series [N], the one of the [N]-th threshold in ascending order,
    is drawn with marker [N mod 6] of the six markers and, once
    matplotlib has read its colour name, with colour [N mod n] of the
    [n] colours of the cycle; its legend handle carries the same colour
    name and the same marker. *)
Theorem style_binding (dataframe : DataFrame) (prop_cycle : list string)
    (ax : figure) (N : nat) (t : float) :
  plot dataframe = Ok ax ->
  nth_error (thresholds dataframe) N = Some t ->
  let colors := match prop_cycle with [] => ["k"%string] | _ => prop_cycle end in
  exists marker color handles h,
    nth_error markers_ (N mod 6)%nat = Some marker
    /\ nth_error colors (N mod length colors)%nat = Some color
    /\ legend_elements (thresholds dataframe) = Ok handles
    /\ nth_error handles N = Some h
    /\ l_marker h = marker
    /\ nth_color prop_cycle (l_color h) = Some color
    /\ forall j w,
         nth_error (window_sizes dataframe) j = Some w ->
         exists x y c,
           nth_error (point_markers ax)
             (N * length (window_sizes dataframe) + j)
           = Some (x, y, c, marker)
           /\ c = l_color h
           /\ nth_color prop_cycle c = Some color.
Proof.
  intros Hplot Ht colors.
  assert (Hcolor : exists color,
             nth_error colors (N mod length colors)%nat = Some color).
  { destruct (nth_error colors (N mod length colors)%nat) eqn:Hc; [eauto|].
    exfalso. apply nth_error_None in Hc.
    assert (length colors <> 0%nat)
      by (subst colors; destruct prop_cycle; cbn; discriminate).
    pose proof (Nat.mod_upper_bound N (length colors)). lia. }
  destruct Hcolor as (color & Hcolor).
  set (handle := fun '(i, t) =>
                   {| l_xdata := []; l_ydata := [];
                      l_label := "Threshold " +:+ str_float t;
                      l_color := color_C i; l_marker := marker_of i;
                      l_ls := "None"; l_mew := lit_0_5; l_ms := lit_3 |}).
  exists (marker_of N), color, (map handle (enumerate (thresholds dataframe))),
    (handle (N, t)).
  split; [apply marker_of_lookup|]. split; [assumption|].
  split; [apply legend_elements_closed|].
  split; [rewrite nth_error_map, enumerate_nth, Ht; reflexivity|].
  split; [reflexivity|].
  assert (Hread : nth_color prop_cycle (color_C N) = Some color)
    by (rewrite nth_color_C; exact Hcolor).
  split; [exact Hread|].
  intros j w Hw.
  destruct (plotted_point _ _ _ _ N j t w Hplot Ht Hw) as (r & _ & Hpt).
  exists (ifp_rate r), (det_ratio r), (color_C N).
  split; [exact Hpt|]. split; [reflexivity | exact Hread].
Qed.
End Legend.

(** The second series of the sample, with a cycle of three colours. *)
Lemma style_binding_witness :
  exists marker color handles h,
    nth_error markers_ (1 mod 6)%nat = Some marker
    /\ nth_error ["blue"; "orange"; "green"]%string (1 mod 3)%nat = Some color
    /\ @legend_elements Sample.libraries (thresholds Sample.table) = Ok handles
    /\ nth_error handles 1 = Some h
    /\ l_marker h = marker
    /\ nth_color ["blue"; "orange"; "green"]%string (l_color h) = Some color
    /\ forall j w,
         nth_error (window_sizes Sample.table) j = Some w ->
         exists x y c,
           nth_error (point_markers
                        (Sample.table_drawn))
             (1 * length (window_sizes Sample.table) + j)
           = Some (x, y, c, marker)
           /\ c = l_color h
           /\ nth_color ["blue"; "orange"; "green"]%string c = Some color.
Proof.
  apply (@style_binding Sample.libraries Sample.table ["blue"; "orange"; "green"]%string
           Sample.table_drawn 1 Sample.f_0_9).
  - reflexivity.
  - reflexivity.
Defined.
End PlotClaims.

(* ===================================================================== *)
(** * Facts: the run of the script                                         *)
(* ===================================================================== *)

Module RunFacts.
Import StyleFacts PlotFacts PlotClaims.

(** ** One step at a time *)

Lemma step_emit {A : Type} (e : event) (f : unit -> Script A) (w : world) :
  (emit e ≫= f) w = f tt (log e w).
Proof. reflexivity. Qed.

Lemma step_time {A : Type} (f : float -> Script A) (w : world) :
  (time ≫= f) w = f (clock w (ticks w)) (tick w).
Proof. reflexivity. Qed.

Lemma step_lift {A B : Type} (r : result A) (f : A -> Script B) (w : world) :
  (lift r ≫= f) w
  = match r with
    | Ok a => f a w
    | Raise e => (Raise e, w)
    end.
Proof. destruct r; reflexivity. Qed.

Lemma step_read `{Libraries} {A : Type} (path : string)
    (f : DataFrame -> Script A) (w : world) :
  (read_results path ≫= f) w
  = match read_json_astype (file_bytes (fs w) path) with
    | Ok table => f table (log (ReadFile path) w)
    | Raise e => (Raise e, log (ReadFile path) w)
    end.
Proof.
  unfold mbind, script_bind, read_results.
  destruct (read_json_astype _); reflexivity.
Qed.

Lemma step_bind {A B : Type} (m : Script A) (f : A -> Script B) (w : world) :
  (m ≫= f) w
  = match m w with
    | (Ok a, w') => f a w'
    | (Raise e, w') => (Raise e, w')
    end.
Proof. reflexivity. Qed.

Ltac steps :=
  unfold print, print_end;
  repeat (first [rewrite step_emit | rewrite step_time]; cbv beta).

(** ** The file system calls *)

Lemma join_file_path : os_path_join plots_dir "dr_over_ifpr.pdf" = file_path.
Proof. reflexivity. Qed.

Lemma split_file_path : split_last file_path = Some (plots_dir, "dr_over_ifpr.pdf"%string).
Proof. reflexivity. Qed.

Lemma paths_differ :
  plots_dir <> file_path /\ results_path <> plots_dir /\ results_path <> file_path.
Proof. repeat split; discriminate. Qed.

(** [mkdir] makes the directory when there is none. *)
Lemma mkdir_absent (path : string) (w : world) :
  fs w !! path = None ->
  mkdir_exist_ok path w
  = (Ok tt, set_fs (<[path := Dir]> (fs w)) (log (MkDir path) w)).
Proof. intros Hp. unfold mkdir_exist_ok. cbn. rewrite Hp. reflexivity. Qed.

(** [mkdir] leaves a directory that is there as it is. *)
Lemma mkdir_present (path : string) (w : world) :
  fs w !! path = Some Dir ->
  mkdir_exist_ok path w = (Ok tt, log (MkDir path) w).
Proof. intros Hp. unfold mkdir_exist_ok. cbn. rewrite Hp. reflexivity. Qed.

(** [mkdir] fails on a path that is a file. *)
Lemma mkdir_on_file (path content : string) (w : world) :
  fs w !! path = Some (File content) ->
  mkdir_exist_ok path w = (Raise FileExistsError, log (MkDir path) w).
Proof. intros Hp. unfold mkdir_exist_ok. cbn. rewrite Hp. reflexivity. Qed.

(** After [mkdir] has passed, the path is a directory, and nothing else
    has changed. *)
Lemma mkdir_post (path : string) (w w' : world) :
  mkdir_exist_ok path w = (Ok tt, w') ->
  fs w' !! path = Some Dir
  /\ (forall p, p <> path -> fs w' !! p = fs w !! p)
  /\ (fs w !! path = Some Dir -> fs w' = fs w).
Proof.
  unfold mkdir_exist_ok. cbn.
  destruct (fs w !! path) as [[|content]|] eqn:Hp; intros [= <-]; cbn.
  - auto.
  - split; [apply lookup_insert_eq|]. split; [|discriminate].
    intros p Hne. apply lookup_insert_ne. congruence.
Qed.

Section Save.
Context `{Libraries}.

Lemma savefig_ok (fig : figure) (kwargs : list (string * string)) (w : world) :
  fs w !! plots_dir = Some Dir ->
  fs w !! file_path <> Some Dir ->
  savefig file_path fig kwargs w
  = (Ok tt,
     tick (set_fs (<[file_path := File (pdf_bytes fig kwargs (clock w (ticks w)))]> (fs w))
             (log (SaveFig file_path fig) w))).
Proof.
  intros Hdir Hfile. unfold savefig. rewrite split_file_path.
  cbn [fs log clock ticks]. rewrite Hdir.
  destruct (fs w !! file_path) as [[|content]|]; [congruence | reflexivity | reflexivity].
Qed.

Lemma savefig_on_dir (fig : figure) (kwargs : list (string * string)) (w : world) :
  fs w !! plots_dir = Some Dir ->
  fs w !! file_path = Some Dir ->
  savefig file_path fig kwargs w
  = (Raise IsADirectoryError, log (SaveFig file_path fig) w).
Proof.
  intros Hdir Hfile. unfold savefig. rewrite split_file_path.
  cbn [fs log clock ticks]. rewrite Hdir, Hfile. reflexivity.
Qed.
End Save.

(** ** The whole run *)

Section Run.
Context `{Libraries}.

Lemma finished_figure_plot (table : DataFrame) :
  finished_figure table
  = match plot (round_threshold table) with
    | Ok ax =>
        match legend_elements (thresholds (round_threshold table)) with
        | Ok handles =>
            Ok ((((ax ++ plot_options)
                    ++ [Legend handles "upper right" lit_6 lit_1])
                   ++ [TightLayout])
                  ++ [set_size])
        | Raise e => Raise e
        end
    | Raise e => Raise e
    end.
Proof.
  unfold finished_figure. cbv zeta.
  destruct (plot (round_threshold table)); [|reflexivity].
  cbn. destruct (legend_elements _); reflexivity.
Qed.

Lemma finished_figure_raises (table : DataFrame) (e : exn) :
  finished_figure table = Raise e <-> plot (round_threshold table) = Raise e.
Proof.
  rewrite finished_figure_plot, legend_elements_closed.
  destruct (plot (round_threshold table)); split; congruence.
Qed.

(** The script, stage by stage: load, build the figure, make the
    directory, save. *)
Lemma main_stages (w : world) :
  main w
  = match read_json_astype (file_bytes (fs w) results_path) with
    | Raise e => (Raise e, w_read w)
    | Ok table =>
        match finished_figure table with
        | Raise e => (Raise e, w_plot w)
        | Ok fig =>
            match mkdir_exist_ok plots_dir (w_options w) with
            | (Raise e, w') => (Raise e, w')
            | (Ok _, w') =>
                match savefig file_path fig savefig_kwargs
                        (log (Stdout ("Saving plot as PDF..." +:+ " ")) w') with
                | (Raise e, w'') => (Raise e, w'')
                | (Ok _, w'') => (Ok tt, w_end (clock w (ticks w)) w'')
                end
            end
        end
    end.
Proof.
  unfold main. steps. rewrite step_read.
  change (fs (log _ (tick (log _ (log _ (log _ w)))))) with (fs w).
  destruct (read_json_astype (file_bytes (fs w) results_path)) as [table|e];
    [|reflexivity].
  cbv zeta. steps. rewrite step_lift.
  rewrite finished_figure_plot. unfold plot.
  destruct (plot_lines _ _ _ []) as [ax|e]; [|reflexivity].
  steps. rewrite step_lift.
  destruct (legend_elements (thresholds (round_threshold table))) as [handles|e] eqn:Hl;
    [|rewrite legend_elements_closed in Hl; discriminate].
  rewrite step_bind. fold plots_dir.
  change (log (Stdout ("Done!" +:+ nl)) _) with (w_options w).
  destruct (mkdir_exist_ok plots_dir (w_options w)) as [[[]|e] w']; [|reflexivity].
  steps. rewrite step_bind, join_file_path.
  fold savefig_kwargs.
  destruct (savefig file_path _ savefig_kwargs _) as [[[]|e] w'']; [|reflexivity].
  steps. reflexivity.
Qed.

Variable files : gmap string node.
Variable clk : nat -> float.

Lemma run_read_fails (e : exn) :
  read_json_astype (file_bytes files results_path) = Raise e ->
  run files clk
  = (Raise e, {| fs := files; clock := clk; ticks := 1; trace := trace_read |}).
Proof.
  intros Hread. unfold run. rewrite main_stages.
  change (fs (boot files clk)) with files. rewrite Hread. reflexivity.
Qed.

Lemma run_plot_fails (table : DataFrame) (e : exn) :
  read_json_astype (file_bytes files results_path) = Ok table ->
  finished_figure table = Raise e ->
  run files clk
  = (Raise e, {| fs := files; clock := clk; ticks := 1; trace := trace_plot |}).
Proof.
  intros Hread Hfig. unfold run. rewrite main_stages.
  change (fs (boot files clk)) with files. rewrite Hread, Hfig. reflexivity.
Qed.

Lemma run_mkdir_fails (table : DataFrame) (fig : figure) (content : string) :
  read_json_astype (file_bytes files results_path) = Ok table ->
  finished_figure table = Ok fig ->
  files !! plots_dir = Some (File content) ->
  run files clk
  = (Raise FileExistsError,
     {| fs := files; clock := clk; ticks := 1; trace := trace_mkdir |}).
Proof.
  intros Hread Hfig Hdir. unfold run. rewrite main_stages.
  change (fs (boot files clk)) with files. rewrite Hread, Hfig.
  rewrite (mkdir_on_file plots_dir content) by exact Hdir. reflexivity.
Qed.

Lemma dir_made_lookup :
  (files !! plots_dir = None \/ files !! plots_dir = Some Dir) ->
  dir_made files !! plots_dir = Some Dir
  /\ forall p, p <> plots_dir -> dir_made files !! p = files !! p.
Proof.
  unfold dir_made. intros [Hd | Hd]; rewrite Hd.
  - split; [apply lookup_insert_eq|].
    intros p Hp. apply lookup_insert_ne. congruence.
  - auto.
Qed.

(** The world in which [savefig] is called. *)
Lemma run_to_save (table : DataFrame) (fig : figure) :
  read_json_astype (file_bytes files results_path) = Ok table ->
  finished_figure table = Ok fig ->
  (files !! plots_dir = None \/ files !! plots_dir = Some Dir) ->
  run files clk
  = match savefig file_path fig savefig_kwargs
            {| fs := dir_made files; clock := clk; ticks := 1;
               trace := trace_mkdir ++ [Stdout "Saving plot as PDF... "] |} with
    | (Raise e, w'') => (Raise e, w'')
    | (Ok _, w'') => (Ok tt, w_end (clk 0%nat) w'')
    end.
Proof.
  intros Hread Hfig Hdir. unfold run. rewrite main_stages.
  change (fs (boot files clk)) with files. rewrite Hread, Hfig.
  unfold dir_made. destruct Hdir as [Hdir | Hdir]; rewrite Hdir.
  - rewrite mkdir_absent by exact Hdir. reflexivity.
  - rewrite mkdir_present by exact Hdir. reflexivity.
Qed.

(** The run that saves the figure. *)
Lemma run_saved (table : DataFrame) (fig : figure) :
  read_json_astype (file_bytes files results_path) = Ok table ->
  finished_figure table = Ok fig ->
  (files !! plots_dir = None \/ files !! plots_dir = Some Dir) ->
  files !! file_path <> Some Dir ->
  run files clk
  = (Ok tt,
     {| fs := <[file_path := File (pdf_bytes fig savefig_kwargs (clk 1%nat))]>
                (dir_made files);
        clock := clk; ticks := 3;
        trace := trace_save fig ++ trace_end (clk 2%nat) (clk 0%nat) |}).
Proof.
  intros Hread Hfig Hdir Hfile.
  rewrite (run_to_save table fig Hread Hfig Hdir).
  destruct (dir_made_lookup Hdir) as [Hmade Hother].
  rewrite savefig_ok.
  - reflexivity.
  - exact Hmade.
  - cbn [fs]. rewrite Hother by (apply not_eq_sym, paths_differ). exact Hfile.
Qed.

(** The run that finds a directory where the file should go. *)
Lemma run_save_on_dir (table : DataFrame) (fig : figure) :
  read_json_astype (file_bytes files results_path) = Ok table ->
  finished_figure table = Ok fig ->
  (files !! plots_dir = None \/ files !! plots_dir = Some Dir) ->
  files !! file_path = Some Dir ->
  run files clk
  = (Raise IsADirectoryError,
     {| fs := dir_made files; clock := clk; ticks := 1; trace := trace_save fig |}).
Proof.
  intros Hread Hfig Hdir Hfile.
  rewrite (run_to_save table fig Hread Hfig Hdir).
  destruct (dir_made_lookup Hdir) as [Hmade Hother].
  rewrite savefig_on_dir.
  - reflexivity.
  - exact Hmade.
  - cbn [fs]. rewrite Hother by (apply not_eq_sym, paths_differ). exact Hfile.
Qed.
End Run.
End RunFacts.

(* ===================================================================== *)
(** * The run: failure before saving, determinism, the output directory    *)
(* ===================================================================== *)

Module RunClaims.
Import StyleFacts PlotFacts PlotClaims RunFacts.

(** ** Axis limits *)

Lemma draw_line_data (i : nat) (ws : list Z) (rs : list row) :
  forallb data_artist (draw_line i ws rs) = true.
Proof.
  unfold draw_line. induction (combine ws rs) as [|[w r] wrs IH]; [reflexivity|].
  cbn. exact IH.
Qed.

Lemma plot_data (dataframe : DataFrame) (ax : figure) :
  plot dataframe = Ok ax -> forallb data_artist ax = true.
Proof.
  unfold plot. rewrite plot_lines_closed. unfold draw_lines.
  destruct (traverse _ (enumerate (thresholds dataframe))) as [drawn|e] eqn:Hd;
    [|discriminate].
  cbn. intros [= <-]. apply traverse_Ok in Hd.
  induction Hd as [|[i t] fig its drawn Hfig _ IH]; [reflexivity|].
  cbn [concat]. rewrite forallb_app, IH, andb_true_r.
  cbn in Hfig. destruct (traverse (row_for dataframe t) _); [|discriminate].
  cbn in Hfig. injection Hfig as <-. apply draw_line_data.
Qed.

Lemma axis_limits_data (ax rest : figure) :
  forallb data_artist ax = true ->
  axis_limits (ax ++ rest) = axis_limits rest.
Proof.
  unfold axis_limits. rewrite fold_left_app. generalize (@None (float * float)) at 1 3.
  generalize (@None (float * float)) at 1 2.
  induction ax as [|a ax IH]; intros ylim xlim Hdata; [reflexivity|].
  cbn in Hdata. apply andb_true_iff in Hdata as [Ha Hax].
  cbn [fold_left]. destruct a; try discriminate; apply IH; assumption.
Qed.

Section Run.
Context `{Libraries}.

(** The axes of a finished figure run from 0.3 to 6000 and from 0.82 to
    0.98. *)
Lemma finished_axis_limits (table : DataFrame) (fig : figure) :
  finished_figure table = Ok fig ->
  axis_limits fig = (Some (lit_0_3, lit_6000), Some (lit_0_82, lit_0_98)).
Proof.
  rewrite finished_figure_plot.
  destruct (plot (round_threshold table)) as [ax|e] eqn:Hplot; [|discriminate].
  rewrite legend_elements_closed. intros [= <-].
  rewrite <- !app_assoc. rewrite axis_limits_data by (eapply plot_data; eassumption).
  reflexivity.
Qed.

(** ** What a run has saved *)

Ltac no_such_event Hin :=
  cbn in Hin;
  repeat (destruct Hin as [Hin | Hin]; [discriminate Hin|]);
  destruct Hin.

(** A figure is handed to [savefig] only as the finished figure of the
    table that was read. *)
Lemma saved_figure (files : gmap string node) (clk : nat -> float)
    (p : string) (fig : figure) :
  In (SaveFig p fig) (trace (snd (run files clk))) ->
  exists table,
    read_json_astype (file_bytes files results_path) = Ok table
    /\ finished_figure table = Ok fig
    /\ p = file_path.
Proof.
  destruct (read_json_astype (file_bytes files results_path)) as [table|e] eqn:Hread.
  2:{ rewrite (run_read_fails files clk e Hread). intros Hin. no_such_event Hin. }
  destruct (finished_figure table) as [fig'|e] eqn:Hfig.
  2:{ rewrite (run_plot_fails files clk table e Hread Hfig). intros Hin.
      no_such_event Hin. }
  assert (Hsame : In (SaveFig p fig) (trace_save fig' ++ trace_end (clk 2%nat) (clk 0%nat)) ->
                  fig' = fig /\ p = file_path).
  { intros Hin. cbn in Hin.
    repeat (destruct Hin as [Hin | Hin]; [try discriminate Hin|]); [|destruct Hin].
    injection Hin as <- <-. auto. }
  assert (Hdone : fig' = fig /\ p = file_path ->
                  exists table0,
                    Ok table = Ok table0 /\ finished_figure table0 = Ok fig
                    /\ p = file_path).
  { intros [<- ->]. exists table. auto. }
  destruct (files !! plots_dir) as [[|content]|] eqn:Hdir.
  - destruct (files !! file_path) as [[|c]|] eqn:Hfile.
    + rewrite (run_save_on_dir files clk table fig' Hread Hfig (or_intror Hdir) Hfile).
      intros Hin. apply Hdone, Hsame. apply in_or_app. left. exact Hin.
    + rewrite (run_saved files clk table fig' Hread Hfig (or_intror Hdir))
        by (rewrite Hfile; discriminate).
      intros Hin. apply Hdone, Hsame. exact Hin.
    + rewrite (run_saved files clk table fig' Hread Hfig (or_intror Hdir))
        by (rewrite Hfile; discriminate).
      intros Hin. apply Hdone, Hsame. exact Hin.
  - rewrite (run_mkdir_fails files clk table fig' content Hread Hfig Hdir).
    intros Hin. no_such_event Hin.
  - destruct (files !! file_path) as [[|c]|] eqn:Hfile.
    + rewrite (run_save_on_dir files clk table fig' Hread Hfig (or_introl Hdir) Hfile).
      intros Hin. apply Hdone, Hsame. apply in_or_app. left. exact Hin.
    + rewrite (run_saved files clk table fig' Hread Hfig (or_introl Hdir))
        by (rewrite Hfile; discriminate).
      intros Hin. apply Hdone, Hsame. exact Hin.
    + rewrite (run_saved files clk table fig' Hread Hfig (or_introl Hdir))
        by (rewrite Hfile; discriminate).
      intros Hin. apply Hdone, Hsame. exact Hin.
Qed.

(** C3. If some threshold and some window size of the table have no row
    in common, the run ends in [IndexError] in the plotting loop; the
    directory has not been asked for, [savefig] has not been called, and
    the files are as they were. *)
Theorem missing_pair_fails (files : gmap string node) (clk : nat -> float)
    (table : DataFrame) (t : float) (w : Z) :
  read_json_astype (file_bytes files results_path) = Ok table ->
  In t (thresholds (round_threshold table)) ->
  In w (window_sizes (round_threshold table)) ->
  Forall (fun r => matches t w r = false) (round_threshold table) ->
  fst (run files clk) = Raise IndexError
  /\ fs (snd (run files clk)) = files
  /\ trace (snd (run files clk)) = trace_plot
  /\ (forall p, ~ In (MkDir p) (trace (snd (run files clk))))
  /\ (forall p fig, ~ In (SaveFig p fig) (trace (snd (run files clk)))).
Proof.
  intros Hread Ht Hw Hnone.
  assert (Hfig : finished_figure table = Raise IndexError).
  { apply finished_figure_raises. eapply missing_pair_plot; eassumption. }
  rewrite (run_plot_fails files clk table IndexError Hread Hfig). cbn [fst snd fs trace].
  repeat split; try reflexivity.
  - intros p Hin. no_such_event Hin.
  - intros p fig Hin. no_such_event Hin.
Qed.

(** ** The output directory *)

Lemma run_saved_post (files : gmap string node) (clk : nat -> float)
    (table : DataFrame) (fig : figure) :
  read_json_astype (file_bytes files results_path) = Ok table ->
  finished_figure table = Ok fig ->
  (files !! plots_dir = None \/ files !! plots_dir = Some Dir) ->
  files !! file_path <> Some Dir ->
  fst (run files clk) <> Raise FileExistsError
  /\ fs (snd (run files clk)) !! plots_dir = Some Dir
  /\ file_bytes (fs (snd (run files clk))) results_path = file_bytes files results_path
  /\ (forall p, p <> file_path -> p <> plots_dir ->
        fs (snd (run files clk)) !! p = files !! p)
  /\ (files !! plots_dir = Some Dir ->
      forall p, p <> file_path -> fs (snd (run files clk)) !! p = files !! p)
  /\ (exists rest, trace (snd (run files clk)) = trace_save fig ++ rest)
  /\ (files !! file_path <> Some Dir ->
      fst (run files clk) = Ok tt
      /\ fs (snd (run files clk)) !! file_path
         = Some (File (pdf_bytes fig savefig_kwargs (clk 1%nat)))).
Proof.
  intros Hread Hfig Hdir Hnd.
  destruct (dir_made_lookup files Hdir) as [Hmade Hother].
  assert (Hkept : files !! plots_dir = Some Dir -> dir_made files = files).
  { intros Hd. unfold dir_made. rewrite Hd. reflexivity. }
  destruct paths_differ as (Hpf & Hrp & Hrf).
  rewrite (run_saved files clk table fig Hread Hfig Hdir Hnd).
  cbn [fst snd fs trace]. unfold file_bytes.
  rewrite !lookup_insert_ne by congruence.
  rewrite (Hother results_path Hrp).
  split; [discriminate|]. split; [exact Hmade|]. split; [reflexivity|].
  split; [intros p Hp Hp'; rewrite lookup_insert_ne by congruence; auto|].
  split; [intros Hd p Hp; rewrite lookup_insert_ne by congruence;
          rewrite (Hkept Hd); reflexivity|].
  split; [eauto|].
  intros _. split; [reflexivity | apply lookup_insert_eq].
Qed.

Lemma run_not_exists_error (files : gmap string node) (clk : nat -> float)
    (table : DataFrame) (fig : figure) :
  read_json_astype (file_bytes files results_path) = Ok table ->
  finished_figure table = Ok fig ->
  (files !! plots_dir = None \/ files !! plots_dir = Some Dir) ->
  fst (run files clk) <> Raise FileExistsError
  /\ fs (snd (run files clk)) !! plots_dir = Some Dir
  /\ file_bytes (fs (snd (run files clk))) results_path = file_bytes files results_path
  /\ (forall p, p <> file_path -> p <> plots_dir ->
        fs (snd (run files clk)) !! p = files !! p)
  /\ (files !! plots_dir = Some Dir ->
      forall p, p <> file_path -> fs (snd (run files clk)) !! p = files !! p)
  /\ (exists rest, trace (snd (run files clk)) = trace_save fig ++ rest)
  /\ (files !! file_path <> Some Dir ->
      fst (run files clk) = Ok tt
      /\ fs (snd (run files clk)) !! file_path
         = Some (File (pdf_bytes fig savefig_kwargs (clk 1%nat)))).
Proof.
  intros Hread Hfig Hdir.
  destruct (dir_made_lookup files Hdir) as [Hmade Hother].
  assert (Hkept : files !! plots_dir = Some Dir -> dir_made files = files).
  { intros Hd. unfold dir_made. rewrite Hd. reflexivity. }
  destruct paths_differ as (Hpf & Hrp & Hrf).
  assert (Hcase : files !! file_path = Some Dir \/ files !! file_path <> Some Dir).
  { destruct (files !! file_path) as [[|c]|]; [left | right | right];
      congruence. }
  destruct Hcase as [Hfile | Hnd].
  - rewrite (run_save_on_dir files clk table fig Hread Hfig Hdir Hfile).
    cbn [fst snd fs trace]. unfold file_bytes.
    rewrite (Hother results_path Hrp).
    split; [discriminate|]. split; [exact Hmade|]. split; [reflexivity|].
    split; [intros p _ Hp; apply Hother; exact Hp|].
    split; [intros Hd p _; rewrite (Hkept Hd); reflexivity|].
    split; [exists []; rewrite app_nil_r; reflexivity|].
    intros Hnot. congruence.
  - apply (run_saved_post files clk table fig); assumption.
Qed.

(** C8. When the script reaches the save step and [./plots] is a
    directory or is not there, [mkdir] does not make the run end in
    [FileExistsError]: the directory is there afterwards, made if it was
    missing and otherwise left with everything in it but the page; the
    [mkdir] call comes before the [savefig] call; and a second run on the
    files the first one left does not end in [FileExistsError] either. *)
Theorem plots_dir_idempotent (files : gmap string node) (clk : nat -> float)
    (table : DataFrame) (fig : figure) :
  read_json_astype (file_bytes files results_path) = Ok table ->
  finished_figure table = Ok fig ->
  (files !! plots_dir = None \/ files !! plots_dir = Some Dir) ->
  fst (run files clk) <> Raise FileExistsError
  /\ fs (snd (run files clk)) !! plots_dir = Some Dir
  /\ (files !! plots_dir = Some Dir ->
      forall p, p <> file_path -> fs (snd (run files clk)) !! p = files !! p)
  /\ (exists before after,
        trace (snd (run files clk))
        = before ++ MkDir plots_dir :: Stdout "Saving plot as PDF... "
                 :: SaveFig file_path fig :: after
        /\ forall p fig', ~ In (SaveFig p fig') before)
  /\ (files !! file_path <> Some Dir ->
      fst (run files clk) = Ok tt
      /\ fs (snd (run files clk)) !! file_path
         = Some (File (pdf_bytes fig savefig_kwargs (clk 1%nat))))
  /\ (forall clk',
        fst (run (fs (snd (run files clk))) clk') <> Raise FileExistsError).
Proof.
  intros Hread Hfig Hdir.
  destruct (run_not_exists_error files clk table fig Hread Hfig Hdir)
    as (Hno & Hmade & Hbytes & _ & Hkept & (rest & Htrace) & Hsaved).
  split; [exact Hno|]. split; [exact Hmade|]. split; [exact Hkept|].
  split; [|split; [exact Hsaved|]].
  - exists (trace_plot ++ [Stdout ("Done!" +:+ nl)]), rest. split.
    + rewrite Htrace. unfold trace_save, trace_mkdir.
      rewrite <- !app_assoc. reflexivity.
    + intros p fig' Hin. cbn in Hin.
      repeat (destruct Hin as [Hin | Hin]; [discriminate Hin|]). destruct Hin.
  - intros clk'.
    apply (run_not_exists_error (fs (snd (run files clk))) clk' table fig).
    + rewrite Hbytes. exact Hread.
    + exact Hfig.
    + right. exact Hmade.
Qed.
End Run.

(** ** The sample runs *)

Lemma sample_read_full :
  @read_json_astype Sample.libraries (file_bytes Sample.files_full results_path)
  = Ok Sample.table.
Proof. vm_compute. reflexivity. Qed.

Lemma sample_read_rerun :
  @read_json_astype Sample.libraries (file_bytes Sample.files_rerun results_path)
  = Ok Sample.table.
Proof. vm_compute. reflexivity. Qed.

Lemma sample_figure :
  @finished_figure Sample.libraries Sample.table = Ok Sample.table_figure.
Proof. vm_compute. reflexivity. Qed.

(** The table without a row for threshold 0.9 and window size 100. *)
Lemma missing_pair_fails_witness :
  fst (@run Sample.libraries Sample.files_missing Sample.clock_0) = Raise IndexError
  /\ fs (snd (@run Sample.libraries Sample.files_missing Sample.clock_0))
     = Sample.files_missing
  /\ trace (snd (@run Sample.libraries Sample.files_missing Sample.clock_0)) = trace_plot
  /\ (forall p, ~ In (MkDir p)
                    (trace (snd (@run Sample.libraries Sample.files_missing Sample.clock_0))))
  /\ (forall p fig,
        ~ In (SaveFig p fig)
            (trace (snd (@run Sample.libraries Sample.files_missing Sample.clock_0)))).
Proof.
  apply (@missing_pair_fails Sample.libraries Sample.files_missing Sample.clock_0
           Sample.table_missing Sample.f_0_9 100).
  - vm_compute. reflexivity.
  - vm_compute. right. left. reflexivity.
  - vm_compute. right. left. reflexivity.
  - repeat constructor.
Defined.

(** A first run at time 0 on a disk without [./plots], and a run at time
    1 on a disk with it: the bytes of the two pages differ. *)
Lemma sample_bytes_differ :
  fs (snd (@run Sample.libraries Sample.files_full Sample.clock_0)) !! file_path
  <> fs (snd (@run Sample.libraries Sample.files_rerun Sample.clock_1)) !! file_path.
Proof.
  rewrite (@run_saved Sample.libraries Sample.files_full Sample.clock_0
             Sample.table Sample.table_figure sample_read_full sample_figure)
    by (vm_compute; auto || discriminate).
  rewrite (@run_saved Sample.libraries Sample.files_rerun Sample.clock_1
             Sample.table Sample.table_figure sample_read_rerun sample_figure)
    by (vm_compute; auto || discriminate).
  cbn [snd fs]. rewrite !lookup_insert_eq. vm_compute. discriminate.
Qed.

(** A first run on a disk without [./plots]. *)
Lemma plots_dir_idempotent_witness :
  fst (@run Sample.libraries Sample.files_full Sample.clock_0) <> Raise FileExistsError
  /\ (forall clk',
        fst (@run Sample.libraries
               (fs (snd (@run Sample.libraries Sample.files_full Sample.clock_0))) clk')
        <> Raise FileExistsError).
Proof.
  destruct (@plots_dir_idempotent Sample.libraries Sample.files_full Sample.clock_0
              Sample.table Sample.table_figure)
    as (Hno & _ & _ & _ & _ & Hagain).
  - vm_compute. reflexivity.
  - vm_compute. reflexivity.
  - left. vm_compute. reflexivity.
  - split; assumption.
Defined.
End RunClaims.

(* ===================================================================== *)
(** * More facts: styles                                                   *)
(* ===================================================================== *)

Module StyleMore.
Import StyleFacts.

Lemma marker_of_same (i j : nat) :
  marker_of i = marker_of j <-> (i mod 6 = j mod 6)%nat.
Proof.
  unfold marker_of. split; [|intros ->; reflexivity].
  pose proof (Nat.mod_upper_bound i 6 ltac:(lia)) as Hi.
  pose proof (Nat.mod_upper_bound j 6 ltac:(lia)) as Hj.
  destruct (i mod 6)%nat as [|[|[|[|[|[|a]]]]]]; try lia;
    destruct (j mod 6)%nat as [|[|[|[|[|[|b]]]]]]; try lia;
    cbn; intros Heq; try reflexivity; discriminate Heq.
Qed.

(** X1. Two series get the same marker shape exactly when their indices
    agree modulo six: the six shapes are pairwise different. *)
Theorem markers_same_iff (i j : Z) :
  markers i = markers j <-> i mod 6 = j mod 6.
Proof.
  rewrite !markers_value. split; [|intros ->; reflexivity].
  pose proof (Z.mod_pos_bound i 6 ltac:(lia)) as Hi.
  pose proof (Z.mod_pos_bound j 6 ltac:(lia)) as Hj.
  intros Heq. injection Heq as Heq.
  rewrite <- (Z2Nat.id (i mod 6)), <- (Z2Nat.id (j mod 6)) by lia.
  f_equal.
  assert (Hi' : (Z.to_nat (i mod 6) < 6)%nat) by lia.
  assert (Hj' : (Z.to_nat (j mod 6) < 6)%nat) by lia.
  destruct (Z.to_nat (i mod 6)) as [|[|[|[|[|[|a]]]]]]; try lia;
    destruct (Z.to_nat (j mod 6)) as [|[|[|[|[|[|b]]]]]]; try lia;
    cbn in Heq; try reflexivity; discriminate Heq.
Qed.

(** X2. With a colour cycle of pairwise different colours, two series
    look the same (same resolved colour, same marker) exactly when their
    indices agree modulo the length of the cycle and modulo six. *)
Theorem series_style_same_iff (prop_cycle : list string) (i j : nat) :
  prop_cycle <> [] -> List.NoDup prop_cycle ->
  series_style prop_cycle i = series_style prop_cycle j
  <-> (i mod length prop_cycle = j mod length prop_cycle /\ i mod 6 = j mod 6)%nat.
Proof.
  intros Hne Hnd. unfold series_style.
  rewrite !nth_color_C, !markers_of_nat.
  destruct prop_cycle as [|c cs]; [congruence|]. cbv zeta.
  set (colors := c :: cs) in *.
  assert (Hlen : length colors <> 0%nat) by (unfold colors; cbn; lia).
  pose proof (Nat.mod_upper_bound i (length colors) Hlen) as Hi.
  split.
  - intros Heq. injection Heq as Hc Hm. split.
    + rewrite List.NoDup_nth_error in Hnd. apply Hnd; assumption.
    + apply marker_of_same. assumption.
  - intros [Hc Hm]. rewrite Hc. apply marker_of_same in Hm. rewrite Hm. reflexivity.
Qed.

(** Series 1 and 7 under a cycle of three colours. *)
Lemma series_style_same_iff_witness :
  series_style ["blue"; "orange"; "green"]%string 1
  = series_style ["blue"; "orange"; "green"]%string 7
  <-> (1 mod 3 = 7 mod 3 /\ 1 mod 6 = 7 mod 6)%nat.
Proof.
  apply (series_style_same_iff ["blue"; "orange"; "green"]%string 1 7).
  - discriminate.
  - repeat constructor; cbn; intuition discriminate.
Defined.
End StyleMore.

(* ===================================================================== *)
(** * More facts: the plotting loop                                        *)
(* ===================================================================== *)

Module PlotMore.
Import PlotFacts.

Lemma annotations_app (f g : figure) :
  annotations (f ++ g) = annotations f ++ annotations g.
Proof. unfold annotations. rewrite !flat_map_concat_map, map_app, concat_app. reflexivity. Qed.

Lemma annotations_draw_line (i : nat) (ws : list Z) (rs : list row) :
  annotations (draw_line i ws rs)
  = map (fun '(w, r) => (str_int w, (ifp_rate r, det_ratio r), color_C i))
      (combine ws rs).
Proof.
  unfold draw_line. generalize (combine ws rs) as wrs.
  induction wrs as [|[w r] wrs IH]; [reflexivity|].
  cbn [flat_map map]. rewrite annotations_app, IH. reflexivity.
Qed.

Lemma point_markers_draw_line_pairs (i : nat) (ws : list Z) (rs : list row) :
  point_markers (draw_line i ws rs)
  = map (fun '(w, r) => point_of i r) (combine ws rs).
Proof.
  unfold draw_line. generalize (combine ws rs) as wrs.
  induction wrs as [|[w r] wrs IH]; [reflexivity|].
  cbn [flat_map map]. rewrite point_markers_app, IH. reflexivity.
Qed.

(** What the loop has drawn when it ends: one [draw_line] per threshold,
    over rows found for every window size. *)
Lemma plot_drawn (dataframe : DataFrame) (ax : figure) :
  plot dataframe = Ok ax ->
  exists drawn,
    ax = concat drawn
    /\ Forall2 (fun '(i, t) fig =>
                  exists rs,
                    length rs = length (window_sizes dataframe)
                    /\ fig = draw_line i (window_sizes dataframe) rs)
         (enumerate (thresholds dataframe)) drawn.
Proof.
  unfold plot. rewrite plot_lines_closed. unfold draw_lines.
  destruct (traverse _ (enumerate (thresholds dataframe))) as [drawn|e] eqn:Hd;
    [|discriminate].
  cbn. intros [= <-]. exists drawn. split; [reflexivity|].
  apply traverse_Ok in Hd.
  induction Hd as [|[i t] fig its drawn Hfig _ IH]; constructor; [|assumption].
  cbn in Hfig.
  destruct (traverse (row_for dataframe t) _) as [rs|e] eqn:Hrs; [|discriminate].
  cbn in Hfig. injection Hfig as <-. exists rs. split; [|reflexivity].
  eapply traverse_length. eassumption.
Qed.

(** X3. Every marker has its label: the annotations of the plot are, in
    drawing order, at the positions of the markers and in their
    colours. *)
Theorem labels_at_markers (dataframe : DataFrame) (ax : figure) :
  plot dataframe = Ok ax ->
  map (fun '(_, xy, color) => (xy, color)) (annotations ax)
  = map (fun '(x, y, color, _) => ((x, y), color)) (point_markers ax).
Proof.
  intros Hplot. destruct (plot_drawn dataframe ax Hplot) as (drawn & -> & Hd).
  clear Hplot. induction Hd as [|[i t] fig its drawn Hfig _ IH]; [reflexivity|].
  cbn [concat]. rewrite annotations_app, point_markers_app, !map_app, IH. f_equal.
  destruct Hfig as (rs & _ & ->).
  rewrite annotations_draw_line, point_markers_draw_line_pairs, !map_map.
  apply map_ext. intros [w r]. reflexivity.
Qed.

Lemma labels_at_markers_witness :
  map (fun '(_, xy, color) => (xy, color)) (annotations Sample.table_drawn)
  = map (fun '(x, y, color, _) => ((x, y), color)) (point_markers Sample.table_drawn).
Proof.
  apply (labels_at_markers Sample.table Sample.table_drawn).
  vm_compute. reflexivity.
Defined.

(** X4. The labels read the window sizes: for each threshold in turn,
    the window sizes in ascending order, each in decimal. *)
Theorem label_texts (dataframe : DataFrame) (ax : figure) :
  plot dataframe = Ok ax ->
  map (fun '(text, _, _) => text) (annotations ax)
  = concat (repeat (map str_int (window_sizes dataframe))
              (length (thresholds dataframe))).
Proof.
  intros Hplot. destruct (plot_drawn dataframe ax Hplot) as (drawn & -> & Hd).
  clear Hplot. rewrite <- (enumerate_length (thresholds dataframe)).
  induction Hd as [|[i t] fig its drawn Hfig _ IH]; [reflexivity|].
  cbn [concat length repeat]. rewrite annotations_app, map_app, IH. f_equal.
  destruct Hfig as (rs & Hlen & ->).
  rewrite annotations_draw_line, map_map.
  clear IH. revert rs Hlen.
  induction (window_sizes dataframe) as [|w ws IHw]; intros [|r rs] Hlen;
    try discriminate; [reflexivity|].
  cbn [combine map]. f_equal. apply IHw. cbn in Hlen. congruence.
Qed.

Lemma label_texts_witness :
  map (fun '(text, _, _) => text) (annotations Sample.table_drawn)
  = concat (repeat (map str_int (window_sizes Sample.table))
              (length (thresholds Sample.table))).
Proof.
  apply (label_texts Sample.table Sample.table_drawn).
  vm_compute. reflexivity.
Defined.

(** ** The order of the rows *)

Lemma distinct_pairs_filter (dataframe : DataFrame) (t : float) (w : Z) :
  distinct_pairs dataframe = true ->
  (length (List.filter (matches t w) dataframe) <= 1)%nat.
Proof.
  induction dataframe as [|r rest IH]; intros Hd; [cbn; lia|].
  cbn in Hd. apply andb_true_iff in Hd as [Hr Hrest].
  cbn [List.filter]. destruct (matches t w r) eqn:Hm; [|auto].
  assert (Hnone : List.filter (matches t w) rest = []).
  { rewrite forallb_forall in Hr. clear IH Hrest.
    induction rest as [|r' rest IH]; [reflexivity|].
    cbn [List.filter].
    assert (Hr' : matches t w r' = false).
    { destruct (matches t w r') eqn:Hm'; [|reflexivity].
      specialize (Hr r' (or_introl eq_refl)). unfold same_pair in Hr.
      rewrite (matches_same_pair t w r r' _ _ Hm Hm') in Hr.
      rewrite (matches_self t w r Hm) in Hr. discriminate. }
    rewrite Hr'. apply IH. intros x Hx. apply Hr. right. assumption. }
  rewrite Hnone. cbn. lia.
Qed.

Lemma filter_Permutation {A : Type} (f : A -> bool) (l l' : list A) :
  Permutation l l' -> Permutation (List.filter f l) (List.filter f l').
Proof.
  induction 1 as [|x l l' _ IH|x y l|l l' l'' _ IH1 _ IH2]; cbn [List.filter].
  - constructor.
  - destruct (f x); [constructor|]; assumption.
  - destruct (f x), (f y); try reflexivity. constructor.
  - etransitivity; eassumption.
Qed.

Lemma Permutation_short {A : Type} (l l' : list A) :
  Permutation l l' -> (length l <= 1)%nat -> l = l'.
Proof.
  intros Hp Hlen. destruct l as [|x [|y l]]; cbn in Hlen; try lia.
  - apply Permutation_nil in Hp. congruence.
  - apply Permutation_length_1_inv in Hp. congruence.
Qed.

Lemma matches_same_number (t t' : float) (w : Z) (r : row) :
  F64.same_number t t' -> matches t w r = matches t' w r.
Proof.
  intros [-> | (s & s' & -> & ->)]; [reflexivity|].
  unfold matches.
  replace (F64.eqb (threshold r) (S754_zero s))
    with (F64.eqb (threshold r) (S754_zero s')); [reflexivity|].
  destruct (threshold r) as [[]|[]| |[] m e], s, s'; reflexivity.
Qed.

Lemma row_for_Permutation (df df' : DataFrame) (t t' : float) (w : Z) :
  distinct_pairs df = true -> Permutation df df' -> F64.same_number t t' ->
  row_for df t w = row_for df' t' w.
Proof.
  intros Hd Hp Ht. unfold row_for. rewrite !select_both. f_equal.
  transitivity (List.filter (matches t w) df').
  - apply Permutation_short.
    + apply filter_Permutation. assumption.
    + apply distinct_pairs_filter. assumption.
  - apply filter_ext. intros r. apply matches_same_number. assumption.
Qed.

Lemma traverse_Forall2 {A A' B : Type} (f : A -> result B) (g : A' -> result B)
    (l : list A) (l' : list A') :
  Forall2 (fun a b => f a = g b) l l' -> traverse f l = traverse g l'.
Proof.
  induction 1 as [|a b l l' Hab _ IH]; [reflexivity|].
  cbn [traverse]. rewrite Hab, IH. reflexivity.
Qed.

Lemma enumerate_Forall2 {A : Type} (R : A -> A -> Prop) (l l' : list A) :
  Forall2 R l l' ->
  Forall2 (fun it it' => fst it = fst it' /\ R (snd it) (snd it'))
    (enumerate l) (enumerate l').
Proof.
  unfold enumerate. intros HR. generalize 0%nat.
  induction HR as [|a b l l' Hab _ IH]; intros start; [constructor|].
  cbn [length seq combine]. constructor; [split; [reflexivity | assumption]|].
  apply IH.
Qed.

(** X9. When no two rows have the same threshold and window size, the
    plot does not depend on the order of the rows: every permutation of
    the table gives the same markers and labels in the same order, or
    the same [IndexError]. *)
Theorem plot_row_order (df df' : DataFrame) :
  distinct_pairs df = true -> Permutation df df' -> plot df = plot df'.
Proof.
  intros Hd Hp. unfold plot. rewrite !plot_lines_closed.
  rewrite <- (IndexerFacts.window_sizes_Permutation df df' Hp).
  replace (draw_lines df' (window_sizes df) (enumerate (thresholds df')))
    with (draw_lines df (window_sizes df) (enumerate (thresholds df)));
    [reflexivity|].
  unfold draw_lines. apply traverse_Forall2.
  pose proof (enumerate_Forall2 _ _ _
                (IndexerFacts.thresholds_Permutation df df' Hp)) as Hts.
  eapply IndexerFacts.Forall2_imp; [|exact Hts].
  intros [i t] [i' t'] [Hi Ht]. cbn in Hi, Ht. subst i'.
  rewrite (traverse_ext (row_for df t) (row_for df' t')); [reflexivity|].
  intros w. apply row_for_Permutation; assumption.
Qed.

(** The sample table read last row first. *)
Lemma plot_row_order_witness : plot Sample.table = plot Cases.table_reversed.
Proof.
  apply (plot_row_order Sample.table Cases.table_reversed).
  - vm_compute. reflexivity.
  - apply Permutation_rev.
Defined.
End PlotMore.

(* ===================================================================== *)
(** * More facts: how many rows a plot needs                               *)
(* ===================================================================== *)

Module PlotCount.
Import PlotFacts.

Lemma NoDup_list_prod {A B : Type} (l : list A) (l' : list B) :
  List.NoDup l -> List.NoDup l' -> List.NoDup (list_prod l l').
Proof.
  intros Hl Hl'. induction Hl as [|x l Hx _ IH]; [constructor|].
  cbn [list_prod]. apply List.NoDup_app.
  - apply List.NoDup_map_NoDup_ForallPairs; [|assumption].
    intros b b' _ _ [=]. assumption.
  - assumption.
  - intros [a b] Hin Hin'. apply in_map_iff in Hin as (b' & [= <- <-] & _).
    apply in_prod_iff in Hin' as [Hin' _]. contradiction.
Qed.

Lemma row_for_key (dataframe : DataFrame) (t : float) (w : Z) (r : row) :
  row_for dataframe t w = Ok r ->
  In r dataframe /\ pair_key r = (F64.key t, w).
Proof.
  intros Hrow. apply row_for_first in Hrow as (before & after & -> & Hm & _).
  split; [apply in_or_app; right; left; reflexivity|].
  unfold matches in Hm. apply andb_true_iff in Hm as [Ht Hw].
  unfold pair_key. f_equal; [apply eqb_same_key; assumption | apply Z.eqb_eq; assumption].
Qed.

Lemma rows_keys (dataframe : DataFrame) (ws : list Z) (ts : list float)
    (rows : list (list row)) :
  Forall2 (fun t rs => Forall2 (fun w r => row_for dataframe t w = Ok r) ws rs) ts rows ->
  map pair_key (concat rows) = list_prod (map F64.key ts) ws
  /\ incl (concat rows) dataframe.
Proof.
  induction 1 as [|t rs ts rows Hrs _ [IHk IHin]]; [split; [reflexivity | intros r []]|].
  cbn [concat map list_prod]. rewrite map_app, IHk. split.
  - f_equal. clear -Hrs. induction Hrs as [|w r ws rs Hr _ IH]; [reflexivity|].
    cbn [map]. rewrite IH. f_equal. apply (row_for_key dataframe t w r Hr).
  - apply incl_app; [|assumption]. clear -Hrs.
    induction Hrs as [|w r ws rs Hr _ IH]; [intros r []|].
    intros r' [<- | Hin]; [apply (row_for_key dataframe t w r Hr) | apply IH; assumption].
Qed.

Lemma thresholds_keys_NoDup (dataframe : DataFrame) :
  List.NoDup (map F64.key (thresholds dataframe)).
Proof.
  apply List.NoDup_nth_error. intros i j Hi Heq.
  rewrite length_map in Hi. rewrite !nth_error_map in Heq.
  destruct (nth_error (thresholds dataframe) i) as [a|] eqn:Ha.
  2:{ apply nth_error_None in Ha. lia. }
  destruct (nth_error (thresholds dataframe) j) as [b|] eqn:Hb; [|discriminate].
  cbn in Heq. injection Heq as Heq. apply F64Facts.key_inj in Heq.
  eapply IndexerFacts.thresholds_no_duplicate; eassumption.
Qed.

Lemma window_sizes_NoDup (dataframe : DataFrame) :
  List.NoDup (window_sizes dataframe).
Proof.
  pose proof (IndexerFacts.window_sizes_sorted dataframe) as Hs.
  induction Hs as [|w l _ IH Hw]; constructor; [|assumption].
  intros Hin. rewrite List.Forall_forall in Hw. specialize (Hw w Hin). lia.
Qed.

Lemma plot_raises_index (dataframe : DataFrame) (e : exn) :
  plot dataframe = Raise e -> e = IndexError.
Proof.
  unfold plot. rewrite plot_lines_closed.
  destruct (draw_lines _ _ _) as [drawn|e'] eqn:Hd; [discriminate|].
  cbn. intros [= <-]. eapply draw_lines_only. eassumption.
Qed.

(** X17. A plot needs a row of its own for every pair: a table with
    fewer rows than thresholds times window sizes always ends in
    [IndexError]. *)
Theorem plot_needs_enough_rows (dataframe : DataFrame) :
  (length dataframe
   < length (thresholds dataframe) * length (window_sizes dataframe))%nat ->
  plot dataframe = Raise IndexError.
Proof.
  intros Hfew. destruct (plot dataframe) as [ax|e] eqn:Hplot.
  2:{ f_equal. eapply plot_raises_index. eassumption. }
  exfalso.
  destruct (plotted_rows _ _ _ _ Hplot) as (rows & Hrows & _).
  destruct (rows_keys _ _ _ _ Hrows) as [Hkeys Hincl].
  assert (Hnd : List.NoDup (concat rows)).
  { apply (List.NoDup_map_inv pair_key). rewrite Hkeys.
    apply NoDup_list_prod;
      [apply thresholds_keys_NoDup | apply window_sizes_NoDup]. }
  pose proof (List.NoDup_incl_length Hnd Hincl) as Hlen.
  apply (f_equal (@length _)) in Hkeys.
  rewrite length_map, length_prod, length_map in Hkeys. lia.
Qed.

(** Three rows for two thresholds and two window sizes. *)
Lemma plot_needs_enough_rows_witness :
  plot Sample.table_missing = Raise IndexError.
Proof.
  apply (plot_needs_enough_rows Sample.table_missing).
  vm_compute. lia.
Defined.
End PlotCount.

(* ===================================================================== *)
(** * More facts: the indexer, the rounding and the legend                 *)
(* ===================================================================== *)

Module IndexerMore.
Import F64 F64Facts FloatOrder IndexerFacts.

(** X10. The [sorted] calls of lines 53-54 change nothing: what
    [np.unique] returns is in ascending order already, for a column of
    doubles (NaN included) as for a column of integers. *)
Theorem sorted_after_unique :
  (forall column : list float,
     sorted_float (np_unique_float column) = np_unique_float column)
  /\ (forall column : list Z,
        sorted_int (np_unique_int column) = np_unique_int column).
Proof.
  split; intros column.
  - unfold sorted_float. rewrite np_unique_float_mask.
    apply (resort_id np_less np_less_irrefl np_less_trans).
    + exact ltb_np_less.
    + apply (distinct_sorted np_less np_less_irrefl np_less_trans np_less_negtrans
               apart apart_spec).
  - unfold sorted_int, np_unique_int.
    apply (resort_id Z.ltb IntOrder.irrefl IntOrder.trans).
    + auto.
    + apply (distinct_sorted Z.ltb IntOrder.irrefl IntOrder.trans IntOrder.negtrans
               _ IntOrder.ne_spec).
Qed.
End IndexerMore.

Module RoundMore.
Import Rounding RoundFacts.

(** X6. Every threshold the loop runs over is a one-decimal value: it
    is left unchanged by a second rounding. *)
Theorem thresholds_are_rounded (table : DataFrame) (t : float) :
  In t (thresholds (round_threshold table)) -> around1 t = t.
Proof.
  intros Ht. apply IndexerFacts.thresholds_In in Ht.
  unfold round_threshold in Ht. rewrite map_map in Ht. cbn [threshold] in Ht.
  apply in_map_iff in Ht as (r & <- & _).
  unfold around1 at 2 3.
  apply around1_tenth, rint_integral, mul_ten_rounded.
Qed.

Lemma thresholds_are_rounded_witness :
  In Sample.f_0_5 (thresholds (round_threshold Sample.table))
  /\ around1 Sample.f_0_5 = Sample.f_0_5.
Proof.
  assert (Hin : In Sample.f_0_5 (thresholds (round_threshold Sample.table)))
    by (vm_compute; left; reflexivity).
  split; [exact Hin|].
  exact (thresholds_are_rounded Sample.table Sample.f_0_5 Hin).
Defined.

Lemma float_of_int_integral (k : Z) :
  Z.abs k < 2 ^ 53 -> integral (float_of_int k).
Proof.
  intros Hk. unfold float_of_int.
  assert (Hpos : forall (s : bool) (q : Z),
             0 < q < 2 ^ 53 ->
             integral (binary_normalize prec emax (cond_Zopp s q) 0 s)).
  { intros s q Hq.
    destruct (normalize_int s q Hq) as (M & -> & HM & HMb & Hd).
    cbn [integral]. split; [assumption|]. split; [lia|].
    intros He. rewrite HM.
    replace (- (Zdigits2 q - 53)) with (53 - Zdigits2 q) by lia.
    apply Z.mod_mul. pose proof (pow2_pos (53 - Zdigits2 q) ltac:(lia)). lia. }
  destruct k as [|p|p].
  - exact I.
  - apply (Hpos false (Zpos p)). lia.
  - change (binary_normalize prec emax (Z.neg p) 0 false)
      with (binary_normalize prec emax (cond_Zopp true (Zpos p)) 0 true).
    apply (Hpos true (Zpos p)). lia.
Qed.

(** X7. A value with one decimal is not moved by the rounding: for an
    integer [k] that a double holds exactly, the double [k / 10.0] (the
    one nearest to k/10, which is what a literal such as [0.3] denotes)
    is a fixed point of [around1]. *)
Theorem around1_keeps_tenths (k : Z) :
  Z.abs k < 2 ^ 53 ->
  around1 (F64.div (float_of_int k) lit_10) = F64.div (float_of_int k) lit_10.
Proof. intros Hk. apply around1_tenth, float_of_int_integral. assumption. Qed.

(** Three tenths, the double that [0.3] denotes. *)
Lemma around1_keeps_tenths_witness :
  F64.div (float_of_int 3) lit_10 = Cases.f_0_3
  /\ around1 (F64.div (float_of_int 3) lit_10) = F64.div (float_of_int 3) lit_10.
Proof.
  split; [vm_compute; reflexivity|].
  apply (around1_keeps_tenths 3). vm_compute. reflexivity.
Defined.
End RoundMore.

Module LegendMore.
Import PlotFacts.

Lemma legend_handles_data (ax rest : figure) :
  forallb data_artist ax = true ->
  legend_handles (ax ++ rest) = legend_handles rest.
Proof.
  unfold legend_handles. rewrite fold_left_app. intros Hdata. f_equal.
  induction ax as [|a ax IH]; [reflexivity|].
  cbn in Hdata. apply andb_true_iff in Hdata as [Ha Hax].
  cbn [fold_left]. destruct a; try discriminate; apply IH; assumption.
Qed.

Lemma map_enumerate {A B : Type} (g : A -> B) (l : list A) :
  map (fun '(_, x) => g x) (enumerate l) = map g l.
Proof.
  unfold enumerate. generalize 0%nat.
  induction l as [|x l IH]; intros start; [reflexivity|].
  cbn [length seq combine map]. rewrite IH. reflexivity.
Qed.

Section Legend.
Context `{Libraries}.

(** X5. The legend of a finished figure lists the thresholds: one
    handle per threshold of the rounded table, in ascending order,
    labelled [Threshold] and the threshold as Python prints it. *)
Theorem legend_lists_thresholds (table : DataFrame) (fig : figure) :
  finished_figure table = Ok fig ->
  map l_label (legend_handles fig)
  = map (fun t => "Threshold " +:+ str_float t)
      (thresholds (round_threshold table)).
Proof.
  rewrite RunFacts.finished_figure_plot, PlotClaims.legend_elements_closed.
  destruct (plot (round_threshold table)) as [ax|e] eqn:Hplot; [|discriminate].
  intros [= <-]. rewrite <- !app_assoc.
  rewrite legend_handles_data by (eapply RunClaims.plot_data; eassumption).
  cbn [app plot_options legend_handles fold_left].
  unfold set_size. rewrite map_map.
  rewrite <- (map_enumerate (fun t => "Threshold " +:+ str_float t)
                (thresholds (round_threshold table))).
  apply map_ext.
  intros [i t]. reflexivity.
Qed.
End Legend.

Lemma legend_lists_thresholds_witness :
  map l_label (legend_handles Sample.table_figure)
  = map (fun t => "Threshold " +:+ @str_float Sample.libraries t)
      (thresholds (round_threshold Sample.table)).
Proof.
  apply (@legend_lists_thresholds Sample.libraries Sample.table Sample.table_figure).
  vm_compute. reflexivity.
Defined.
End LegendMore.

(* ===================================================================== *)
(** * More facts: the run                                                  *)
(* ===================================================================== *)

Module RunMore.
Import PlotFacts RunFacts.

(** The plot raises nothing exactly when every threshold has a row for
    every window size. *)
Lemma plot_ok_iff (dataframe : DataFrame) :
  (exists ax, plot dataframe = Ok ax)
  <-> (forall t w,
         In t (thresholds dataframe) -> In w (window_sizes dataframe) ->
         exists r, In r dataframe /\ matches t w r = true).
Proof.
  split.
  - intros (ax & Hplot) t w Ht Hw.
    apply In_nth_error in Ht as (i & Hi). apply In_nth_error in Hw as (j & Hj).
    destruct (plotted_point _ _ _ _ i j t w Hplot Hi Hj) as (r & Hrow & _).
    exists r. apply row_for_first in Hrow as (before & after & -> & Hm & _).
    split; [apply in_or_app; right; left; reflexivity | assumption].
  - intros Hcover. unfold plot. rewrite plot_lines_closed. unfold draw_lines.
    destruct (traverse_all
                (fun '(i, t) =>
                   rs ← traverse (row_for dataframe t) (window_sizes dataframe);
                   Ok (draw_line i (window_sizes dataframe) rs))
                (enumerate (thresholds dataframe))) as (drawn & ->).
    + intros [i t] Hit. apply PlotClaims.In_enumerate in Hit.
      destruct (traverse_all (row_for dataframe t) (window_sizes dataframe))
        as (rs & ->).
      * intros w Hw. destruct (Hcover t w Hit Hw) as (r & Hr & Hm).
        eapply PlotClaims.row_for_covered; eassumption.
      * cbn. eauto.
    + cbn. eauto.
Qed.

Lemma eqb_nan_r (x : float) : F64.eqb x S754_nan = false.
Proof. destruct x as [[]|[]| |[] m e]; reflexivity. Qed.

(** A row without a threshold stops the loop. *)
Lemma nan_plot (dataframe : DataFrame) (r : row) :
  In r dataframe -> F64.isnan (threshold r) = true ->
  plot dataframe = Raise IndexError.
Proof.
  intros Hr Hnan.
  destruct (IndexerFacts.thresholds_cover dataframe r Hr) as (t & Ht & Hsame).
  destruct (threshold r) eqn:Hthr; try discriminate.
  assert (t = S754_nan) as ->.
  { destruct Hsame as [-> | (s & s' & _ & Hz)]; [reflexivity | discriminate]. }
  apply (PlotClaims.missing_pair_plot dataframe S754_nan (window_size r)).
  - assumption.
  - apply IndexerFacts.window_sizes_In. apply in_map. assumption.
  - apply List.Forall_forall. intros r' _. unfold matches.
    rewrite eqb_nan_r. reflexivity.
Qed.

Section Run.
Context `{Libraries}.
Variable files : gmap string node.
Variable clk : nat -> float.

(** How a run ends and what it leaves on the disk, case by case. *)
Lemma run_result_files :
  (fst (run files clk), fs (snd (run files clk)))
  = match read_json_astype (file_bytes files results_path) with
    | Raise e => (Raise e, files)
    | Ok table =>
        match finished_figure table with
        | Raise e => (Raise e, files)
        | Ok fig =>
            match files !! plots_dir with
            | Some (File _) => (Raise FileExistsError, files)
            | _ =>
                match files !! file_path with
                | Some Dir => (Raise IsADirectoryError, dir_made files)
                | _ =>
                    (Ok tt,
                     <[file_path := File (pdf_bytes fig savefig_kwargs (clk 1%nat))]>
                       (dir_made files))
                end
            end
        end
    end.
Proof.
  destruct (read_json_astype (file_bytes files results_path)) as [table|e] eqn:Hread.
  2:{ rewrite (run_read_fails files clk e Hread). reflexivity. }
  destruct (finished_figure table) as [fig|e] eqn:Hfig.
  2:{ rewrite (run_plot_fails files clk table e Hread Hfig). reflexivity. }
  assert (Hdir : forall Hok : files !! plots_dir = None \/ files !! plots_dir = Some Dir,
             (fst (run files clk), fs (snd (run files clk)))
             = match files !! file_path with
               | Some Dir => (Raise IsADirectoryError, dir_made files)
               | _ =>
                   (Ok tt,
                    <[file_path := File (pdf_bytes fig savefig_kwargs (clk 1%nat))]>
                      (dir_made files))
               end).
  { intros Hok.
    assert (Hpage : files !! file_path = Some Dir \/ files !! file_path <> Some Dir).
    { destruct (files !! file_path) as [[|c]|]; [left; reflexivity | right | right];
        discriminate. }
    destruct Hpage as [Hpage | Hpage].
    - rewrite (run_save_on_dir files clk table fig Hread Hfig Hok Hpage), Hpage.
      reflexivity.
    - rewrite (run_saved files clk table fig Hread Hfig Hok Hpage).
      destruct (files !! file_path) as [[|c]|]; [congruence | reflexivity | reflexivity]. }
  destruct (files !! plots_dir) as [[|c]|] eqn:Hplots.
  - apply Hdir. right. reflexivity.
  - rewrite (run_mkdir_fails files clk table fig c Hread Hfig Hplots). reflexivity.
  - apply Hdir. left. reflexivity.
Qed.

(** X13. How a run ends is decided by four tests, in this order: the
    exception of the read, if it raises; the [IndexError] of the loop, if
    a pair has no row; [FileExistsError] if [./plots] is a regular file;
    [IsADirectoryError] if the page's path is a directory; and success
    otherwise, whatever the clock says. *)
Theorem run_outcome : fst (run files clk) = outcome files.
Proof.
  pose proof run_result_files as Hrun. apply (f_equal fst) in Hrun.
  cbn [fst] in Hrun. rewrite Hrun. unfold outcome.
  destruct (read_json_astype (file_bytes files results_path)) as [table|e];
    [|reflexivity].
  rewrite finished_figure_plot, PlotClaims.legend_elements_closed.
  destruct (plot (round_threshold table)) as [ax|e] eqn:Hplot.
  2:{ cbn [fst]. f_equal. eapply PlotCount.plot_raises_index. eassumption. }
  destruct (files !! plots_dir) as [[|c]|];
    destruct (files !! file_path) as [[|c']|]; reflexivity.
Qed.

(** X12. A run succeeds exactly when the table is read, every threshold
    of the rounded table has a row for every window size, [./plots] is
    not a regular file and the page's path is not a directory. *)
Theorem run_succeeds_iff :
  fst (run files clk) = Ok tt
  <-> (exists table,
         read_json_astype (file_bytes files results_path) = Ok table
         /\ forall t w,
              In t (thresholds (round_threshold table)) ->
              In w (window_sizes (round_threshold table)) ->
              exists r, In r (round_threshold table) /\ matches t w r = true)
      /\ (forall content, files !! plots_dir <> Some (File content))
      /\ files !! file_path <> Some Dir.
Proof.
  pose proof run_result_files as Hrun. apply (f_equal fst) in Hrun.
  cbn [fst] in Hrun. rewrite Hrun. clear Hrun.
  destruct (read_json_astype (file_bytes files results_path)) as [table|e].
  2:{ split; [discriminate|]. intros [(table & Hread & _) _]. discriminate. }
  rewrite finished_figure_plot, PlotClaims.legend_elements_closed.
  pose proof (plot_ok_iff (round_threshold table)) as Hcover.
  destruct (plot (round_threshold table)) as [ax|e].
  2:{ split; [discriminate|]. intros [(table' & [= <-] & Hall) _].
      apply Hcover in Hall as (ax & Hax). discriminate. }
  assert (Hall : forall t w,
             In t (thresholds (round_threshold table)) ->
             In w (window_sizes (round_threshold table)) ->
             exists r, In r (round_threshold table) /\ matches t w r = true)
    by (apply Hcover; eauto).
  assert (Hread : exists table',
             Ok table = Ok table'
             /\ forall t w,
                  In t (thresholds (round_threshold table')) ->
                  In w (window_sizes (round_threshold table')) ->
                  exists r, In r (round_threshold table') /\ matches t w r = true)
    by (exists table; split; [reflexivity | exact Hall]).
  destruct (files !! plots_dir) as [[|c]|];
    destruct (files !! file_path) as [[|c']|]; cbn [fst]; split;
    try discriminate;
    try (intros _; reflexivity);
    try (intros _; split; [exact Hread|];
         split; [intros content; discriminate | discriminate]);
    intros (_ & Hplots & Hpage); exfalso;
    first [ apply Hpage; reflexivity | apply (Hplots c); reflexivity ].
Qed.

(** X11. A run touches two paths at most: at every other path the disk
    is afterwards as it was before, however the run ends.  The results
    file is among them. *)
Theorem run_touches_two_paths (p : string) :
  p <> plots_dir -> p <> file_path ->
  fs (snd (run files clk)) !! p = files !! p.
Proof.
  intros Hp1 Hp2.
  pose proof run_result_files as Hrun. apply (f_equal snd) in Hrun.
  cbn [snd] in Hrun. rewrite Hrun. clear Hrun.
  assert (Hmade : dir_made files !! p = files !! p).
  { unfold dir_made. destruct (files !! plots_dir); [reflexivity|].
    apply lookup_insert_ne. congruence. }
  destruct (read_json_astype (file_bytes files results_path)) as [table|e];
    [|reflexivity].
  destruct (finished_figure table) as [fig|e]; [|reflexivity].
  destruct (files !! plots_dir) as [[|c]|] eqn:Hplots;
    destruct (files !! file_path) as [[|c']|]; cbn [snd];
    try reflexivity; try exact Hmade;
    (rewrite lookup_insert_ne by congruence; exact Hmade).
Qed.

(** X14. A run removes nothing and turns no directory into a file:
    every path of the disk is still there afterwards, and a directory is
    still a directory. *)
Theorem run_never_removes (p : string) (n : node) :
  files !! p = Some n ->
  exists n', fs (snd (run files clk)) !! p = Some n' /\ (n = Dir -> n' = Dir).
Proof.
  intros Hp.
  pose proof run_result_files as Hrun. apply (f_equal snd) in Hrun.
  cbn [snd] in Hrun. rewrite Hrun. clear Hrun.
  assert (Hmade : dir_made files !! p = Some n).
  { unfold dir_made. destruct (files !! plots_dir) eqn:Hplots; [assumption|].
    rewrite lookup_insert_ne; [assumption|]. intros <-. congruence. }
  assert (Hsame : forall fs' : gmap string node,
             fs' !! p = Some n -> exists n', fs' !! p = Some n' /\ (n = Dir -> n' = Dir))
    by (intros fs' ->; eauto).
  destruct (read_json_astype (file_bytes files results_path)) as [table|e];
    [|apply Hsame; assumption].
  destruct (finished_figure table) as [fig|e]; [|apply Hsame; assumption].
  destruct (files !! plots_dir) as [[|c]|] eqn:Hplots;
    destruct (files !! file_path) as [[|c']|] eqn:Hpage; cbn [snd];
    try (apply Hsame; assumption);
    (destruct (decide (p = file_path)) as [-> | Hne];
     [ rewrite lookup_insert_eq; eexists; split; [reflexivity|];
       intros ->; congruence
     | rewrite lookup_insert_ne by congruence; apply Hsame; assumption ]).
Qed.

(** X8. A row whose threshold is NaN makes the run fail: NaN is among
    the thresholds and equals nothing, itself included, so its line is
    empty and [.values[0]] raises [IndexError]; nothing is written. *)
Theorem nan_threshold_fails (table : DataFrame) (r : row) :
  read_json_astype (file_bytes files results_path) = Ok table ->
  In r table -> F64.isnan (threshold r) = true ->
  fst (run files clk) = Raise IndexError
  /\ fs (snd (run files clk)) = files.
Proof.
  intros Hread Hr Hnan.
  assert (Hplot : plot (round_threshold table) = Raise IndexError).
  { apply (nan_plot _ {| det_ratio := det_ratio r; fp_rate := fp_rate r;
                         ifp_rate := ifp_rate r;
                         threshold := around1 (threshold r);
                         window_size := window_size r |}).
    - unfold round_threshold.
      apply (in_map (fun r => {| det_ratio := det_ratio r; fp_rate := fp_rate r;
                                 ifp_rate := ifp_rate r;
                                 threshold := around1 (threshold r);
                                 window_size := window_size r |})).
      assumption.
    - cbn [threshold]. destruct (threshold r); try discriminate. reflexivity. }
  apply finished_figure_raises in Hplot.
  rewrite (run_plot_fails files clk table IndexError Hread Hplot).
  split; reflexivity.
Qed.
End Run.

(** The sample disk, on which the results file stays as it is. *)
Lemma run_touches_two_paths_witness :
  fs (snd (@run Sample.libraries Sample.files_full Sample.clock_0)) !! results_path
  = Sample.files_full !! results_path.
Proof.
  apply (@run_touches_two_paths Sample.libraries Sample.files_full Sample.clock_0
           results_path); vm_compute; discriminate.
Defined.

(** The notes beside the results are still there after a run. *)
Lemma run_never_removes_witness :
  exists n',
    fs (snd (@run Sample.libraries Cases.files_with_notes Sample.clock_0))
      !! "./notes.txt"%string = Some n'
    /\ (File "keep" = Dir -> n' = Dir).
Proof.
  apply (@run_never_removes Sample.libraries Cases.files_with_notes Sample.clock_0
           "./notes.txt"%string (File "keep")).
  vm_compute. reflexivity.
Defined.

(** The sample table with one more row, whose threshold is NaN. *)
Lemma nan_threshold_fails_witness :
  fst (@run (Cases.reading Cases.table_nan) Sample.files_full Sample.clock_0)
  = Raise IndexError
  /\ fs (snd (@run (Cases.reading Cases.table_nan) Sample.files_full Sample.clock_0))
     = Sample.files_full.
Proof.
  apply (@nan_threshold_fails (Cases.reading Cases.table_nan)
           Sample.files_full Sample.clock_0 Cases.table_nan Cases.row_nan_10).
  - vm_compute. reflexivity.
  - vm_compute. do 4 right. left. reflexivity.
  - reflexivity.
Defined.
End RunMore.

(* ===================================================================== *)
(** * More facts: what a run shows                                         *)
(* ===================================================================== *)

Module TraceMore.
Import RunFacts.

Lemma append_assoc (s1 s2 s3 : string) : (s1 +:+ s2) +:+ s3 = s1 +:+ s2 +:+ s3.
Proof.
  induction s1 as [|c s1 IH]; [reflexivity|].
  change (String c ((s1 +:+ s2) +:+ s3) = String c (s1 +:+ s2 +:+ s3)).
  f_equal. exact IH.
Qed.

Section Run.
Context `{Libraries}.
Variable files : gmap string node.
Variable clk : nat -> float.

(** How a run ends and the trace it leaves, case by case. *)
Lemma run_trace_cases :
  (exists e, fst (run files clk) = Raise e
             /\ trace (snd (run files clk)) = trace_read)
  \/ (exists e, fst (run files clk) = Raise e
                /\ trace (snd (run files clk)) = trace_plot)
  \/ (fst (run files clk) = Raise FileExistsError
      /\ trace (snd (run files clk)) = trace_mkdir)
  \/ (exists fig,
        fst (run files clk) = Raise IsADirectoryError
        /\ trace (snd (run files clk)) = trace_save fig)
  \/ (exists fig,
        fst (run files clk) = Ok tt
        /\ trace (snd (run files clk))
           = trace_save fig ++ trace_end (clk 2%nat) (clk 0%nat)).
Proof.
  destruct (read_json_astype (file_bytes files results_path)) as [table|e] eqn:Hread.
  2:{ left. exists e. rewrite (run_read_fails files clk e Hread). split; reflexivity. }
  destruct (finished_figure table) as [fig|e] eqn:Hfig.
  2:{ right. left. exists e.
      rewrite (run_plot_fails files clk table e Hread Hfig). split; reflexivity. }
  assert (Hdir : (files !! plots_dir = None \/ files !! plots_dir = Some Dir) ->
                 (exists fig,
                    fst (run files clk) = Raise IsADirectoryError
                    /\ trace (snd (run files clk)) = trace_save fig)
                 \/ (exists fig,
                       fst (run files clk) = Ok tt
                       /\ trace (snd (run files clk))
                          = trace_save fig ++ trace_end (clk 2%nat) (clk 0%nat))).
  { intros Hok.
    assert (Hpage : files !! file_path = Some Dir \/ files !! file_path <> Some Dir).
    { destruct (files !! file_path) as [[|c]|]; [left; reflexivity | right | right];
        discriminate. }
    destruct Hpage as [Hpage | Hpage].
    - left. exists fig.
      rewrite (run_save_on_dir files clk table fig Hread Hfig Hok Hpage).
      split; reflexivity.
    - right. exists fig.
      rewrite (run_saved files clk table fig Hread Hfig Hok Hpage).
      split; reflexivity. }
  destruct (files !! plots_dir) as [[|c]|] eqn:Hplots.
  - right. right. right. apply Hdir. right. reflexivity.
  - right. right. left.
    rewrite (run_mkdir_fails files clk table fig c Hread Hfig Hplots).
    split; reflexivity.
  - right. right. right. apply Hdir. left. reflexivity.
Qed.

(** X18. What a successful run prints: the title, the three stages each
    closed by [Done!], and the time between the first and the last
    reading of the clock, to one decimal. *)
Theorem run_prints :
  fst (run files clk) = Ok tt ->
  stdout (trace (snd (run files clk)))
  = nl +:+ "PLOT DETECTION RATIO OVER THE INVERSE FALSE POSITIVE RATE" +:+ nl
    +:+ nl
    +:+ "Reading in data... Done!" +:+ nl
    +:+ "Creating plot... Done!" +:+ nl
    +:+ "Saving plot as PDF... Done!" +:+ nl
    +:+ nl
    +:+ "This took " +:+ format_1f (F64.sub (clk 2%nat) (clk 0%nat))
    +:+ " seconds!" +:+ nl
    +:+ nl.
Proof.
  intros Hok.
  destruct run_trace_cases
    as [(e & He & _) | [(e & He & _) | [(He & _) | [(fig & He & _) | (fig & _ & Ht)]]]];
    try congruence.
  rewrite Ht.
  unfold trace_save, trace_mkdir, trace_plot, trace_read, trace_end, stdout.
  cbn [app fold_right]. rewrite !append_assoc. reflexivity.
Qed.

(** X19. Whatever a run does to the disk, it does at three paths: it
    reads the results file, makes [./plots] and saves the page, and
    nothing else, however it ends. *)
Theorem run_events_paths (e : event) :
  In e (trace (snd (run files clk))) ->
  match e with
  | Stdout _ => True
  | ReadFile path => path = results_path
  | MkDir path => path = plots_dir
  | SaveFig path _ => path = file_path
  end.
Proof.
  intros Hin.
  destruct run_trace_cases
    as [(e' & _ & Ht) | [(e' & _ & Ht) | [(_ & Ht) | [(fig & _ & Ht) | (fig & _ & Ht)]]]];
    rewrite Ht in Hin; cbn in Hin;
    repeat (destruct Hin as [<- | Hin]; [first [exact I | reflexivity]|]);
    destruct Hin.
Qed.
End Run.

(** A first run of the sample on a disk without [./plots]. *)
Lemma run_prints_witness :
  stdout (trace (snd (@run Sample.libraries Sample.files_full Sample.clock_0)))
  = (nl +:+ "PLOT DETECTION RATIO OVER THE INVERSE FALSE POSITIVE RATE" +:+ nl
     +:+ nl
     +:+ "Reading in data... Done!" +:+ nl
     +:+ "Creating plot... Done!" +:+ nl
     +:+ "Saving plot as PDF... Done!" +:+ nl
     +:+ nl
     +:+ "This took 0.0 seconds!" +:+ nl
     +:+ nl)%string.
Proof.
  apply (@run_prints Sample.libraries Sample.files_full Sample.clock_0).
  vm_compute. reflexivity.
Defined.

(** The one save of the sample run. *)
Lemma run_events_paths_witness :
  In (SaveFig "./plots/dr_over_ifpr.pdf" Sample.table_figure)
    (trace (snd (@run Sample.libraries Sample.files_full Sample.clock_0)))
  /\ "./plots/dr_over_ifpr.pdf"%string = file_path.
Proof.
  assert (Hin : In (SaveFig "./plots/dr_over_ifpr.pdf" Sample.table_figure)
                  (trace (snd (@run Sample.libraries Sample.files_full Sample.clock_0))))
    by (vm_compute; do 10 right; left; reflexivity).
  split; [exact Hin|].
  exact (@run_events_paths Sample.libraries Sample.files_full Sample.clock_0
           (SaveFig "./plots/dr_over_ifpr.pdf" Sample.table_figure) Hin).
Defined.
End TraceMore.

(* ===================================================================== *)
(** * More facts: the sign under rounding                                  *)
(* ===================================================================== *)

Module SignFacts.
Import Rounding RoundFacts.

Lemma code_nonneg (l : location) : 0 <= code l.
Proof. destruct l as [|[]]; cbn; lia. Qed.

(** What the rounding of a mantissa can give: a zero, a finite number
    or an infinity, of the sign it was given. *)
Lemma round_aux_shape (s : bool) (mx ex : Z) (lx : location) :
  0 <= mx ->
  binary_round_aux prec emax s mx ex lx = S754_zero s
  \/ binary_round_aux prec emax s mx ex lx = S754_infinity s
  \/ exists m e, binary_round_aux prec emax s mx ex lx = S754_finite s m e.
Proof.
  intros Hm. rewrite binary_round_aux_eq by assumption. cbv zeta.
  set (k := Z.max 0 (fexp prec emax (Zdigits2 mx + ex) - ex)).
  set (m1 := rne (4 * mx + code lx) (k + 2)).
  set (k2 := Z.max 0 _).
  assert (Hm1 : 0 <= m1).
  { pose proof (code_nonneg lx).
    pose proof (rne_bounds (4 * mx + code lx) (k + 2) ltac:(lia)) as Hb.
    assert (0 <= (4 * mx + code lx) / 2 ^ (k + 2))
      by (apply Z.div_pos; [lia | apply pow2_pos; lia]).
    unfold m1. lia. }
  assert (Hq : 0 <= m1 / 2 ^ k2)
    by (apply Z.div_pos; [assumption | apply pow2_pos; lia]).
  destruct (m1 / 2 ^ k2) as [|q|q]; [left; reflexivity | | lia].
  destruct (_ <=? _); right; [right; eauto | left; reflexivity].
Qed.

Lemma round_aux_opp (s : bool) (mx ex : Z) (lx : location) :
  0 <= mx ->
  binary_round_aux prec emax (negb s) mx ex lx
  = SFopp (binary_round_aux prec emax s mx ex lx).
Proof.
  intros Hm. rewrite !binary_round_aux_eq by assumption. cbv zeta.
  destruct (_ / _); cbn [SFopp]; try reflexivity.
  destruct (_ <=? _); reflexivity.
Qed.

Lemma div_core_nonneg (m d : positive) (e e2 mz ez : Z) (lz : location) :
  SFdiv_core_binary prec emax (Zpos m) e (Zpos d) e2 = (mz, ez, lz) -> 0 <= mz.
Proof.
  unfold SFdiv_core_binary. cbv zeta.
  set (sh := e - e2 - _).
  set (m' := match sh with Z0 => Zpos m | Zpos _ => Z.shiftl (Zpos m) sh | Zneg _ => 0 end).
  assert (Hm' : 0 <= m').
  { unfold m'. destruct sh; try lia. apply Z.shiftl_nonneg. lia. }
  rewrite div_eucl_pair. intros [= <- _ _]. apply Z.div_pos; lia.
Qed.

Lemma normalize_shape (s : bool) (q : Z) :
  0 <= q ->
  binary_normalize prec emax (cond_Zopp s q) 0 s = S754_zero s
  \/ binary_normalize prec emax (cond_Zopp s q) 0 s = S754_infinity s
  \/ exists m e, binary_normalize prec emax (cond_Zopp s q) 0 s = S754_finite s m e.
Proof.
  intros Hq. destruct q as [|q|q]; [| |lia].
  - left. destruct s; reflexivity.
  - destruct s; unfold binary_normalize, cond_Zopp;
      try change (- Z.pos q) with (Z.neg q); cbv iota;
      unfold binary_round; destruct (shl_align _ _ _) as [mz ez];
      apply round_aux_shape; lia.
Qed.

Lemma normalize_opp (s : bool) (q : Z) :
  0 <= q ->
  binary_normalize prec emax (cond_Zopp (negb s) q) 0 (negb s)
  = SFopp (binary_normalize prec emax (cond_Zopp s q) 0 s).
Proof.
  intros Hq. destruct q as [|q|q]; [| |lia].
  - destruct s; reflexivity.
  - destruct s; unfold binary_normalize, cond_Zopp; cbn [negb];
      try change (- Z.pos q) with (Z.neg q); cbv iota;
      unfold binary_round; destruct (shl_align _ _ _) as [mz ez].
    + apply (round_aux_opp true). lia.
    + apply (round_aux_opp false). lia.
Qed.

Lemma rne_nonneg (a n : Z) : 0 <= a -> 0 <= n -> 0 <= rne a n.
Proof.
  intros Ha Hn. pose proof (rne_bounds a n Hn).
  assert (0 <= a / 2 ^ n) by (apply Z.div_pos; [lia | apply pow2_pos; lia]). lia.
Qed.

Ltac shape H :=
  destruct H as [-> | [-> | (?m & ?e & ->)]]; reflexivity.

Lemma mul_ten_sign (x : float) : sign_class (F64.mul x lit_10) = sign_class x.
Proof.
  destruct x as [s|s| |s m e]; try (destruct s; reflexivity); [reflexivity|].
  rewrite mul_ten_finite.
  pose proof (round_aux_shape s (Zpos (m * 5629499534213120)) (e + -49) loc_Exact
                ltac:(lia)) as H.
  shape H.
Qed.

Lemma rint_sign (x : float) : sign_class (F64.rint x) = sign_class x.
Proof.
  destruct x as [s|s| |s m [|p|p]]; try reflexivity.
  rewrite rint_neg.
  pose proof (normalize_shape s (rne (Zpos m) (Zpos p))
                (rne_nonneg (Zpos m) (Zpos p) ltac:(lia) ltac:(lia))) as H.
  shape H.
Qed.

Lemma div_ten_sign (x : float) : sign_class (F64.div x lit_10) = sign_class x.
Proof.
  destruct x as [s|s| |s m e]; try (destruct s; reflexivity); [reflexivity|].
  rewrite div_ten_finite.
  destruct (SFdiv_core_binary _ _ _ _ _ _) as [[mz ez] lz] eqn:Hcore.
  pose proof (round_aux_shape s mz ez lz (div_core_nonneg _ _ _ _ _ _ _ Hcore)) as H.
  shape H.
Qed.

(** X15. The rounding keeps what kind of value a threshold is: NaN
    stays NaN, a number stays a number, and its sign bit stays (a small
    negative threshold rounds to [-0.0], not to [0.0]). *)
Theorem around1_keeps_sign (x : float) : sign_class (around1 x) = sign_class x.
Proof. unfold around1. rewrite div_ten_sign, rint_sign, mul_ten_sign. reflexivity. Qed.

Lemma mul_ten_opp (x : float) :
  F64.mul (float_neg x) lit_10 = float_neg (F64.mul x lit_10).
Proof.
  unfold float_neg.
  destruct x as [s|s| |s m e]; try (destruct s; reflexivity); [reflexivity|].
  cbn [SFopp]. rewrite !mul_ten_finite. apply round_aux_opp. lia.
Qed.

Lemma rint_opp (x : float) : F64.rint (float_neg x) = float_neg (F64.rint x).
Proof.
  unfold float_neg.
  destruct x as [s|s| |s m [|p|p]]; try reflexivity.
  cbn [SFopp]. rewrite !rint_neg. apply normalize_opp.
  apply rne_nonneg; lia.
Qed.

Lemma div_ten_opp (x : float) :
  F64.div (float_neg x) lit_10 = float_neg (F64.div x lit_10).
Proof.
  unfold float_neg.
  destruct x as [s|s| |s m e]; try (destruct s; reflexivity); [reflexivity|].
  cbn [SFopp]. rewrite !div_ten_finite.
  destruct (SFdiv_core_binary _ _ _ _ _ _) as [[mz ez] lz] eqn:Hcore.
  apply round_aux_opp. eapply div_core_nonneg. eassumption.
Qed.

(** X16. The rounding is symmetric about zero: the opposite of a
    threshold rounds to the opposite of what the threshold rounds to. *)
Theorem around1_opp (x : float) : around1 (float_neg x) = float_neg (around1 x).
Proof. unfold around1. rewrite mul_ten_opp, rint_opp, div_ten_opp. reflexivity. Qed.
End SignFacts.
